(** * RKNPU driver: scheduling, power and buffer bookkeeping

    A shallow embedding of the job engine ([rknpu_job.c]), the power
    reference counting and the MEM_MAP query ([rknpu_drv.c]) and the session
    buffer list ([rknpu_mem_simple.c]) of the RK3588 NPU driver, together with
    the properties stated about them.

    Conventions.
    - C integers are [Z] values; every narrowing or wrapping conversion the C
      code performs is written out with [s32], [u32], [s64], [u64].
    - Kernel objects reached through pointers live in finite maps keyed by
      their address ([jobs], [task_bufs]); [0] is the NULL pointer.
    - Per-core arrays ([T x[RKNPU_MAX_CORES]]) are lists indexed by the core
      number; an index outside the list reads a fixed default value and a
      store to it is dropped (the C code never does either).
    - Memory-mapped register writes, wake-ups and deferred work are appended to
      a [trace] in program order.
    - Interrupt handlers and process-context calls are interleaved at the
      granularity of one driver function; timestamps and log messages are not
      modelled. *)

From Stdlib Require Import ZArith Lia Bool List.
From stdpp Require Import base numbers option list gmap.

Local Open Scope Z_scope.

(* The solvers of stdpp clear hypotheses by name, present or not. *)
Set Warnings "-clear-no-such-hyp".

(** ** Machine integers *)

Definition wrap_unsigned (w z : Z) : Z := z mod 2 ^ w.
Definition wrap_signed (w z : Z) : Z := (z + 2 ^ (w - 1)) mod 2 ^ w - 2 ^ (w - 1).

Definition u32 : Z -> Z := wrap_unsigned 32.
Definition s32 : Z -> Z := wrap_signed 32.
Definition u64 : Z -> Z := wrap_unsigned 64.
Definition s64 : Z -> Z := wrap_signed 64.

Definition INT_MAX : Z := 2 ^ 31 - 1.
Definition INT_MIN : Z := - 2 ^ 31.

(** [atomic_t] primitives of the kernel, on the stored value. *)
Definition atomic_inc (v : Z) : Z := s32 (v + 1).
Definition atomic_dec (v : Z) : Z := s32 (v - 1).

(** [atomic_dec_if_positive]: returns [old - 1] and stores it only when it is
    not negative. *)
Definition atomic_dec_if_positive (v : Z) : Z * Z :=
  let dec := s32 (v - 1) in
  (dec, if dec <? 0 then v else dec).

(** ** Error numbers *)

Definition ENOMEM : Z := 12.
Definition EFAULT : Z := 14.
Definition EINVAL : Z := 22.
Definition ETIMEDOUT : Z := 110.

(** ** Power controller ([rknpu_drv.c]) *)

Inductive power_event :=
| PowerOn
| PowerOff
| QueueDelayedWork (delay : Z).

#[global] Instance power_event_eq_dec : EqDecision power_event.
Proof. solve_decision. Defined.

(** The fields of [struct rknpu_device] the power functions use. *)
Record power_dev := mk_power_dev {
  power_refcount : Z;
  power_put_delay : Z;
  power_off_work_pending : bool;
  power_log : list power_event
}.

Definition set_power_refcount (v : Z) (d : power_dev) : power_dev :=
  mk_power_dev v (power_put_delay d) (power_off_work_pending d) (power_log d).

Definition power_emit (e : power_event) (d : power_dev) : power_dev :=
  mk_power_dev (power_refcount d) (power_put_delay d)
    (power_off_work_pending d) (power_log d ++ [e]).

(** [rknpu_power_on] enables clocks and power domains and may fail; its
    result [on_ret] is supplied by the platform. *)
Definition rknpu_power_on (on_ret : Z) (d : power_dev) : Z * power_dev :=
  (on_ret, power_emit PowerOn d).

(** [rknpu_power_off] has a single [return 0]. *)
Definition rknpu_power_off (d : power_dev) : Z * power_dev :=
  (0, power_emit PowerOff d).

Definition rknpu_power_get (on_ret : Z) (d : power_dev) : Z * power_dev :=
  let c := atomic_inc (power_refcount d) in
  let d1 := set_power_refcount c d in
  if c =? 1 then rknpu_power_on on_ret d1 else (0, d1).

(** The block of [rknpu_power_put] and [rknpu_power_off_delay_work] that runs
    under [power_lock]. *)
Definition power_put_locked (d : power_dev) : Z * power_dev :=
  let '(dec, c) := atomic_dec_if_positive (power_refcount d) in
  let d1 := set_power_refcount c d in
  if dec =? 0 then
    let '(ret, d2) := rknpu_power_off d1 in
    if ret =? 0 then (ret, d2)
    else (ret, set_power_refcount (atomic_inc (power_refcount d2)) d2)
  else (0, d1).

(** [queue_delayed_work]: a work item that is already pending is not queued a
    second time. *)
Definition queue_delayed_work (d : power_dev) : power_dev :=
  if power_off_work_pending d then d
  else
    mk_power_dev (power_refcount d) (power_put_delay d) true
      (power_log d ++ [QueueDelayedWork (power_put_delay d)]).

Inductive power_entry := PutNow | PutDelay | DelayWork.

(** [rknpu_power_put], [rknpu_power_put_delay] and
    [rknpu_power_off_delay_work] call one another when the power-off fails;
    the mutual recursion is unfolded over [fuel]. *)
Fixpoint power_release (fuel : nat) (e : power_entry) (d : power_dev)
  : option (Z * power_dev) :=
  match fuel with
  | O => None
  | S fuel' =>
    match e with
    | PutDelay =>
      if power_put_delay d =? 0 then power_release fuel' PutNow d
      else if power_refcount d =? 1 then Some (0, queue_delayed_work d)
      else
        Some (0, set_power_refcount
                   (snd (atomic_dec_if_positive (power_refcount d))) d)
    | PutNow | DelayWork =>
      let '(ret, d1) := power_put_locked d in
      if ret =? 0 then Some (ret, d1)
      else
        match power_release fuel' PutDelay d1 with
        | Some (_, d2) => Some (ret, d2)
        | None => None
        end
    end
  end.

Definition power_fuel : nat := 2.

Definition rknpu_power_put (d : power_dev) : option (Z * power_dev) :=
  power_release power_fuel PutNow d.

Definition rknpu_power_put_delay (d : power_dev) : option (Z * power_dev) :=
  power_release power_fuel PutDelay d.

(** The delayed work runs only when it has been queued. *)
Definition rknpu_power_off_delay_work (d : power_dev) : option power_dev :=
  if power_off_work_pending d then
    snd <$> power_release power_fuel DelayWork
      (mk_power_dev (power_refcount d) (power_put_delay d) false (power_log d))
  else Some d.

(** Client-visible power operations. *)
Inductive power_op :=
| Acquire (on_ret : Z)
| Release
| ReleaseDeferred
| DelayedWorkFires.

Definition power_step (op : power_op) (d : power_dev) : option power_dev :=
  match op with
  | Acquire r => Some (snd (rknpu_power_get r d))
  | Release => snd <$> rknpu_power_put d
  | ReleaseDeferred => snd <$> rknpu_power_put_delay d
  | DelayedWorkFires => rknpu_power_off_delay_work d
  end.

Fixpoint power_run (ops : list power_op) (d : power_dev) : option power_dev :=
  match ops with
  | [] => Some d
  | op :: ops' =>
    match power_step op d with
    | Some d' => power_run ops' d'
    | None => None
    end
  end.



(** ** Session buffer list ([rknpu_mem_simple.c], [rknpu_drv.c]) *)

Definition PAGE_SIZE : Z := 4096.
Definition PAGE_ALIGN (x : Z) : Z := Z.land (x + (PAGE_SIZE - 1)) (Z.lnot (PAGE_SIZE - 1)).

(** [struct rknpu_mem_object]; [obj_addr] is the address of the object
    itself, which the driver hands to user space as its identity. *)
Record rknpu_mem_object := mk_mem_object {
  obj_addr : Z;
  obj_size : Z;
  kv_addr : Z;
  dma_addr : Z;
  owner : Z
}.

#[global] Instance rknpu_mem_object_eq_dec : EqDecision rknpu_mem_object.
Proof. solve_decision. Defined.

Record rknpu_mem_create := mk_mem_create {
  create_handle : Z;
  create_size : Z
}.

Record rknpu_mem_map := mk_mem_map {
  handle : Z;
  reserved : Z;
  offset : Z
}.

(** What the allocator and the DMA layer answer during one
    [rknpu_mem_create_ioctl]: the address of the new object ([0]: [kzalloc]
    failed), the error of the first failing import step ([0]: none), the
    device address, the kernel mapping ([0]: [dma_alloc_coherent] failed) and
    whether [copy_to_user] succeeds. *)
Record create_env := mk_create_env {
  ce_obj : Z;
  ce_import_err : Z;
  ce_dma_addr : Z;
  ce_kv_addr : Z;
  ce_copy_out : bool
}.

(** The object [rknpu_mem_create_ioctl] builds before it publishes it: path A
    imports the DMA-BUF named by a non-zero handle, path B allocates coherent
    memory. *)
Definition mem_create_object (args : rknpu_mem_create) (env : create_env)
  : Z + rknpu_mem_object :=
  if ce_obj env =? 0 then inl (- ENOMEM)
  else if 0 <? create_handle args then
    if ce_import_err env =? 0 then
      inr (mk_mem_object (ce_obj env) (PAGE_ALIGN (create_size args))
             (ce_kv_addr env) (ce_dma_addr env) 0)
    else inl (ce_import_err env)
  else
    if ce_kv_addr env =? 0 then inl (- ENOMEM)
    else
      inr (mk_mem_object (ce_obj env) (PAGE_ALIGN (create_size args))
             (ce_kv_addr env) (ce_dma_addr env) 1).

(** [session] is [file->private_data]: [None] when it is NULL, otherwise the
    list headed by [session->list], oldest entry first. [user_args] is [None]
    when [copy_from_user] faults. *)
Definition rknpu_mem_create_ioctl (session : option (list rknpu_mem_object))
    (user_args : option rknpu_mem_create) (env : create_env)
  : Z * option (list rknpu_mem_object) :=
  match user_args with
  | None => (- EFAULT, session)
  | Some args =>
    match mem_create_object args env with
    | inl err => (err, session)
    | inr obj =>
      if ce_copy_out env then
        match session with
        | None => (- EFAULT, session)
        | Some l => (0, Some (l ++ [obj]))       (* list_add_tail *)
        end
      else (- EFAULT, session)
    end
  end.

(** [list_for_each_entry_safe] with [list_del] on the first entry whose
    address is [ptr]. *)
Fixpoint session_remove (ptr : Z) (l : list rknpu_mem_object)
  : list rknpu_mem_object :=
  match l with
  | [] => []
  | entry :: rest =>
    if obj_addr entry =? ptr then rest else entry :: session_remove ptr rest
  end.

Definition rknpu_mem_destroy_ioctl (session : option (list rknpu_mem_object))
    (user_obj_addr : option Z) : Z * option (list rknpu_mem_object) :=
  match user_obj_addr with
  | None => (- EFAULT, session)
  | Some ptr =>
    if ptr =? 0 then (- EINVAL, session)
    else
      match session with
      | None => (- EFAULT, session)
      | Some l => (0, Some (session_remove ptr l))
      end
  end.

(** [rknpu_mem_map_ioctl]: the result code and the block copied back to the
    caller. *)
Definition rknpu_mem_map_ioctl (session : option (list rknpu_mem_object))
    (user_args : option rknpu_mem_map) (copy_out : bool)
  : Z * option rknpu_mem_map :=
  match user_args with
  | None => (- EFAULT, None)
  | Some args =>
    match session with
    | None => (- EFAULT, None)
    | Some l =>
      match last l with                           (* list_last_entry *)
      | Some entry =>
        let args' := mk_mem_map (handle args) (reserved args) (u64 (dma_addr entry)) in
        if copy_out then (0, Some args') else (- EFAULT, None)
      | None => (- EINVAL, None)
      end
    end
  end.

(** A client's buffer requests on one open session. *)
Inductive mem_op :=
| MemCreate (args : rknpu_mem_create) (env : create_env)
| MemDestroy (ptr : Z).

Definition mem_step (l : list rknpu_mem_object) (op : mem_op)
  : list rknpu_mem_object :=
  match op with
  | MemCreate args env =>
    default l (snd (rknpu_mem_create_ioctl (Some l) (Some args) env))
  | MemDestroy ptr =>
    default l (snd (rknpu_mem_destroy_ioctl (Some l) (Some ptr)))
  end.

Definition mem_run (ops : list mem_op) : list rknpu_mem_object :=
  foldl mem_step [] ops.

(** The objects a request sequence has published, in creation order. *)
Fixpoint mem_created (ops : list mem_op) : list rknpu_mem_object :=
  match ops with
  | [] => []
  | MemCreate args env :: ops' =>
    match mem_create_object args env with
    | inr obj => if ce_copy_out env then obj :: mem_created ops' else mem_created ops'
    | inl _ => mem_created ops'
    end
  | MemDestroy _ :: ops' => mem_created ops'
  end.

(** ** Job engine: constants *)

(** Register offsets and job modes of [rknpu_ioctl.h]. *)
Definition RKNPU_OFFSET_PC_OP_EN : Z := 0x8.
Definition RKNPU_OFFSET_PC_DATA_ADDR : Z := 0x10.
Definition RKNPU_OFFSET_PC_DATA_AMOUNT : Z := 0x14.
Definition RKNPU_OFFSET_PC_TASK_CONTROL : Z := 0x30.
Definition RKNPU_OFFSET_PC_DMA_BASE_ADDR : Z := 0x34.
Definition RKNPU_OFFSET_INT_MASK : Z := 0x20.
Definition RKNPU_OFFSET_INT_CLEAR : Z := 0x24.
Definition RKNPU_INT_CLEAR : Z := 0x1ffff.
Definition RKNPU_PC_DATA_EXTRA_AMOUNT : Z := 4.

Definition RKNPU_JOB_PC : Z := 1.
Definition RKNPU_JOB_NONBLOCK : Z := 2.
Definition RKNPU_JOB_PINGPONG : Z := 4.

(** Modelled from the spec: [rknpu_job.h] (core masks, job flags, the number
    of cores and [struct rknpu_job]) is not among the sources. The device has
    at most three cores; a core mask has one bit per core, which is what the
    shifts in [rknpu_job_alloc] count; "automatic" is the empty mask; the
    completion flag and the asynchronous flag are two distinct bits. *)
Definition RKNPU_MAX_CORES : nat := 3.
Definition RKNPU_CORE0_MASK : Z := 0x1.
Definition RKNPU_CORE1_MASK : Z := 0x2.
Definition RKNPU_CORE2_MASK : Z := 0x4.
Definition RKNPU_CORE_AUTO_MASK : Z := 0x0.
Definition RKNPU_JOB_DONE : Z := 0x1.
Definition RKNPU_JOB_ASYNC : Z := 0x2.

(** ** Job engine: data *)

(** [struct rknpu_task]. *)
Record rknpu_task := mk_task {
  task_flags : Z;
  op_idx : Z;
  enable_mask : Z;
  int_mask : Z;
  int_clear : Z;
  int_status : Z;
  regcfg_amount : Z;
  regcfg_offset : Z;
  regcmd_addr : Z
}.

Definition zero_task : rknpu_task := mk_task 0 0 0 0 0 0 0 0 0.
#[global] Instance rknpu_task_inhabited : Inhabited rknpu_task := populate zero_task.

(** [struct rknpu_subcore_task]. *)
Record rknpu_subcore_task := mk_subcore_task {
  sub_task_start : Z;
  sub_task_number : Z
}.

#[global] Instance rknpu_subcore_task_inhabited : Inhabited rknpu_subcore_task :=
  populate (mk_subcore_task 0 0).

(** [struct rknpu_submit]. *)
Record rknpu_submit_args := mk_submit {
  flags : Z;
  timeout : Z;
  task_start : Z;
  task_number : Z;
  task_counter : Z;
  priority : Z;
  task_obj_addr : Z;
  task_base_addr : Z;
  hw_elapse_time : Z;
  core_mask : Z;
  subcore_task : list rknpu_subcore_task
}.

Definition set_core_mask (m : Z) (a : rknpu_submit_args) : rknpu_submit_args :=
  mk_submit (flags a) (timeout a) (task_start a) (task_number a)
    (task_counter a) (priority a) (task_obj_addr a) (task_base_addr a)
    (hw_elapse_time a) m (subcore_task a).

Definition set_task_counter (n : Z) (a : rknpu_submit_args) : rknpu_submit_args :=
  mk_submit (flags a) (timeout a) (task_start a) (task_number a)
    n (priority a) (task_obj_addr a) (task_base_addr a)
    (hw_elapse_time a) (core_mask a) (subcore_task a).

(** [struct rknpu_config]. *)
Record rknpu_config := mk_config {
  pc_data_amount_scale : Z;
  pc_task_number_bits : Z;
  pc_task_number_mask : Z;
  pc_task_status_offset : Z;
  num_irqs : nat;
  max_submit_number : Z;
  cfg_core_mask : Z
}.

Definition rk3588_rknpu_config : rknpu_config :=
  mk_config 2 12 0xfff 0x3c 3 (2 ^ 12 - 1) 0x7.

Abbreviation job_id := nat (only parsing).

(** [struct rknpu_job]. A task pointer is the index of the task in the task
    array of the job's buffer. *)
Record rknpu_job := mk_job {
  job_args : rknpu_submit_args;
  args_owner : bool;
  use_core_num : Z;
  run_count : Z;
  interrupt_count : Z;
  submit_count : list Z;
  job_flags : Z;
  job_ret : Z;
  first_task : option Z;
  last_task : option Z;
  job_int_mask : list Z;
  job_int_status : list Z;
  irq_entry : list bool
}.

Definition set_job_args (a : rknpu_submit_args) (b : rknpu_job) : rknpu_job :=
  mk_job a (args_owner b) (use_core_num b) (run_count b) (interrupt_count b)
    (submit_count b) (job_flags b) (job_ret b) (first_task b) (last_task b)
    (job_int_mask b) (job_int_status b) (irq_entry b).

Definition set_counts (n : Z) (b : rknpu_job) : rknpu_job :=
  mk_job (job_args b) (args_owner b) n n n
    (submit_count b) (job_flags b) (job_ret b) (first_task b) (last_task b)
    (job_int_mask b) (job_int_status b) (irq_entry b).

Definition set_run_count (n : Z) (b : rknpu_job) : rknpu_job :=
  mk_job (job_args b) (args_owner b) (use_core_num b) n (interrupt_count b)
    (submit_count b) (job_flags b) (job_ret b) (first_task b) (last_task b)
    (job_int_mask b) (job_int_status b) (irq_entry b).

Definition set_interrupt_count (n : Z) (b : rknpu_job) : rknpu_job :=
  mk_job (job_args b) (args_owner b) (use_core_num b) (run_count b) n
    (submit_count b) (job_flags b) (job_ret b) (first_task b) (last_task b)
    (job_int_mask b) (job_int_status b) (irq_entry b).

Definition set_submit_count (l : list Z) (b : rknpu_job) : rknpu_job :=
  mk_job (job_args b) (args_owner b) (use_core_num b) (run_count b)
    (interrupt_count b) l (job_flags b) (job_ret b) (first_task b)
    (last_task b) (job_int_mask b) (job_int_status b) (irq_entry b).

Definition set_job_flags (f : Z) (b : rknpu_job) : rknpu_job :=
  mk_job (job_args b) (args_owner b) (use_core_num b) (run_count b)
    (interrupt_count b) (submit_count b) f (job_ret b) (first_task b)
    (last_task b) (job_int_mask b) (job_int_status b) (irq_entry b).

Definition set_job_ret (r : Z) (b : rknpu_job) : rknpu_job :=
  mk_job (job_args b) (args_owner b) (use_core_num b) (run_count b)
    (interrupt_count b) (submit_count b) (job_flags b) r (first_task b)
    (last_task b) (job_int_mask b) (job_int_status b) (irq_entry b).

(** The three stores at the end of [rknpu_job_subcore_commit_pc]. *)
Definition set_committed (first last : Z) (c : nat) (mask : Z) (b : rknpu_job)
  : rknpu_job :=
  mk_job (job_args b) (args_owner b) (use_core_num b) (run_count b)
    (interrupt_count b) (submit_count b) (job_flags b) (job_ret b)
    (Some first) (Some last) (<[c := mask]> (job_int_mask b))
    (job_int_status b) (irq_entry b).

(** The two stores at the head of [rknpu_irq_handler]. *)
Definition set_irq_seen (c : nat) (status : Z) (b : rknpu_job) : rknpu_job :=
  mk_job (job_args b) (args_owner b) (use_core_num b) (run_count b)
    (interrupt_count b) (submit_count b) (job_flags b) (job_ret b)
    (first_task b) (last_task b) (job_int_mask b)
    (<[c := status]> (job_int_status b)) (<[c := true]> (irq_entry b)).

(** [struct rknpu_subcore_data]: the pending FIFO, the running job and the
    load counter. *)
Record rknpu_subcore_data := mk_subcore {
  todo_list : list job_id;
  job : option job_id;
  task_num : Z
}.

#[global] Instance rknpu_subcore_data_inhabited : Inhabited rknpu_subcore_data :=
  populate (mk_subcore [] None 0).

(** What the driver does, in program order. [EvStart] marks the point where a
    job becomes the running job of a core and its commit time is stamped;
    [EvCommit] marks the start strobe of a batch and names the job and the
    task range it belongs to; [EvWakeUp] names the wait queue (by core) and
    the finished job. *)
Inductive event :=
| EvRegWrite (core : nat) (offset value : Z)
| EvStart (core : nat) (j : job_id)
| EvCommit (j : job_id) (core : nat) (first number : Z)
| EvWakeUp (wq : nat) (j : job_id)
| EvScheduleWork (j : job_id)
| EvSoftReset.

#[global] Instance event_eq_dec : EqDecision event.
Proof. solve_decision. Defined.

(** The scheduler's view of [struct rknpu_device], with the heap of job
    objects and the task arrays of the buffers jobs point to. *)
Record rknpu_device := mk_device {
  config : rknpu_config;
  subcore_datas : list rknpu_subcore_data;
  soft_reseting : bool;
  jobs : gmap job_id rknpu_job;
  job_seq : job_id;
  task_bufs : gmap Z (list rknpu_task);
  trace : list event
}.

Definition dev_init (cfg : rknpu_config) (bufs : gmap Z (list rknpu_task))
  : rknpu_device :=
  mk_device cfg (replicate RKNPU_MAX_CORES (mk_subcore [] None 0)) false ∅ 0%nat
    bufs [].

Definition set_subcore_datas (l : list rknpu_subcore_data) (d : rknpu_device)
  : rknpu_device :=
  mk_device (config d) l (soft_reseting d) (jobs d) (job_seq d) (task_bufs d)
    (trace d).

Definition set_jobs (m : gmap job_id rknpu_job) (d : rknpu_device)
  : rknpu_device :=
  mk_device (config d) (subcore_datas d) (soft_reseting d) m (job_seq d)
    (task_bufs d) (trace d).

Definition set_task_bufs (m : gmap Z (list rknpu_task)) (d : rknpu_device)
  : rknpu_device :=
  mk_device (config d) (subcore_datas d) (soft_reseting d) (jobs d) (job_seq d)
    m (trace d).

Definition emit (e : event) (d : rknpu_device) : rknpu_device :=
  mk_device (config d) (subcore_datas d) (soft_reseting d) (jobs d) (job_seq d)
    (task_bufs d) (trace d ++ [e]).

Definition subcore (d : rknpu_device) (c : nat) : rknpu_subcore_data :=
  subcore_datas d !!! c.

Definition update_subcore (c : nat)
    (f : rknpu_subcore_data -> rknpu_subcore_data) (d : rknpu_device)
  : rknpu_device :=
  set_subcore_datas (alter f c (subcore_datas d)) d.

Definition update_job (j : job_id) (f : rknpu_job -> rknpu_job)
    (d : rknpu_device) : rknpu_device :=
  set_jobs (alter f j (jobs d)) d.

(** [writel(value, base[core] + offset)]. *)
Definition REG_WRITE (core : nat) (value offset : Z) (d : rknpu_device)
  : rknpu_device :=
  emit (EvRegWrite core offset (u32 value)) d.

(** [&task_base[idx]] read through the kernel mapping of the buffer at
    [obj]. *)
Definition task_at (d : rknpu_device) (obj idx : Z) : rknpu_task :=
  if idx <? 0 then zero_task
  else (task_bufs d !!! obj) !!! Z.to_nat idx.

(** ** Job engine: operations ([rknpu_job.c]) *)

Definition rknpu_wait_core_index (mask : Z) : nat :=
  if mask =? RKNPU_CORE0_MASK then 0%nat
  else if mask =? Z.lor RKNPU_CORE0_MASK RKNPU_CORE1_MASK then 0%nat
  else if mask =? Z.lor (Z.lor RKNPU_CORE0_MASK RKNPU_CORE1_MASK) RKNPU_CORE2_MASK
    then 0%nat
  else if mask =? RKNPU_CORE1_MASK then 1%nat
  else if mask =? RKNPU_CORE2_MASK then 2%nat
  else 0%nat.

Definition rknpu_core_mask (core_index : nat) : Z :=
  match core_index with
  | 0%nat => RKNPU_CORE0_MASK
  | 1%nat => RKNPU_CORE1_MASK
  | 2%nat => RKNPU_CORE2_MASK
  | _ => RKNPU_CORE_AUTO_MASK
  end.

(** The entry of [args->subcore_task] a core's range is read from, as chosen
    by [job->use_core_num]; [None] when the top-level range is used. *)
Definition subcore_slot (cfg : rknpu_config) (b : rknpu_job) (core_index : nat)
  : option nat :=
  if (1 <? num_irqs cfg)%nat then
    if (use_core_num b =? 1) || (use_core_num b =? 2) then Some core_index
    else if use_core_num b =? 3 then Some (core_index + 2)%nat
    else None
  else None.

(** The core index is a loop index or a literal at every call site, so the
    test for a negative index has no counterpart here. *)
Definition rknpu_get_task_number (cfg : rknpu_config) (b : rknpu_job)
    (core_index : nat) : Z :=
  if (RKNPU_MAX_CORES <=? core_index)%nat then 0
  else
    match subcore_slot cfg b core_index with
    | Some i => s32 (sub_task_number (subcore_task (job_args b) !!! i))
    | None => s32 (task_number (job_args b))
    end.

(** [rknpu_job_alloc]; [job_mem] and [args_mem] tell whether the two
    [kzalloc] calls succeed. The new job gets the next free address. *)
Definition rknpu_job_alloc (d : rknpu_device) (args : rknpu_submit_args)
    (job_mem args_mem : bool) : option job_id * rknpu_device :=
  if negb job_mem then (None, d)
  else
    let n := Z.land (core_mask args) RKNPU_CORE0_MASK
             + Z.shiftr (Z.land (core_mask args) RKNPU_CORE1_MASK) 1
             + Z.shiftr (Z.land (core_mask args) RKNPU_CORE2_MASK) 2 in
    let b := mk_job args false (s32 n) (s32 n) (s32 n)
               (replicate RKNPU_MAX_CORES 0) 0 0 None None
               (replicate RKNPU_MAX_CORES 0) (replicate RKNPU_MAX_CORES 0)
               (replicate RKNPU_MAX_CORES false) in
    let publish b :=
      (Some (job_seq d),
       mk_device (config d) (subcore_datas d) (soft_reseting d)
         (<[job_seq d := b]> (jobs d)) (S (job_seq d)) (task_bufs d) (trace d)) in
    if Z.land (flags args) RKNPU_JOB_NONBLOCK =? 0 then publish b
    else if negb args_mem then (None, d)
    else
      publish (mk_job args true (s32 n) (s32 n) (s32 n)
                 (replicate RKNPU_MAX_CORES 0) 0 0 None None
                 (replicate RKNPU_MAX_CORES 0) (replicate RKNPU_MAX_CORES 0)
                 (replicate RKNPU_MAX_CORES false)).

(** The task range a core is assigned: the entry of [subcore_task] picked by
    the [switch] on [use_core_num], or the top-level range; both ends are
    copied into [int] locals. *)
Definition core_task_range (cfg : rknpu_config) (b : rknpu_job)
    (core_index : nat) : Z * Z :=
  let args := job_args b in
  match subcore_slot cfg b core_index with
  | Some i =>
    (s32 (sub_task_start (subcore_task args !!! i)),
     s32 (sub_task_number (subcore_task args !!! i)))
  | None => (s32 (task_start args), s32 (task_number args))
  end.

(** [config->max_submit_number] as [rknpu_job_subcore_commit_pc] and
    [rknpu_job_done] hold it, in an [int] local. *)
Definition batch_limit (cfg : rknpu_config) : Z := s32 (max_submit_number cfg).

(** The task range [rknpu_job_subcore_commit_pc] hands to the hardware in
    the round numbered [submit_index]: start index and length, computed in
    [int]. *)
Definition commit_range (cfg : rknpu_config) (b : rknpu_job) (core_index : nat)
    (submit_index : Z) : Z * Z :=
  let m := batch_limit cfg in
  let '(start0, number0) := core_task_range cfg b core_index in
  let start := s32 (start0 + s32 (submit_index * m)) in
  let number := s32 (number0 - s32 (submit_index * m)) in
  let number := if m <? number then m else number in
  (start, number).

Definition rknpu_job_subcore_commit_pc (d : rknpu_device) (j : job_id)
    (core_index : nat) : rknpu_device :=
  match jobs d !! j with
  | None => d
  | Some b =>
    let cfg := config d in
    let args := job_args b in
    if task_obj_addr args =? 0 then update_job j (set_job_ret (- EINVAL)) d
    else
      let d :=
        if (1 <? num_irqs cfg)%nat && (core_index <? num_irqs cfg)%nat then
          let v := 0xe + 0x10000000 * Z.of_nat core_index in
          REG_WRITE core_index v 0x3004 (REG_WRITE core_index v 0x1004 d)
        else d in
      let task_pp_en :=
        if Z.land (flags args) RKNPU_JOB_PINGPONG =? 0 then 0 else 1 in
      let '(task_start, task_number) :=
        commit_range cfg b core_index (submit_count b !!! core_index) in
      let task_end := s32 (task_start + task_number - 1) in
      let first := task_at d (task_obj_addr args) task_start in
      let last := task_at d (task_obj_addr args) task_end in
      let scale := s32 (pc_data_amount_scale cfg) in
      let data_amount :=
        u32 (u32 (regcfg_amount first + RKNPU_PC_DATA_EXTRA_AMOUNT + scale - 1)
             / u32 scale - 1) in
      let task_ctrl :=
        Z.lor (Z.shiftl (Z.lor 0x6 task_pp_en) (s32 (pc_task_number_bits cfg)))
          task_number in
      let d := REG_WRITE core_index (regcmd_addr first) RKNPU_OFFSET_PC_DATA_ADDR d in
      let d := REG_WRITE core_index data_amount RKNPU_OFFSET_PC_DATA_AMOUNT d in
      let d := REG_WRITE core_index (int_mask last) RKNPU_OFFSET_INT_MASK d in
      let d := REG_WRITE core_index (int_mask first) RKNPU_OFFSET_INT_CLEAR d in
      let d := REG_WRITE core_index task_ctrl RKNPU_OFFSET_PC_TASK_CONTROL d in
      let d := REG_WRITE core_index (task_base_addr args) RKNPU_OFFSET_PC_DMA_BASE_ADDR d in
      let d := update_job j (set_committed task_start task_end core_index (int_mask last)) d in
      let d := REG_WRITE core_index RKNPU_INT_CLEAR RKNPU_OFFSET_INT_CLEAR d in
      let d := REG_WRITE core_index 0x1 RKNPU_OFFSET_PC_OP_EN d in
      let d := emit (EvCommit j core_index task_start task_number) d in
      REG_WRITE core_index 0x0 RKNPU_OFFSET_PC_OP_EN d
  end.

Definition rknpu_job_subcore_commit (d : rknpu_device) (j : job_id)
    (core_index : nat) : rknpu_device :=
  match jobs d !! j with
  | None => d
  | Some b =>
    let d := REG_WRITE core_index 0x1 RKNPU_OFFSET_PC_DATA_ADDR d in
    if Z.land (flags (job_args b)) RKNPU_JOB_PC =? 0
    then update_job j (set_job_ret (- EINVAL)) d
    else rknpu_job_subcore_commit_pc d j core_index
  end.

Definition rknpu_job_commit (d : rknpu_device) (j : job_id) : rknpu_device :=
  match jobs d !! j with
  | None => d
  | Some b =>
    let mask := core_mask (job_args b) in
    if mask =? RKNPU_CORE0_MASK then rknpu_job_subcore_commit d j 0
    else if mask =? RKNPU_CORE1_MASK then rknpu_job_subcore_commit d j 1
    else if mask =? RKNPU_CORE2_MASK then rknpu_job_subcore_commit d j 2
    else if mask =? Z.lor RKNPU_CORE0_MASK RKNPU_CORE1_MASK then
      rknpu_job_subcore_commit (rknpu_job_subcore_commit d j 0) j 1
    else if mask =? Z.lor (Z.lor RKNPU_CORE0_MASK RKNPU_CORE1_MASK) RKNPU_CORE2_MASK
    then
      rknpu_job_subcore_commit
        (rknpu_job_subcore_commit (rknpu_job_subcore_commit d j 0) j 1) j 2
    else d
  end.

(** [rknpu_job_next]: start the head of the core's FIFO when the core is
    idle. *)
Definition rknpu_job_next (d : rknpu_device) (core_index : nat) : rknpu_device :=
  if soft_reseting d then d
  else
    match job (subcore d core_index), todo_list (subcore d core_index) with
    | Some _, _ => d
    | None, [] => d
    | None, j :: rest =>
      let d :=
        update_subcore core_index
          (fun s => mk_subcore rest (Some j) (task_num s)) d in
      let d := emit (EvStart core_index j) d in
      match jobs d !! j with
      | None => d
      | Some b =>
        let rc := atomic_dec (run_count b) in
        let d := update_job j (set_run_count rc) d in
        if rc =? 0 then rknpu_job_commit d j else d
      end
    end.

(** The number of commit rounds [rknpu_job_done] expects on a core; the
    division is the one of C on [int], which truncates. *)
Definition commit_rounds (cfg : rknpu_config) (b : rknpu_job) (core_index : nat)
  : Z :=
  let m := batch_limit cfg in
  s32 (Z.quot (s32 (s32 (rknpu_get_task_number cfg b core_index + m) - 1)) m).

Definition rknpu_job_done (d : rknpu_device) (j : job_id) (ret : Z)
    (core_index : nat) : rknpu_device :=
  match jobs d !! j with
  | None => d
  | Some b =>
    let cfg := config d in
    let sc := atomic_inc (submit_count b !!! core_index) in
    let d := update_job j (set_submit_count (<[core_index := sc]> (submit_count b))) d in
    if sc <? commit_rounds cfg b core_index
    then rknpu_job_subcore_commit d j core_index
    else
      let d :=
        update_subcore core_index
          (fun s =>
             mk_subcore (todo_list s) None
               (s64 (task_num s - rknpu_get_task_number cfg b core_index))) d in
      let ic := atomic_dec (interrupt_count b) in
      let d := update_job j (set_interrupt_count ic) d in
      let d :=
        if ic =? 0 then
          let f := Z.lor (job_flags b) RKNPU_JOB_DONE in
          let d := update_job j (fun b => set_job_ret ret (set_job_flags f b)) d in
          let d :=
            if Z.land f RKNPU_JOB_ASYNC =? 0 then d
            else emit (EvScheduleWork j) d in
          if 1 <? use_core_num b then emit (EvWakeUp 0 j) d
          else emit (EvWakeUp core_index j) d
        else d in
      rknpu_job_next d core_index
  end.

(** One iteration of the selection loop: the best core so far and the load
    copied from it into the [int] local. *)
Definition core_index_step (d : rknpu_device) (best : nat * Z) (i : nat)
  : nat * Z :=
  if task_num (subcore d i) <? snd best
  then (i, s32 (task_num (subcore d i)))
  else best.

Definition rknpu_schedule_core_index (d : rknpu_device) : nat :=
  fst
    (foldl (core_index_step d) (0%nat, s32 (task_num (subcore d 0)))
       (seq 1 (num_irqs (config d) - 1))).

(** The cores a job is queued on: the loop over [num_irqs] with the test
    [core_mask & rknpu_core_mask(i)]. *)
Definition on_core (mask : Z) (i : nat) : bool :=
  negb (Z.land mask (rknpu_core_mask i) =? 0).

(** The three phases of [rknpu_job_schedule]: resolving an automatic mask,
    queueing the job on its cores under the lock, and kicking each of these
    cores. *)
Definition schedule_resolve (d : rknpu_device) (j : job_id) : rknpu_device :=
  match jobs d !! j with
  | None => d
  | Some b =>
    if core_mask (job_args b) =? RKNPU_CORE_AUTO_MASK then
      let core_index := rknpu_schedule_core_index d in
      update_job j
        (fun b =>
           set_counts 1
             (set_job_args (set_core_mask (rknpu_core_mask core_index) (job_args b)) b))
        d
    else d
  end.

Definition schedule_enqueue (j : job_id) (b : rknpu_job) (d : rknpu_device)
    (i : nat) : rknpu_device :=
  if on_core (core_mask (job_args b)) i then
    update_subcore i
      (fun s =>
         mk_subcore (todo_list s ++ [j]) (job s)
           (s64 (task_num s + rknpu_get_task_number (config d) b i))) d
  else d.

Definition schedule_kick (mask : Z) (d : rknpu_device) (i : nat) : rknpu_device :=
  if on_core mask i then rknpu_job_next d i else d.

Definition rknpu_job_schedule (d : rknpu_device) (j : job_id) : rknpu_device :=
  let d := schedule_resolve d j in
  match jobs d !! j with
  | None => d
  | Some b =>
    let n := num_irqs (config d) in
    let d := foldl (schedule_enqueue j b) d (seq 0 n) in
    foldl (schedule_kick (core_mask (job_args b))) d (seq 0 n)
  end.

Definition rknpu_fuzz_status (status : Z) : Z :=
  let step m acc := if Z.land status m =? 0 then acc else Z.lor acc m in
  step 0xc00 (step 0x300 (step 0xc0 (step 0x30 (step 0xc (step 0x3 0))))).

(** [rknpu_irq_handler]; [status] is the value read from the interrupt status
    register. The raw status and the task counter are read for the log only. *)
Definition rknpu_irq_handler (d : rknpu_device) (core_index : nat) (status : Z)
  : rknpu_device :=
  match job (subcore d core_index) with
  | None =>
    rknpu_job_next
      (REG_WRITE core_index RKNPU_INT_CLEAR RKNPU_OFFSET_INT_CLEAR d) core_index
  | Some j =>
    let d := update_job j (set_irq_seen core_index status) d in
    match jobs d !! j with
    | None => d
    | Some b =>
      if rknpu_fuzz_status status =? job_int_mask b !!! core_index then
        rknpu_job_done
          (REG_WRITE core_index RKNPU_INT_CLEAR RKNPU_OFFSET_INT_CLEAR d)
          j 0 core_index
      else REG_WRITE core_index RKNPU_INT_CLEAR RKNPU_OFFSET_INT_CLEAR d
    end
  end.

(** [list_del(&job->head[i])] on the entry that is [j], if any. *)
Fixpoint todo_remove (j : job_id) (l : list job_id) : list job_id :=
  match l with
  | [] => []
  | x :: rest => if (x =? j)%nat then rest else x :: todo_remove j rest
  end.

(** [last_task->int_status = v], a store into the task array. *)
Definition store_int_status (obj idx v : Z) (d : rknpu_device) : rknpu_device :=
  if idx <? 0 then d
  else
    set_task_bufs
      (alter
         (alter
            (fun t =>
               mk_task (task_flags t) (op_idx t) (enable_mask t) (int_mask t)
                 (int_clear t) v (regcfg_amount t) (regcfg_offset t)
                 (regcmd_addr t))
            (Z.to_nat idx))
         obj (task_bufs d)) d.

(** The part of [rknpu_job_wait] after the wait loop. [ret] is what the loop
    leaves in [ret]: the last result of [wait_event_timeout]. [task_status] is
    the value read from the task status register on the timeout path. *)
Definition job_wait_result (d : rknpu_device) (j : job_id)
    (ret task_status : Z) : Z * rknpu_device :=
  match jobs d !! j with
  | None => (- EINVAL, d)
  | Some b =>
    let args := job_args b in
    let core_index := rknpu_wait_core_index (core_mask args) in
    match last_task b with
    | None =>
      let d :=
        foldl
          (fun d i =>
             update_subcore i
               (fun s => mk_subcore (todo_remove j (todo_list s)) (job s) (task_num s))
               d)
          d (seq 0 (Z.to_nat (use_core_num b))) in
      (if ret <? 0 then ret else - EINVAL, d)
    | Some lt =>
      let d :=
        store_int_status (task_obj_addr args) lt
          (job_int_status b !!! core_index) d in
      if ret <=? 0 then
        let counter :=
          if Z.land (flags args) RKNPU_JOB_PC =? 0 then 0
          else Z.land task_status (pc_task_number_mask (config d)) in
        (if ret <? 0 then ret else - ETIMEDOUT,
         update_job j (fun b => set_job_args (set_task_counter counter (job_args b)) b) d)
      else if Z.land (job_flags b) RKNPU_JOB_DONE =? 0 then (- EINVAL, d)
      else
        (0,
         update_job j
           (fun b => set_job_args (set_task_counter (task_number (job_args b)) (job_args b)) b)
           d)
    end
  end.

Definition job_is_done (d : rknpu_device) (j : job_id) : bool :=
  match jobs d !! j with
  | Some b => negb (Z.land (job_flags b) RKNPU_JOB_DONE =? 0)
  | None => false
  end.

Definition serve_irqs (d : rknpu_device) (irqs : list (nat * Z)) : rknpu_device :=
  foldl (fun d '(c, status) => rknpu_irq_handler d c status) d irqs.

(** [rknpu_job_wait]. The caller sleeps in [wait_event_timeout] while the
    interrupts [irqs] are served; the call returns a positive number of
    remaining jiffies when the job is done or a soft reset is in progress and
    [0] otherwise. The retries of the wait loop only prolong the sleep. *)
Definition rknpu_job_wait (d : rknpu_device) (j : job_id)
    (irqs : list (nat * Z)) (remaining task_status : Z) : Z * rknpu_device :=
  let d := serve_irqs d irqs in
  let ret :=
    if job_is_done d j || soft_reseting d then Z.max 1 remaining else 0 in
  job_wait_result d j ret task_status.

Definition rknpu_job_cleanup (d : rknpu_device) (j : job_id) : rknpu_device :=
  set_jobs (delete j (jobs d)) d.

(** Modelled from the spec: [rknpu_soft_reset] ([rknpu_reset.c]) is not among
    the sources; the abort path "performs a full hardware soft reset before
    freeing the Job", recorded here as [EvSoftReset]. *)
Definition rknpu_soft_reset (d : rknpu_device) : rknpu_device :=
  emit EvSoftReset d.

Definition rknpu_job_abort (d : rknpu_device) (j : job_id) : rknpu_device :=
  match jobs d !! j with
  | None => d
  | Some b =>
    let cfg := config d in
    let mask := core_mask (job_args b) in
    let d :=
      foldl
        (fun d i =>
           if on_core mask i
              && bool_decide (job (subcore d i) = Some j)
              && negb (irq_entry b !!! i)
           then
             update_subcore i
               (fun s =>
                  mk_subcore (todo_list s) None
                    (s64 (task_num s - rknpu_get_task_number cfg b i))) d
           else d)
        d (seq 0 (num_irqs cfg)) in
    let d := if job_ret b =? - ETIMEDOUT then rknpu_soft_reset d else d in
    rknpu_job_cleanup d j
  end.

(** What happens around one [rknpu_submit]: whether the two allocations
    succeed, which interrupts are served while a blocking caller sleeps, and
    the values the wait reads back. *)
Record submit_env := mk_submit_env {
  se_job_mem : bool;
  se_args_mem : bool;
  se_irqs : list (nat * Z);
  se_remaining : Z;
  se_task_status : Z
}.

Definition job_ret_of (d : rknpu_device) (j : job_id) : Z :=
  match jobs d !! j with Some b => job_ret b | None => 0 end.

(** [rknpu_submit]: result code, the caller's argument block afterwards and
    the device. A blocking job works on the caller's block itself. *)
Definition rknpu_submit (d : rknpu_device) (args : rknpu_submit_args)
    (env : submit_env) : Z * rknpu_submit_args * rknpu_device :=
  if task_number args =? 0 then (- EINVAL, args, d)
  else if cfg_core_mask (config d) <? core_mask args then (- EINVAL, args, d)
  else
    match rknpu_job_alloc d args (se_job_mem env) (se_args_mem env) with
    | (None, d) => (- ENOMEM, args, d)
    | (Some j, d) =>
      if Z.land (flags args) RKNPU_JOB_NONBLOCK =? 0 then
        let d := rknpu_job_schedule d j in
        let d :=
          if Z.land (flags args) RKNPU_JOB_PC =? 0 then d
          else
            let '(r, d) :=
              rknpu_job_wait d j (se_irqs env) (se_remaining env)
                (se_task_status env) in
            update_job j (set_job_ret r) d in
        let args' :=
          match jobs d !! j with Some b => job_args b | None => args end in
        let ret := job_ret_of d j in
        if ret =? 0 then (ret, args', rknpu_job_cleanup d j)
        else (ret, args', rknpu_job_abort d j)
      else
        let d :=
          update_job j
            (fun b => set_job_flags (Z.lor (job_flags b) RKNPU_JOB_ASYNC) b) d in
        let d := rknpu_job_schedule d j in
        let ret := job_ret_of d j in
        if ret =? 0 then (ret, args, d)
        else (ret, args, rknpu_job_abort d j)
    end.

(** ** Scheduler runs *)

(** The steps that drive the scheduler: a validated submission is allocated
    and queued, or a core raises an interrupt. *)
Inductive sched_step :=
| StepSchedule (args : rknpu_submit_args)
| StepIrq (core_index : nat) (status : Z).

Definition submit_valid (cfg : rknpu_config) (args : rknpu_submit_args) : bool :=
  negb (task_number args =? 0) && negb (cfg_core_mask cfg <? core_mask args).

Definition sched_apply (d : rknpu_device) (s : sched_step) : rknpu_device :=
  match s with
  | StepSchedule args =>
    if submit_valid (config d) args then
      match rknpu_job_alloc d args true true with
      | (Some j, d) =>
        if Z.land (flags args) RKNPU_JOB_NONBLOCK =? 0
        then rknpu_job_schedule d j
        else
          rknpu_job_schedule
            (update_job j
               (fun b => set_job_flags (Z.lor (job_flags b) RKNPU_JOB_ASYNC) b) d) j
      | (None, d) => d
      end
    else d
  | StepIrq c status => rknpu_irq_handler d c status
  end.

Definition sched_run (d : rknpu_device) (steps : list sched_step) : rknpu_device :=
  foldl sched_apply d steps.

(** Reading the trace. *)
Definition commits_of (j : job_id) (core_index : nat) (tr : list event)
  : list (Z * Z) :=
  omap (fun e =>
          match e with
          | EvCommit j' c first number =>
            if bool_decide (j' = j /\ c = core_index) then Some (first, number)
            else None
          | _ => None
          end) tr.

Definition wakes_of (j : job_id) (tr : list event) : list nat :=
  omap (fun e =>
          match e with
          | EvWakeUp wq j' => if bool_decide (j' = j) then Some wq else None
          | _ => None
          end) tr.



(** ** Vocabulary of the scheduler properties *)

(** Events that only talk to the hardware. *)
Definition hw_event (e : event) : Prop :=
  match e with
  | EvRegWrite _ _ _ | EvCommit _ _ _ _ => True
  | _ => False
  end.

(** Events a commit of job [j] on core [c] causes. *)
Definition commit_event (j : job_id) (c : nat) (e : event) : Prop :=
  match e with
  | EvRegWrite c' _ _ => c' = c
  | EvCommit j' c' _ _ => j' = j /\ c' = c
  | _ => False
  end.

(** The job a scheduling event is about. *)
Definition sched_event_job (e : event) : option job_id :=
  match e with
  | EvStart _ j | EvWakeUp _ j => Some j
  | _ => None
  end.

(** What a commit may change in a job: the result code, the task pointers
    and the expected interrupt masks. *)
Record commit_rel (b b' : rknpu_job) : Prop := {
  cr_args : job_args b' = job_args b;
  cr_owner : args_owner b' = args_owner b;
  cr_cores : use_core_num b' = use_core_num b;
  cr_run : run_count b' = run_count b;
  cr_int : interrupt_count b' = interrupt_count b;
  cr_submit : submit_count b' = submit_count b;
  cr_flags : job_flags b' = job_flags b;
  cr_status : job_int_status b' = job_int_status b;
  cr_entry : irq_entry b' = irq_entry b
}.

(** What the scheduling bookkeeping reads of a job. *)
Record view_rel (b b' : rknpu_job) : Prop := {
  vr_args : job_args b' = job_args b;
  vr_cores : use_core_num b' = use_core_num b;
  vr_run : run_count b' = run_count b;
  vr_int : interrupt_count b' = interrupt_count b;
  vr_flags : job_flags b' = job_flags b
}.

(** [d'] differs from [d] by hardware events and by job fields the
    bookkeeping does not read. *)
Record skel_frame (d d' : rknpu_device) : Prop := {
  sf_config : config d' = config d;
  sf_subcores : subcore_datas d' = subcore_datas d;
  sf_reset : soft_reseting d' = soft_reseting d;
  sf_seq : job_seq d' = job_seq d;
  sf_jobs : forall j, option_Forall2 view_rel (jobs d !! j) (jobs d' !! j);
  sf_trace : exists evs, trace d' = trace d ++ evs /\ Forall hw_event evs
}.

(** [d'] differs from [d] by a commit. *)
Record commit_frame (d d' : rknpu_device) : Prop := {
  cf_config : config d' = config d;
  cf_subcores : subcore_datas d' = subcore_datas d;
  cf_reset : soft_reseting d' = soft_reseting d;
  cf_seq : job_seq d' = job_seq d;
  cf_bufs : task_bufs d' = task_bufs d;
  cf_jobs : forall j, option_Forall2 commit_rel (jobs d !! j) (jobs d' !! j);
  cf_trace : exists evs, trace d' = trace d ++ evs /\ Forall hw_event evs
}.

(** The parts of the device that [rknpu_job.c] only reads once a job is
    allocated. *)
Record static_frame (d d' : rknpu_device) : Prop := {
  st_config : config d' = config d;
  st_reset : soft_reseting d' = soft_reseting d;
  st_seq : job_seq d' = job_seq d
}.

(** Where a job stands on a core: waiting in the FIFO, being the running
    job, having been started there. *)
Definition queued (d : rknpu_device) (j : job_id) (c : nat) : bool :=
  bool_decide (j ∈ todo_list (subcore d c)).

Definition running (d : rknpu_device) (j : job_id) (c : nat) : bool :=
  bool_decide (job (subcore d c) = Some j).

Definition started (d : rknpu_device) (j : job_id) (c : nat) : bool :=
  bool_decide (EvStart c j ∈ trace d).

(** The number of cores, out of [RKNPU_MAX_CORES], on which [f] holds. *)
Definition over_cores (f : nat -> bool) : Z :=
  Z.b2z (f 0%nat) + Z.b2z (f 1%nat) + Z.b2z (f 2%nat).

Definition job_done_flag (b : rknpu_job) : bool :=
  negb (Z.land (job_flags b) RKNPU_JOB_DONE =? 0).

(** The bookkeeping invariant of the scheduler. *)
Record sched_inv (d : rknpu_device) : Prop := {
  inv_cores : length (subcore_datas d) = RKNPU_MAX_CORES;
  inv_irqs : num_irqs (config d) = RKNPU_MAX_CORES;
  inv_nodup : forall c, NoDup (todo_list (subcore d c));
  inv_todo_job : forall c j, j ∈ todo_list (subcore d c) -> is_Some (jobs d !! j);
  inv_job_seq : forall j, is_Some (jobs d !! j) -> (j < job_seq d)%nat;
  inv_run_seq : forall c j, job (subcore d c) = Some j -> (j < job_seq d)%nat;
  inv_ev_seq : forall e j,
    e ∈ trace d -> sched_event_job e = Some j -> (j < job_seq d)%nat;
  inv_excl : forall c j,
    job (subcore d c) = Some j -> j ∉ todo_list (subcore d c);
  inv_run_count : forall j b,
    jobs d !! j = Some b -> run_count b = over_cores (queued d j);
  inv_int_count : forall j b,
    jobs d !! j = Some b ->
    interrupt_count b = over_cores (fun c => queued d j c || running d j c);
  inv_part : forall j b c,
    jobs d !! j = Some b -> (c < RKNPU_MAX_CORES)%nat ->
    on_core (core_mask (job_args b)) c = queued d j c || started d j c;
  inv_part_excl : forall j c, queued d j c && started d j c = false;
  inv_done : forall j b,
    jobs d !! j = Some b ->
    job_done_flag b = bool_decide (interrupt_count b = 0);
  inv_wake : forall j b,
    jobs d !! j = Some b ->
    length (wakes_of j (trace d)) = if job_done_flag b then 1%nat else 0%nat
}.

(** Submissions as user space can write them: every field of the argument
    block is an unsigned 32-bit or 64-bit value. *)
Definition args_wf (args : rknpu_submit_args) : Prop :=
  0 <= core_mask args < 2 ^ 32 /\ 0 <= task_number args < 2 ^ 32 /\
  0 <= flags args < 2 ^ 32.

Definition step_wf (s : sched_step) : Prop :=
  match s with
  | StepSchedule args => args_wf args
  | StepIrq _ _ => True
  end.

(** The completion bookkeeping of a job. *)
Record done_rel (b b' : rknpu_job) : Prop := {
  dr_args : job_args b' = job_args b;
  dr_cores : use_core_num b' = use_core_num b;
  dr_int : interrupt_count b' = interrupt_count b;
  dr_submit : submit_count b' = submit_count b;
  dr_flags : job_flags b' = job_flags b
}.

(** ** Commit rounds *)





(** ** Core pairs without a commit case *)



(** ** Jobs that wait for a core *)






(** ** Intermediate states of the scheduler functions *)

(** The selection loop of [rknpu_schedule_core_index] after the cores
    [1 .. k]. *)
Definition core_index_scan (d : rknpu_device) (k : nat) : nat * Z :=
  foldl (core_index_step d) (0%nat, s32 (task_num (subcore d 0))) (seq 1 k).

(** The state [rknpu_job_next] reaches when it has made [j] the running job
    of the core and decremented its run counter, before it tests the
    counter. *)
Definition popped (d : rknpu_device) (c : nat) (j : job_id)
    (rest : list job_id) (b : rknpu_job) : rknpu_device :=
  update_job j (set_run_count (atomic_dec (run_count b)))
    (emit (EvStart c j)
       (update_subcore c (fun s => mk_subcore rest (Some j) (task_num s)) d)).

(** The end of [rknpu_job_done] when the interrupt counter reaches zero. *)
Definition finish_job (j : job_id) (ret : Z) (c : nat) (b : rknpu_job)
    (d : rknpu_device) : rknpu_device :=
  let f := Z.lor (job_flags b) RKNPU_JOB_DONE in
  let d := update_job j (fun b => set_job_ret ret (set_job_flags f b)) d in
  let d :=
    if Z.land f RKNPU_JOB_ASYNC =? 0 then d else emit (EvScheduleWork j) d in
  if 1 <? use_core_num b then emit (EvWakeUp 0 j) d
  else emit (EvWakeUp c j) d.

(** The state [rknpu_job_done] reaches on its final path before it restarts
    the core. *)
Definition completed (d : rknpu_device) (j : job_id) (ret : Z) (c : nat)
    (b : rknpu_job) : rknpu_device :=
  let ic := atomic_dec (interrupt_count b) in
  let d :=
    update_job j (set_interrupt_count ic)
      (update_subcore c
         (fun s =>
            mk_subcore (todo_list s) None
              (s64 (task_num s - rknpu_get_task_number (config d) b c))) d) in
  if ic =? 0 then finish_job j ret c b d else d.

(** The job record and the events of that final path. *)
Definition completed_job (ret : Z) (b : rknpu_job) : rknpu_job :=
  let ic := atomic_dec (interrupt_count b) in
  if ic =? 0 then
    set_job_ret ret
      (set_job_flags (Z.lor (job_flags b) RKNPU_JOB_DONE)
         (set_interrupt_count ic b))
  else set_interrupt_count ic b.

Definition completed_events (c : nat) (j : job_id) (b : rknpu_job)
  : list event :=
  if atomic_dec (interrupt_count b) =? 0 then
    (if Z.land (Z.lor (job_flags b) RKNPU_JOB_DONE) RKNPU_JOB_ASYNC =? 0
     then [] else [EvScheduleWork j])
    ++ [EvWakeUp (if 1 <? use_core_num b then 0%nat else c) j]
  else [].

(** ** Scenarios *)

(** A device with the RK3588 layout whose batch limit is 4. *)
Definition batch4_config : rknpu_config := mk_config 2 12 0xfff 0x3c 3 4 0x7.

(** A task that raises the interrupt bits [mask] when it ends. *)
Definition scenario_task (mask : Z) : rknpu_task :=
  mk_task 0 0 0 mask 0 0 10 0 0x1000.

(** One task buffer of ten tasks at [0x8000]. *)
Definition scenario_bufs : gmap Z (list rknpu_task) :=
  {[ 0x8000 := replicate 10 (scenario_task 0x300) ]}.

(** A blocking PC-mode submission of [number] tasks from that buffer for the
    cores of [mask]; [per_core] is the per-core range table. *)
Definition scenario_args (mask number : Z) (per_core : list (Z * Z))
  : rknpu_submit_args :=
  mk_submit RKNPU_JOB_PC 1000 0 number 0 0 0x8000 0 0 mask
    (map (fun r => mk_subcore_task (fst r) (snd r)) per_core).

(** Ten tasks for core 0. *)
Definition ten_task_args : rknpu_submit_args :=
  scenario_args 0x1 10 [(0, 10); (0, 0); (0, 0); (0, 0); (0, 0)].

(** Two tasks for the cores 0 and 2. *)
Definition cores02_args : rknpu_submit_args :=
  scenario_args 0x5 2 [(0, 1); (0, 0); (1, 1); (0, 0); (0, 0)].


(** The environment of a submission during which the interrupts [irqs] are
    served. *)
Definition scenario_env (irqs : list (nat * Z)) : submit_env :=
  mk_submit_env true true irqs 5 0.



Definition ten_task_run : rknpu_device :=
  sched_run (dev_init batch4_config scenario_bufs)
    [StepSchedule ten_task_args; StepIrq 0 0x100; StepIrq 0 0x200;
     StepIrq 0 0x300].


(** The ten-task job as [rknpu_job_next] leaves it on core 0, before its
    first commit. *)
Definition ten_task_job : rknpu_job :=
  mk_job ten_task_args false 1 0 1 (replicate RKNPU_MAX_CORES 0) 0 0 None None
    (replicate RKNPU_MAX_CORES 0) (replicate RKNPU_MAX_CORES 0)
    (replicate RKNPU_MAX_CORES false).

Definition ten_task_started : rknpu_device :=
  mk_device batch4_config
    [mk_subcore [] (Some 0%nat) 10; mk_subcore [] None 0; mk_subcore [] None 0]
    false {[ 0%nat := ten_task_job ]} 1%nat scenario_bufs [].

(** A buffer object at kernel address [addr] with device address [dma]. *)
Definition scenario_obj (addr dma : Z) : rknpu_mem_object :=
  mk_mem_object addr PAGE_SIZE 0 dma 1.

(** ** The job a submission queues *)

(** The state [da] and the job [br] on which [rknpu_job_schedule] starts its
    queueing loop for the arguments [args]: the job is allocated at the next
    free address of [d] and an automatic core mask is resolved. *)
Record fresh_job (d da : rknpu_device) (args : rknpu_submit_args)
    (br : rknpu_job) : Prop := {
  fj_config : config da = config d;
  fj_subcores : subcore_datas da = subcore_datas d;
  fj_trace : trace da = trace d;
  fj_reset : soft_reseting da = soft_reseting d;
  fj_seq : job_seq da = S (job_seq d);
  fj_jobs : jobs da = <[job_seq d := br]> (jobs d);
  fj_mask : 1 <= core_mask (job_args br) <= 7;
  fj_args : job_args br = set_core_mask (core_mask (job_args br)) args;
  fj_manual : core_mask args <> RKNPU_CORE_AUTO_MASK ->
              core_mask (job_args br) = core_mask args;
  fj_auto : core_mask args = RKNPU_CORE_AUTO_MASK ->
            core_mask (job_args br)
            = rknpu_core_mask (rknpu_schedule_core_index d);
  fj_cores : use_core_num br = over_cores (on_core (core_mask (job_args br)));
  fj_run : run_count br = over_cores (on_core (core_mask (job_args br)));
  fj_int : interrupt_count br = over_cores (on_core (core_mask (job_args br)));
  fj_flag : job_done_flag br = false;
  fj_submit : submit_count br = replicate RKNPU_MAX_CORES 0;
  fj_last : last_task br = None;
  fj_int_mask : job_int_mask br = replicate RKNPU_MAX_CORES 0
}.

(** ** Order of service *)



(** ** Load of a core *)






(** ** Wake-ups *)

(** Every job names its cores in its mask and counts them in
    [use_core_num], a finished job's wake-up went to the wait queue
    [rknpu_job_wait] picks for it, and a running job has been started on its
    core. *)
Record wake_inv (d : rknpu_device) : Prop := {
  wi_mask : forall j b, jobs d !! j = Some b ->
    1 <= core_mask (job_args b) <= 7 /\
    use_core_num b = over_cores (on_core (core_mask (job_args b)));
  wi_queue : forall j b wq, jobs d !! j = Some b ->
    wq ∈ wakes_of j (trace d) ->
    wq = rknpu_wait_core_index (core_mask (job_args b));
  wi_started : forall c j, job (subcore d c) = Some j -> EvStart c j ∈ trace d
}.

(** ** More scenarios *)

(** Three submissions that all name core 0, the last with an automatic mask,
    and the interrupts that end the three rounds of the first. *)
Definition queue_steps : list sched_step :=
  [StepSchedule ten_task_args; StepSchedule cores02_args;
   StepSchedule (scenario_args 0x0 1 [(0, 1); (0, 1); (0, 1); (0, 0); (0, 0)]);
   StepIrq 0 0x300; StepIrq 0 0x300; StepIrq 0 0x300].

Definition queue_run : rknpu_device :=
  sched_run (dev_init batch4_config scenario_bufs) queue_steps.

(** Two single-task jobs for core 2 alone; the second waits in the FIFO of
    core 2 while the first runs. *)
Definition core2_args : rknpu_submit_args :=
  scenario_args 0x4 1 [(0, 1); (0, 1); (0, 1); (0, 0); (0, 0)].

Definition core2_steps : list sched_step :=
  [StepSchedule core2_args; StepSchedule core2_args].

(** ** The task control register *)

(** The values written to the task control register of core [c], oldest
    first. *)
Definition control_writes (c : nat) (tr : list event) : list Z :=
  omap (fun e =>
          match e with
          | EvRegWrite c' off v =>
            if (c' =? c)%nat && (off =? RKNPU_OFFSET_PC_TASK_CONTROL)
            then Some v else None
          | _ => None
          end) tr.

(** ** Interrupt status pairs *)

(** The pair of status bits number [k]. *)
Definition status_pair (k : Z) : Z := Z.shiftl 0x3 (2 * k).

(** What [rknpu_fuzz_status] does to a 12-bit status, as a test. *)
Definition fuzz_status_ok (t : Z) : bool :=
  let f := rknpu_fuzz_status t in
  (rknpu_fuzz_status f =? f) && (0 <=? f) && (f <=? 0xfff)
  && (Z.land t f =? t) && Bool.eqb (f =? 0) (t =? 0)
  && forallb
       (fun k =>
          Bool.eqb (Z.land f (status_pair k) =? status_pair k)
            (negb (Z.land t (status_pair k) =? 0))
          && ((Z.land f (status_pair k) =? 0)
              || (Z.land f (status_pair k) =? status_pair k)))
       [0; 1; 2; 3; 4; 5].

(** ** Power state along the log *)



(** ** Actions and the ioctl entry point ([rknpu_drv.c]) *)




Definition RKNPU_MEM_CREATE : Z := 2.
Definition RKNPU_MEM_MAP : Z := 3.
Definition RKNPU_MEM_DESTROY : Z := 4.




















(** ** Releasing and mapping buffers ([rknpu_mem_simple.c], [rknpu_drv.c]) *)

(** The entry at which the search loop of [rknpu_mem_destroy_ioctl]
    stops. *)
Fixpoint session_find (ptr : Z) (l : list rknpu_mem_object)
  : option rknpu_mem_object :=
  match l with
  | [] => None
  | entry :: rest =>
    if obj_addr entry =? ptr then Some entry else session_find ptr rest
  end.

(** The objects [rknpu_mem_destroy_ioctl] releases and frees: the entry it
    has unlinked, when it found one. *)
Definition rknpu_mem_destroy_frees (session : option (list rknpu_mem_object))
    (user_obj_addr : option Z) : list rknpu_mem_object :=
  match user_obj_addr, session with
  | Some ptr, Some l =>
    if ptr =? 0 then [] else option_list (session_find ptr l)
  | _, _ => []
  end.

(** [rknpu_release]: the entries of the session are moved to a local list,
    the file loses its session, and the entries are released and freed one
    by one. The result is the list of the freed objects, in that order, and
    [file->private_data] afterwards. *)
Definition rknpu_release (l : list rknpu_mem_object)
  : list rknpu_mem_object * option (list rknpu_mem_object) :=
  (foldl (fun freed entry => freed ++ [entry]) [] l, None).

(** The objects the requests [ops] free, in order, on a session whose list
    is [l]. *)
Fixpoint mem_freed (ops : list mem_op) (l : list rknpu_mem_object)
  : list rknpu_mem_object :=
  match ops with
  | [] => []
  | op :: ops' =>
    match op with
    | MemCreate _ _ => []
    | MemDestroy ptr => rknpu_mem_destroy_frees (Some l) (Some ptr)
    end ++ mem_freed ops' (mem_step l op)
  end.

Definition PAGE_SHIFT : Z := 12.

(** The entry at which the search loop of [rknpu_mmap] stops. *)
Fixpoint mmap_find (target_addr size : Z) (l : list rknpu_mem_object)
  : option rknpu_mem_object :=
  match l with
  | [] => None
  | entry :: rest =>
    if (dma_addr entry =? target_addr) && (size <=? obj_size entry)
    then Some entry else mmap_find target_addr size rest
  end.

(** [rknpu_mmap] for a mapping of [size] bytes at page offset [vm_pgoff];
    [map_ret] is what [dma_mmap_coherent] returns. The result is the return
    value, the entry handed to [dma_mmap_coherent] and [vma->vm_pgoff]
    afterwards. *)
Definition rknpu_mmap (session : option (list rknpu_mem_object))
    (vm_pgoff size map_ret : Z) : Z * option rknpu_mem_object * Z :=
  match session with
  | None => (- EINVAL, None, vm_pgoff)
  | Some l =>
    let target_addr := u64 (Z.shiftl vm_pgoff PAGE_SHIFT) in
    match mmap_find target_addr size l with
    | None => (- EINVAL, None, vm_pgoff)
    | Some entry => (map_ret, Some entry, 0)
    end
  end.

(** The addresses of the objects on a list. *)
Definition obj_addrs (l : list rknpu_mem_object) : list Z := map obj_addr l.

(** A session with three buffers. *)
Definition three_buffers : list rknpu_mem_object :=
  [scenario_obj 0x100 0x4000; scenario_obj 0x200 0x8000;
   scenario_obj 0x300 0xc000].

(** Allocations that succeed, with the object at [addr] and the memory at
    [dma]. *)
Definition alloc_env (addr dma : Z) : create_env :=
  mk_create_env addr 0 dma 0x7000 true.

Definition lifecycle_ops : list mem_op :=
  [MemCreate (mk_mem_create 0 100) (alloc_env 0x100 0x4000);
   MemCreate (mk_mem_create 0 5000) (alloc_env 0x200 0x8000);
   MemDestroy 0x100; MemDestroy 0x500;
   MemCreate (mk_mem_create 0 1) (alloc_env 0x300 0xc000)].

(** ** Guard pages ([rknpu_submit_ioctl]) *)

Definition RKNPU_MAX_GUARD_PAGES : Z := 2048.
Definition RKNPU_GUARD_BELOW : Z := 16.
Definition PAGE_MASK : Z := Z.lnot (PAGE_SIZE - 1).

(** The length of the local array [ranges]. *)
Definition RKNPU_MAX_RANGES : nat := 32.

(** One element of [ranges]: the device addresses a buffer occupies. *)
Record iova_range := mk_range {
  range_start : Z;
  range_end : Z
}.

#[global] Instance iova_range_eq_dec : EqDecision iova_range.
Proof. solve_decision. Defined.

Definition bo_range (bo : rknpu_mem_object) : iova_range :=
  mk_range (u64 (dma_addr bo)) (u64 (dma_addr bo + obj_size bo)).

(** The loop over the session list that fills [ranges]: entries beyond the
    32nd are skipped. *)
Definition collect_ranges (l : list rknpu_mem_object) : list iova_range :=
  map bo_range (take RKNPU_MAX_RANGES l).

(** The inner loop of the insertion sort on the sorted prefix, read from its
    right end: the entries that start above the new one move one place to
    the right and the new one goes into the hole. *)
Fixpoint shift_insert (r : iova_range) (rev_prefix : list iova_range)
  : list iova_range :=
  match rev_prefix with
  | [] => [r]
  | x :: rest =>
    if range_start r <? range_start x then x :: shift_insert r rest
    else r :: rev_prefix
  end.

Definition sort_ranges (l : list iova_range) : list iova_range :=
  rev (foldl (fun rev_prefix r => shift_insert r rev_prefix) [] l).

(** The guard mapping in progress: the number of calls of [iommu_map] made
    so far and [guard_iovas], whose length is [guard_count]. *)
Record guard_state := mk_guards {
  gs_attempts : nat;
  guard_iovas : list Z
}.

(** One call of [iommu_map] for the page at [iova]; [map_ok] tells, for the
    number of the call and the address, whether it succeeds. *)
Definition guard_try (map_ok : nat -> Z -> bool) (iova : Z) (g : guard_state)
  : guard_state :=
  mk_guards (S (gs_attempts g))
    (if map_ok (gs_attempts g) iova then guard_iovas g ++ [iova]
     else guard_iovas g).

(** [for (iova = from; iova < limit && guard_count < RKNPU_MAX_GUARD_PAGES;
    iova += PAGE_SIZE)], unfolded over [fuel]. *)
Fixpoint guard_fill (map_ok : nat -> Z -> bool) (fuel : nat) (iova limit : Z)
    (g : guard_state) : guard_state :=
  match fuel with
  | O => g
  | S fuel' =>
    if (iova <? limit)
       && (Z.of_nat (length (guard_iovas g)) <? RKNPU_MAX_GUARD_PAGES)
    then
      guard_fill map_ok fuel' (u64 (iova + PAGE_SIZE)) limit
        (guard_try map_ok iova g)
    else g
  end.

(** More iterations than the loop from [from] to [limit] can make. *)
Definition guard_fuel (from limit : Z) : nat :=
  Z.to_nat ((limit - from) / PAGE_SIZE + 1).

(** The guard pages below the lowest buffer. *)
Definition guard_below (map_ok : nat -> Z -> bool) (ranges : list iova_range)
    (g : guard_state) : guard_state :=
  match ranges with
  | [] => g
  | r0 :: _ =>
    if RKNPU_GUARD_BELOW * PAGE_SIZE <=? range_start r0 then
      let gs := u64 (range_start r0 - RKNPU_GUARD_BELOW * PAGE_SIZE) in
      guard_fill map_ok (guard_fuel gs (range_start r0)) gs (range_start r0) g
    else g
  end.

(** The guard pages in the gaps between consecutive buffers. *)
Fixpoint guard_gaps (map_ok : nat -> Z -> bool) (ranges : list iova_range)
    (g : guard_state) : guard_state :=
  match ranges with
  | r :: (r' :: _) as rest =>
    let gap_s := u64 (PAGE_ALIGN (range_end r)) in
    let gap_e := Z.land (range_start r') PAGE_MASK in
    guard_gaps map_ok rest
      (if gap_e <=? gap_s then g
       else guard_fill map_ok (guard_fuel gap_s gap_e) gap_s gap_e g)
  | _ => g
  end.

(** The addresses [rknpu_submit_ioctl] maps guard pages at before it calls
    [rknpu_submit] and unmaps afterwards, in this order. [enabled] tells
    whether the file has a session, the IOMMU is enabled and has a domain,
    and the two allocations for the guard page and the address array
    succeed. *)
Definition submit_guard_pages (enabled : bool) (map_ok : nat -> Z -> bool)
    (l : list rknpu_mem_object) : list Z :=
  let ranges := sort_ranges (collect_ranges l) in
  if enabled && negb (bool_decide (ranges = [])) then
    guard_iovas
      (guard_gaps map_ok ranges (guard_below map_ok ranges (mk_guards 0 [])))
  else [].

(** Lists of ranges ordered by their start, from the lowest or from the
    highest. *)
Fixpoint ascending (l : list iova_range) : Prop :=
  match l with
  | [] => True
  | x :: rest =>
    Forall (fun y => range_start x <= range_start y) rest /\ ascending rest
  end.

Fixpoint descending (l : list iova_range) : Prop :=
  match l with
  | [] => True
  | x :: rest =>
    Forall (fun y => range_start y <= range_start x) rest /\ descending rest
  end.

(** Ranges that follow one another without overlap. *)
Fixpoint chained (l : list iova_range) : Prop :=
  match l with
  | [] => True
  | x :: rest =>
    Forall (fun y => range_end x <= range_start y) rest /\ chained rest
  end.

(** Two ranges without a common address. *)
Definition apart (a b : iova_range) : Prop :=
  range_end a <= range_start b \/ range_end b <= range_start a.

(** A range that is not empty, does not wrap and ends a page below the top
    of the address space. *)
Definition range_ok (r : iova_range) : Prop :=
  0 <= range_start r < range_end r /\ range_end r + PAGE_SIZE <= 2 ^ 64.

(** The page at [g] meets none of the ranges. *)
Definition free_page (l : list iova_range) (g : Z) : Prop :=
  Forall (fun r => g + PAGE_SIZE <= range_start r \/ range_end r <= g) l.

(** Page addresses in rising order, each a page or more above the one
    before. *)
Fixpoint spaced (l : list Z) : Prop :=
  match l with
  | [] => True
  | a :: rest => Forall (fun b => a + PAGE_SIZE <= b) rest /\ spaced rest
  end.

(** Three buffers out of order with gaps between them. *)
Definition gapped_buffers : list rknpu_mem_object :=
  [mk_mem_object 0x100 0x2000 0 0x40000 1;
   mk_mem_object 0x200 0x1000 0 0x20000 1;
   mk_mem_object 0x300 0x3000 0 0x23000 1].

(** * Properties *)

(** ** Machine integers *)

Lemma s32_small z : INT_MIN <= z <= INT_MAX -> s32 z = z.
Proof.
  unfold s32, wrap_signed, INT_MIN, INT_MAX. intros H.
  rewrite Z.mod_small; lia.
Qed.

Lemma s32_range z : INT_MIN <= s32 z <= INT_MAX.
Proof.
  unfold s32, wrap_signed, INT_MIN, INT_MAX.
  pose proof (Z.mod_pos_bound (z + 2 ^ (32 - 1)) (2 ^ 32) ltac:(lia)). lia.
Qed.












Lemma power_run_app pre post d :
  power_run (pre ++ post) d = power_run pre d ≫= power_run post.
Proof.
  revert d. induction pre as [|op pre IH]; intros d; cbn; [done|].
  destruct (power_step op d); cbn; [apply IH | done].
Qed.


(** ** Session buffer list *)

Section session_list.
Implicit Types (l : list rknpu_mem_object) (ops : list mem_op).

Lemma session_remove_sublist ptr l : sublist (session_remove ptr l) l.
Proof.
    induction l as [|entry rest IH]; cbn; [constructor|].
    destruct (obj_addr entry =? ptr).
    - by apply sublist_cons.
    - by apply sublist_skip.
Qed.

Lemma mem_step_create l args env :
    mem_step l (MemCreate args env) =
      match mem_create_object args env with
      | inr obj => if ce_copy_out env then l ++ [obj] else l
      | inl _ => l
      end.
Proof.
    unfold mem_step, rknpu_mem_create_ioctl.
    destruct (mem_create_object args env); [done|].
    by destruct (ce_copy_out env).
Qed.

Lemma mem_step_destroy l ptr :
    mem_step l (MemDestroy ptr) = if ptr =? 0 then l else session_remove ptr l.
Proof.
    unfold mem_step, rknpu_mem_destroy_ioctl. by destruct (ptr =? 0).
Qed.

(** Requests keep the list in creation order. *)
Lemma mem_run_order ops : forall l created,
    sublist l created ->
    sublist (foldl mem_step l ops) (created ++ mem_created ops).
Proof.
    induction ops as [|op ops IH]; intros l created Hsub.
    - cbn. by rewrite app_nil_r.
    - cbn [foldl]. destruct op as [args env|ptr].
      + rewrite mem_step_create. cbn [mem_created].
        destruct (mem_create_object args env) as [err|obj]; [by apply IH|].
        destruct (ce_copy_out env); [|by apply IH].
        rewrite (assoc_L (++) created [obj] _ : created ++ obj :: mem_created ops = _).
        apply IH. by apply sublist_app.
      + rewrite mem_step_destroy. cbn [mem_created].
        apply IH. destruct (ptr =? 0); [done|].
        etrans; [apply session_remove_sublist | done].
Qed.
End session_list.

Lemma u64_small z : 0 <= z < 2 ^ 64 -> u64 z = z.
Proof. intros H. unfold u64, wrap_unsigned. by apply Z.mod_small. Qed.

(** ** Frame properties of the commit path *)

#[global] Instance commit_rel_refl : Reflexive commit_rel.
Proof. intros b. by split. Qed.

#[global] Instance commit_rel_trans : Transitive commit_rel.
Proof. intros b1 b2 b3 [] []. split; congruence. Qed.

#[global] Instance commit_frame_refl : Reflexive commit_frame.
Proof.
  intros d; split; try reflexivity.
  exists []. by rewrite app_nil_r.
Qed.

#[global] Instance commit_frame_trans : Transitive commit_frame.
Proof.
  intros d1 d2 d3 [C1 S1 R1 Q1 B1 J1 T1] [C2 S2 R2 Q2 B2 J2 T2].
  split; try congruence.
  - intros j. specialize (J1 j). specialize (J2 j).
    destruct J1; inversion J2; subst; constructor.
    by etrans.
  - destruct T1 as (e1 & E1 & H1), T2 as (e2 & E2 & H2).
    exists (e1 ++ e2). rewrite E2, E1, <- app_assoc. split; [done|].
    by apply Forall_app.
Qed.

Lemma REG_WRITE_frame d c v off : commit_frame d (REG_WRITE c v off d).
Proof.
  split; try reflexivity.
  eexists. split; [reflexivity|]. by repeat constructor.
Qed.

Lemma emit_commit_frame d j c f n : commit_frame d (emit (EvCommit j c f n) d).
Proof.
  split; try reflexivity.
  eexists. split; [reflexivity|]. by repeat constructor.
Qed.

Lemma update_job_commit_frame d j f :
  (forall b, commit_rel b (f b)) -> commit_frame d (update_job j f d).
Proof.
  intros Hf. split; try reflexivity.
  - intros j'. cbn. rewrite lookup_alter. case_decide; subst.
    + destruct (jobs d !! j') as [b|]; cbn; constructor. apply Hf.
    + reflexivity.
  - exists []. by rewrite app_nil_r.
Qed.

Lemma rknpu_job_subcore_commit_pc_frame d j c :
  commit_frame d (rknpu_job_subcore_commit_pc d j c).
Proof.
  unfold rknpu_job_subcore_commit_pc.
  destruct (jobs d !! j) as [b|]; [|reflexivity].
  destruct (task_obj_addr (job_args b) =? 0).
  { apply update_job_commit_frame. by intros []. }
  destruct (commit_range _ _ _ _) as [ts tn].
  repeat first
    [ reflexivity
    | match goal with
      | |- commit_frame _ (REG_WRITE _ _ _ ?x) =>
        trans x; [|apply REG_WRITE_frame]
      | |- commit_frame _ (emit (EvCommit _ _ _ _) ?x) =>
        trans x; [|apply emit_commit_frame]
      | |- commit_frame _ (update_job _ _ ?x) =>
        trans x; [|apply update_job_commit_frame; by intros []]
      | |- commit_frame _ (if ?c then _ else _) => destruct c
      end ].
Qed.

Lemma rknpu_job_subcore_commit_frame d j c :
  commit_frame d (rknpu_job_subcore_commit d j c).
Proof.
  unfold rknpu_job_subcore_commit.
  destruct (jobs d !! j) as [b|]; [|reflexivity].
  destruct (_ =? 0).
  - etrans; [apply REG_WRITE_frame|]. apply update_job_commit_frame. by intros [].
  - etrans; [apply REG_WRITE_frame|]. apply rknpu_job_subcore_commit_pc_frame.
Qed.

Lemma rknpu_job_commit_frame d j : commit_frame d (rknpu_job_commit d j).
Proof.
  unfold rknpu_job_commit.
  destruct (jobs d !! j) as [b|]; [|reflexivity].
  repeat match goal with
         | |- commit_frame _ (if ?c then _ else _) => destruct c
         | |- commit_frame ?x (rknpu_job_subcore_commit ?y _ _) =>
           tryif unify x y then apply rknpu_job_subcore_commit_frame
           else (trans y; [|apply rknpu_job_subcore_commit_frame])
         end.
  reflexivity.
Qed.

(** ** Frames that keep the bookkeeping *)

#[global] Instance view_rel_refl : Reflexive view_rel.
Proof. intros b. by split. Qed.

#[global] Instance view_rel_trans : Transitive view_rel.
Proof. intros b1 b2 b3 [] []. split; congruence. Qed.

Lemma commit_rel_view b b' : commit_rel b b' -> view_rel b b'.
Proof. intros []. by split. Qed.

#[global] Instance skel_frame_refl : Reflexive skel_frame.
Proof.
  intros d; split; try reflexivity.
  exists []. by rewrite app_nil_r.
Qed.

#[global] Instance skel_frame_trans : Transitive skel_frame.
Proof.
  intros d1 d2 d3 [C1 S1 R1 Q1 J1 T1] [C2 S2 R2 Q2 J2 T2].
  split; try congruence.
  - intros j. specialize (J1 j). specialize (J2 j).
    destruct J1; inversion J2; subst; constructor.
    by etrans.
  - destruct T1 as (e1 & E1 & H1), T2 as (e2 & E2 & H2).
    exists (e1 ++ e2). rewrite E2, E1, <- app_assoc. split; [done|].
    by apply Forall_app.
Qed.

Lemma commit_frame_skel d d' : commit_frame d d' -> skel_frame d d'.
Proof.
  intros [C S R Q B J T]. split; try done.
  intros j. destruct (J j); constructor. by apply commit_rel_view.
Qed.

Lemma REG_WRITE_skel d c v off : skel_frame d (REG_WRITE c v off d).
Proof. apply commit_frame_skel, REG_WRITE_frame. Qed.

Lemma update_job_skel d j f :
  (forall b, view_rel b (f b)) -> skel_frame d (update_job j f d).
Proof.
  intros Hf. split; try reflexivity.
  - intros j'. cbn. rewrite lookup_alter. case_decide; subst.
    + destruct (jobs d !! j') as [b|]; cbn; constructor. apply Hf.
    + reflexivity.
  - exists []. by rewrite app_nil_r.
Qed.

Lemma hw_event_not_sched e : hw_event e -> sched_event_job e = None.
Proof. by destruct e. Qed.

Lemma started_hw tr evs c j :
  Forall hw_event evs -> EvStart c j ∈ tr ++ evs <-> EvStart c j ∈ tr.
Proof.
  intros Hevs. rewrite elem_of_app. split; [|by left].
  intros [H|H]; [done|]. rewrite Forall_forall in Hevs. by apply Hevs in H.
Qed.

Lemma wakes_of_app j tr1 tr2 :
  wakes_of j (tr1 ++ tr2) = wakes_of j tr1 ++ wakes_of j tr2.
Proof. apply omap_app. Qed.

Lemma wakes_of_hw j evs : Forall hw_event evs -> wakes_of j evs = [].
Proof.
  induction 1 as [|e evs He _ IH]; [done|].
  unfold wakes_of in *. cbn. rewrite IH. by destruct e.
Qed.

Lemma queued_frame d d' j c :
  subcore_datas d' = subcore_datas d -> queued d' j c = queued d j c.
Proof. unfold queued, subcore. by intros ->. Qed.

Lemma running_frame d d' j c :
  subcore_datas d' = subcore_datas d -> running d' j c = running d j c.
Proof. unfold running, subcore. by intros ->. Qed.

Lemma over_cores_ext f g :
  (forall c, (c < RKNPU_MAX_CORES)%nat -> f c = g c) -> over_cores f = over_cores g.
Proof.
  intros H. unfold over_cores, RKNPU_MAX_CORES in *.
  rewrite (H 0%nat), (H 1%nat), (H 2%nat) by lia. done.
Qed.

(** The invariant only reads what a frame keeps. *)
Lemma skel_frame_inv d d' : skel_frame d d' -> sched_inv d -> sched_inv d'.
Proof.
  intros [C S R Q J (evs & T & Hevs)] I.
  assert (Hsub : forall c, subcore d' c = subcore d c)
    by (intros c; unfold subcore; by rewrite S).
  assert (Hq : forall j c, queued d' j c = queued d j c)
    by (intros; by apply queued_frame).
  assert (Hr : forall j c, running d' j c = running d j c)
    by (intros; by apply running_frame).
  assert (Hs : forall j c, started d' j c = started d j c).
  { intros j c. unfold started. rewrite T.
    apply bool_decide_ext. by apply started_hw. }
  assert (Hj : forall j b', jobs d' !! j = Some b' ->
                 exists b, jobs d !! j = Some b /\ view_rel b b').
  { intros j b' Hb'. specialize (J j). rewrite Hb' in J.
    inversion J; subst. eauto. }
  split.
  - rewrite S. apply I.
  - rewrite C. apply I.
  - intros c. rewrite Hsub. apply I.
  - intros c j. rewrite Hsub. intros Hin%(inv_todo_job _ I).
    specialize (J j). destruct Hin as [b Hb]. rewrite Hb in J.
    inversion J; subst. eauto.
  - intros j [b' Hb']. rewrite Q. apply (inv_job_seq _ I).
    destruct (Hj _ _ Hb') as (b & Hb & _). eauto.
  - intros c j. rewrite Hsub, Q. apply I.
  - intros e j. rewrite T, Q, elem_of_app. intros [He|He] Hjob.
    + by apply (inv_ev_seq _ I e).
    + rewrite Forall_forall in Hevs. apply Hevs, hw_event_not_sched in He.
      congruence.
  - intros c j. rewrite Hsub. apply I.
  - intros j b' Hb'. destruct (Hj _ _ Hb') as (b & Hb & V).
    rewrite (vr_run _ _ V), (inv_run_count _ I j b Hb).
    apply over_cores_ext. intros; by rewrite Hq.
  - intros j b' Hb'. destruct (Hj _ _ Hb') as (b & Hb & V).
    rewrite (vr_int _ _ V), (inv_int_count _ I j b Hb).
    apply over_cores_ext. intros; by rewrite Hq, Hr.
  - intros j b' c Hb' Hc. destruct (Hj _ _ Hb') as (b & Hb & V).
    rewrite (vr_args _ _ V), Hq, Hs. by apply I.
  - intros j c. rewrite Hq, Hs. apply I.
  - intros j b' Hb'. destruct (Hj _ _ Hb') as (b & Hb & V).
    unfold job_done_flag. rewrite (vr_flags _ _ V), (vr_int _ _ V).
    by apply (inv_done _ I j b).
  - intros j b' Hb'. destruct (Hj _ _ Hb') as (b & Hb & V).
    unfold job_done_flag. rewrite (vr_flags _ _ V), T, wakes_of_app.
    rewrite (wakes_of_hw _ _ Hevs), app_nil_r.
    by apply (inv_wake _ I j b).
Qed.

(** ** Reading and writing per-core data *)

Lemma subcore_update_subcore d c f c' :
  subcore (update_subcore c f d) c' =
    if decide (c = c' /\ (c < length (subcore_datas d))%nat)
    then f (subcore d c) else subcore d c'.
Proof. unfold subcore, update_subcore. cbn. apply list_lookup_total_alter. Qed.

Lemma subcore_out_of_range d c :
  (length (subcore_datas d) <= c)%nat -> subcore d c = mk_subcore [] None 0.
Proof.
  intros H. unfold subcore. rewrite list_lookup_total_alt.
  by rewrite lookup_ge_None_2.
Qed.

Lemma s32_dec_small v : 0 < v <= 3 -> atomic_dec v = v - 1.
Proof.
  intros H. unfold atomic_dec. apply s32_small.
  unfold INT_MIN, INT_MAX in *. lia.
Qed.

Lemma over_cores_range f : 0 <= over_cores f <= 3.
Proof.
  unfold over_cores.
  destruct (f 0%nat), (f 1%nat), (f 2%nat); cbn; lia.
Qed.

Lemma over_cores_pos f c :
  (c < RKNPU_MAX_CORES)%nat -> f c = true -> 0 < over_cores f.
Proof.
  unfold over_cores, RKNPU_MAX_CORES. intros Hc Hf.
  destruct c as [|[|[|c]]]; try lia; rewrite Hf;
    destruct (f 0%nat), (f 1%nat), (f 2%nat); cbn; lia.
Qed.

(** Clearing [f] on one core lowers the count by one. *)
Lemma over_cores_clear f g c :
  (c < RKNPU_MAX_CORES)%nat -> f c = true -> g c = false ->
  (forall c', c' <> c -> g c' = f c') ->
  over_cores g = over_cores f - 1.
Proof.
  unfold over_cores, RKNPU_MAX_CORES. intros Hc Hf Hg Hother.
  destruct c as [|[|[|c]]]; try lia; rewrite Hf, Hg, !Hother by lia; cbn; lia.
Qed.


Lemma queued_true d j c : queued d j c = true <-> j ∈ todo_list (subcore d c).
Proof. unfold queued. apply bool_decide_eq_true. Qed.

Lemma running_true d j c : running d j c = true <-> job (subcore d c) = Some j.
Proof. unfold running. apply bool_decide_eq_true. Qed.

Lemma started_true d j c : started d j c = true <-> EvStart c j ∈ trace d.
Proof. unfold started. apply bool_decide_eq_true. Qed.

Lemma queued_in_range d j c :
  queued d j c = true -> (c < length (subcore_datas d))%nat.
Proof.
  rewrite queued_true. intros H.
  destruct (decide (c < length (subcore_datas d))%nat) as [|Hge]; [done|].
  rewrite subcore_out_of_range in H by lia. by apply elem_of_nil in H.
Qed.

(** ** Starting the head of a FIFO *)

Section pop.
Variables (d : rknpu_device) (c : nat) (j : job_id) (rest : list job_id)
  (b : rknpu_job).
Hypothesis Hinv : sched_inv d.
Hypothesis Hidle : job (subcore d c) = None.
Hypothesis Htodo : todo_list (subcore d c) = j :: rest.
Hypothesis Hjob : jobs d !! j = Some b.

Lemma pop_core : (c < RKNPU_MAX_CORES)%nat.
Proof.
  rewrite <- (inv_cores _ Hinv). apply (queued_in_range d j).
  rewrite queued_true, Htodo. apply elem_of_cons. by left.
Qed.

Lemma pop_fresh : j ∉ rest.
Proof.
  pose proof (inv_nodup _ Hinv c) as H. rewrite Htodo in H.
  by apply NoDup_cons in H as [H _].
Qed.

Lemma popped_subcore c' :
  subcore (popped d c j rest b) c' =
    if decide (c' = c) then mk_subcore rest (Some j) (task_num (subcore d c))
    else subcore d c'.
Proof.
  unfold popped. change (subcore (update_job ?j ?f (emit ?e ?x)) c') with (subcore x c').
  rewrite subcore_update_subcore. pose proof pop_core as Hc.
  rewrite <- (inv_cores _ Hinv) in Hc.
  repeat case_decide; naive_solver.
Qed.

Lemma popped_queued j' c' :
  queued (popped d c j rest b) j' c' =
    if decide (c' = c) then bool_decide (j' ∈ rest) else queued d j' c'.
Proof. unfold queued. rewrite popped_subcore. by case_decide. Qed.

Lemma popped_queued_other j' c' : j' <> j -> queued (popped d c j rest b) j' c' = queued d j' c'.
Proof.
  intros Hne. rewrite popped_queued. case_decide; [subst c'|done].
  unfold queued. rewrite Htodo. apply bool_decide_ext.
  rewrite elem_of_cons. naive_solver.
Qed.

Lemma popped_running j' c' :
  running (popped d c j rest b) j' c' =
    if decide (c' = c) then bool_decide (j' = j) else running d j' c'.
Proof.
  unfold running. rewrite popped_subcore. case_decide; [|done].
  apply bool_decide_ext. naive_solver.
Qed.

Lemma popped_started j' c' :
  started (popped d c j rest b) j' c' = started d j' c' || bool_decide (c' = c /\ j' = j).
Proof.
  unfold started, popped. cbn [trace update_job set_jobs emit update_subcore set_subcore_datas].
  apply eq_true_iff_eq. rewrite orb_true_iff, !bool_decide_eq_true.
  rewrite elem_of_app, list_elem_of_singleton. naive_solver.
Qed.

Lemma popped_jobs j' :
  jobs (popped d c j rest b) !! j' =
    if decide (j' = j) then Some (set_run_count (atomic_dec (run_count b)) b)
    else jobs d !! j'.
Proof.
  unfold popped. cbn. rewrite lookup_alter.
  repeat case_decide; subst; try done. by rewrite Hjob.
Qed.

Lemma pop_run_count : atomic_dec (run_count b) = run_count b - 1.
Proof.
  apply s32_dec_small. rewrite (inv_run_count _ Hinv j b Hjob).
  split; [|apply over_cores_range].
  apply (over_cores_pos _ c); [apply pop_core|].
  rewrite queued_true, Htodo. apply elem_of_cons. by left.
Qed.

Lemma popped_inv : sched_inv (popped d c j rest b).
Proof.
  pose proof pop_core as Hc. pose proof pop_fresh as Hfresh.
  assert (Hqj : queued d j c = true).
  { rewrite queued_true, Htodo. apply elem_of_cons. by left. }
  split.
  - unfold popped. cbn. rewrite length_alter. apply Hinv.
  - apply Hinv.
  - intros c'. rewrite popped_subcore. case_decide; [|apply Hinv].
    cbn. pose proof (inv_nodup _ Hinv c) as HN. rewrite Htodo in HN.
    by apply NoDup_cons in HN as [_ HN].
  - intros c' j'. rewrite popped_subcore, popped_jobs.
    intros Hin. destruct (decide (j' = j)); [done|].
    apply (inv_todo_job _ Hinv c'). destruct (decide (c' = c)); [subst c'|done].
    rewrite Htodo. apply elem_of_cons. by right.
  - intros j'. rewrite popped_jobs. intros Hs. apply (inv_job_seq _ Hinv).
    case_decide; [subst; by rewrite Hjob|done].
  - intros c' j'. rewrite popped_subcore. case_decide.
    + cbn. intros [= <-]. apply (inv_job_seq _ Hinv). by rewrite Hjob.
    + apply Hinv.
  - intros e j'. unfold popped. cbn. rewrite elem_of_app, list_elem_of_singleton.
    intros [He| ->] Hj'.
    + by apply (inv_ev_seq _ Hinv e).
    + cbn in Hj'. injection Hj' as <-. apply (inv_job_seq _ Hinv). by rewrite Hjob.
  - intros c' j'. rewrite popped_subcore. case_decide.
    + cbn. by intros [= <-].
    + apply Hinv.
  - intros j' b'. rewrite popped_jobs. case_decide.
    + subst j'. intros [= <-]. cbn. rewrite pop_run_count.
      rewrite (inv_run_count _ Hinv j b Hjob). symmetry.
      apply (over_cores_clear _ _ c); try done.
      * rewrite popped_queued, decide_True by done. by apply bool_decide_eq_false.
      * intros c' Hne. by rewrite popped_queued, decide_False.
    + intros Hb'. rewrite (inv_run_count _ Hinv j' b' Hb').
      apply over_cores_ext. intros. by rewrite popped_queued_other.
  - intros j' b'. rewrite popped_jobs.
    assert (Hsame : forall c', queued (popped d c j rest b) j' c' || running (popped d c j rest b) j' c'
                             = queued d j' c' || running d j' c').
    { intros c'. rewrite popped_queued, popped_running.
      case_decide; [subst c'|done].
      unfold queued, running. rewrite Htodo, Hidle.
      apply eq_true_iff_eq. rewrite !orb_true_iff, !bool_decide_eq_true.
      rewrite elem_of_cons. naive_solver. }
    case_decide.
    + subst j'. intros [= <-]. cbn. rewrite (inv_int_count _ Hinv j b Hjob).
      by apply over_cores_ext.
    + intros Hb'. rewrite (inv_int_count _ Hinv j' b' Hb').
      by apply over_cores_ext.
  - intros j' b' c'. rewrite popped_jobs.
    assert (Hpart : forall b0, jobs d !! j' = Some b0 ->
               (c' < RKNPU_MAX_CORES)%nat ->
               on_core (core_mask (job_args b0)) c'
               = queued (popped d c j rest b) j' c' || started (popped d c j rest b) j' c').
    { intros b0 Hb0 Hc'. rewrite (inv_part _ Hinv j' b0 c' Hb0 Hc').
      rewrite popped_queued, popped_started.
      case_decide; [subst c'|].
      - destruct (decide (j' = j)) as [->|Hne].
        + rewrite Hqj. rewrite (bool_decide_eq_false_2 (j ∈ rest)) by done.
          rewrite (bool_decide_eq_true_2 (c = c /\ j = j)) by done.
          by rewrite orb_true_r.
        + rewrite (bool_decide_eq_false_2 (c = c /\ j' = j)) by naive_solver.
          rewrite orb_false_r. f_equal. unfold queued. rewrite Htodo.
          apply bool_decide_ext. rewrite elem_of_cons. naive_solver.
      - rewrite (bool_decide_eq_false_2 (c' = c /\ j' = j)) by naive_solver.
        by rewrite orb_false_r. }
    case_decide.
    + subst j'. intros [= <-]. cbn. by apply Hpart.
    + intros Hb'. by apply Hpart.
  - intros j' c'. rewrite popped_queued, popped_started.
    pose proof (inv_part_excl _ Hinv j' c') as Hex.
    case_decide; [subst c'|].
    + destruct (decide (j' = j)) as [->|Hne].
      * by rewrite (bool_decide_eq_false_2 (j ∈ rest)).
      * rewrite (bool_decide_eq_false_2 (c = c /\ j' = j)) by naive_solver.
        rewrite orb_false_r. rewrite <- Hex. f_equal. unfold queued. rewrite Htodo.
        apply bool_decide_ext. rewrite elem_of_cons. naive_solver.
    + rewrite (bool_decide_eq_false_2 (c' = c /\ j' = j)) by naive_solver.
      by rewrite orb_false_r.
  - intros j' b'. rewrite popped_jobs. case_decide.
    + subst j'. intros [= <-]. by apply (inv_done _ Hinv j b).
    + by apply (inv_done _ Hinv).
  - intros j' b'. rewrite popped_jobs.
    assert (Hw : wakes_of j' (trace (popped d c j rest b)) = wakes_of j' (trace d)).
    { unfold popped.
      cbn [trace update_job set_jobs emit update_subcore set_subcore_datas].
      rewrite wakes_of_app. cbn. by rewrite app_nil_r. }
    rewrite Hw. case_decide.
    + subst j'. intros [= <-]. by apply (inv_wake _ Hinv j b).
    + by apply (inv_wake _ Hinv).
Qed.
End pop.

Lemma rknpu_job_next_unfold d c :
  rknpu_job_next d c =
    if soft_reseting d then d
    else
      match job (subcore d c), todo_list (subcore d c) with
      | None, j :: rest =>
        match jobs d !! j with
        | None =>
          emit (EvStart c j)
            (update_subcore c (fun s => mk_subcore rest (Some j) (task_num s)) d)
        | Some b =>
          if atomic_dec (run_count b) =? 0
          then rknpu_job_commit (popped d c j rest b) j
          else popped d c j rest b
        end
      | _, _ => d
      end.
Proof.
  unfold rknpu_job_next. destruct (soft_reseting d); [done|].
  destruct (job (subcore d c)); [done|].
  destruct (todo_list (subcore d c)) as [|j rest]; [done|].
  cbn [jobs emit update_subcore set_subcore_datas].
  by destruct (jobs d !! j).
Qed.

Lemma rknpu_job_next_inv d c : sched_inv d -> sched_inv (rknpu_job_next d c).
Proof.
  intros Hinv. rewrite rknpu_job_next_unfold.
  destruct (soft_reseting d); [done|].
  destruct (job (subcore d c)) eqn:Hidle; [done|].
  destruct (todo_list (subcore d c)) as [|j rest] eqn:Htodo; [done|].
  destruct (inv_todo_job _ Hinv c j) as [b Hjob].
  { rewrite Htodo. apply elem_of_cons. by left. }
  rewrite Hjob.
  pose proof (popped_inv d c j rest b Hinv Hidle Htodo Hjob) as Hpop.
  destruct (_ =? 0); [|done].
  eapply skel_frame_inv; [|exact Hpop].
  apply commit_frame_skel, rknpu_job_commit_frame.
Qed.

Lemma land_lor_done f : Z.land (Z.lor f RKNPU_JOB_DONE) RKNPU_JOB_DONE = 1.
Proof.
  unfold RKNPU_JOB_DONE. apply Z.bits_inj'. intros n Hn.
  rewrite Z.land_spec, Z.lor_spec.
  destruct (Z.testbit 1 n); [by rewrite orb_true_r | by rewrite andb_false_r].
Qed.

(** ** Completing a job on a core *)

Lemma rknpu_job_done_unfold d j ret c :
  rknpu_job_done d j ret c =
    match jobs d !! j with
    | None => d
    | Some b =>
      let sc := atomic_inc (submit_count b !!! c) in
      let b' := set_submit_count (<[c := sc]> (submit_count b)) b in
      let d' := update_job j (set_submit_count (<[c := sc]> (submit_count b))) d in
      if sc <? commit_rounds (config d) b c
      then rknpu_job_subcore_commit d' j c
      else rknpu_job_next (completed d' j ret c b') c
    end.
Proof.
  unfold rknpu_job_done. destruct (jobs d !! j) as [b|]; [|done].
  cbn zeta. destruct (_ <? commit_rounds _ _ _); [done|].
  unfold completed, finish_job. cbn [interrupt_count set_submit_count job_flags use_core_num config update_job set_jobs].
  reflexivity.
Qed.

Lemma completed_jobs d c j ret b j' :
  jobs d !! j = Some b ->
  jobs (completed d j ret c b) !! j' =
    if decide (j' = j) then Some (completed_job ret b) else jobs d !! j'.
Proof.
  intros Hjob.
  assert (Hs : jobs (completed d j ret c b) =
               <[j := (completed_job ret b)]> (jobs d)).
  { unfold completed, finish_job, completed_job. cbn zeta.
    apply map_eq. intros i.
    repeat (match goal with |- context [if ?x then _ else _] => destruct x end);
      cbn; rewrite ?lookup_alter, lookup_insert;
      repeat case_decide; subst; rewrite ?Hjob; try done;
      cbn; rewrite ?lookup_alter; repeat case_decide; subst; rewrite ?Hjob; done. }
  rewrite Hs, lookup_insert. repeat case_decide; naive_solver.
Qed.

Lemma completed_trace d c j ret b :
  trace (completed d j ret c b) = trace d ++ (completed_events c j b).
Proof.
  unfold completed, finish_job, completed_events. cbn zeta.
  repeat (match goal with |- context [if ?x then _ else _] => destruct x end);
    cbn; rewrite ?app_nil_r, <- ?app_assoc; reflexivity.
Qed.

Lemma completed_wakes d c j ret b j' :
  wakes_of j' (trace (completed d j ret c b)) =
    wakes_of j' (trace d) ++
    if decide (j' = j) then
      (if atomic_dec (interrupt_count b) =? 0
       then [if 1 <? use_core_num b then 0%nat else c] else [])
    else [].
Proof.
  rewrite completed_trace, wakes_of_app. f_equal. unfold completed_events.
  repeat (match goal with |- context [if ?x then _ else _] => destruct x end);
    cbn; repeat case_bool_decide; try done.
Qed.

Lemma completed_todo d j ret c b c' :
  todo_list (subcore (completed d j ret c b) c') = todo_list (subcore d c').
Proof.
  assert (Hs : subcore_datas (completed d j ret c b) =
               alter (fun s => mk_subcore (todo_list s) None
                 (s64 (task_num s - rknpu_get_task_number (config d) b c))) c
                 (subcore_datas d)).
  { unfold completed, finish_job. cbn zeta.
    repeat (match goal with |- context [if ?x then _ else _] => destruct x end);
      reflexivity. }
  unfold subcore. rewrite Hs, list_lookup_total_alter.
  case_decide as H; [|done]. by destruct H as [-> _].
Qed.

Section complete.
Variables (d : rknpu_device) (c : nat) (j : job_id) (ret : Z) (b : rknpu_job).
Hypothesis Hinv : sched_inv d.
Hypothesis Hrun : job (subcore d c) = Some j.
Hypothesis Hjob : jobs d !! j = Some b.

Lemma complete_core : (c < RKNPU_MAX_CORES)%nat.
Proof.
  rewrite <- (inv_cores _ Hinv).
  destruct (decide (c < length (subcore_datas d))%nat) as [|Hge]; [done|].
  rewrite subcore_out_of_range in Hrun by lia. discriminate.
Qed.

Lemma complete_count_pos : 0 < interrupt_count b <= 3.
Proof.
  rewrite (inv_int_count _ Hinv j b Hjob). split; [|apply over_cores_range].
  apply (over_cores_pos _ c); [apply complete_core|].
  apply orb_true_iff. right. by apply running_true.
Qed.

Lemma complete_dec : atomic_dec (interrupt_count b) = interrupt_count b - 1.
Proof. apply s32_dec_small, complete_count_pos. Qed.

Lemma complete_not_done : job_done_flag b = false.
Proof.
  rewrite (inv_done _ Hinv j b Hjob). apply bool_decide_eq_false.
  pose proof complete_count_pos. lia.
Qed.

Lemma completed_subcore c' :
  subcore (completed d j ret c b) c' =
    if decide (c' = c)
    then mk_subcore (todo_list (subcore d c)) None
           (s64 (task_num (subcore d c) - rknpu_get_task_number (config d) b c))
    else subcore d c'.
Proof.
  pose proof complete_core as Hc. rewrite <- (inv_cores _ Hinv) in Hc.
  assert (Hs : subcore_datas (completed d j ret c b) =
               alter (fun s => mk_subcore (todo_list s) None
                 (s64 (task_num s - rknpu_get_task_number (config d) b c))) c
                 (subcore_datas d)).
  { unfold completed, finish_job. cbn zeta.
    repeat (match goal with |- context [if ?x then _ else _] => destruct x end);
      reflexivity. }
  unfold subcore. rewrite Hs, list_lookup_total_alter.
  repeat case_decide; naive_solver.
Qed.

Lemma completed_queued j' c' :
  queued (completed d j ret c b) j' c' = queued d j' c'.
Proof. unfold queued. rewrite completed_subcore. by case_decide; subst. Qed.

Lemma completed_running j' c' :
  running (completed d j ret c b) j' c' =
    if decide (c' = c) then false else running d j' c'.
Proof.
  unfold running. rewrite completed_subcore. case_decide; [|done].
  by apply bool_decide_eq_false.
Qed.

Lemma completed_started j' c' :
  started (completed d j ret c b) j' c' = started d j' c'.
Proof.
  unfold started. rewrite completed_trace. apply bool_decide_ext.
  rewrite elem_of_app. split; [|by left]. intros [H|H]; [done|].
  unfold completed_events in H.
  repeat (match type of H with context [if ?x then _ else _] => destruct x end);
    set_solver.
Qed.

Lemma completed_inv : sched_inv (completed d j ret c b).
Proof.
  pose proof complete_core as Hc. pose proof complete_dec as Hdec.
  pose proof complete_count_pos as Hpos. pose proof complete_not_done as Hnd.
  split.
  - assert (Hs : length (subcore_datas (completed d j ret c b))
                 = length (subcore_datas d)).
    { unfold completed, finish_job. cbn zeta.
      repeat (match goal with |- context [if ?x then _ else _] => destruct x end);
        cbn; by rewrite length_alter. }
    rewrite Hs. apply Hinv.
  - assert (Hs : config (completed d j ret c b) = config d).
    { unfold completed, finish_job. cbn zeta.
      repeat (match goal with |- context [if ?x then _ else _] => destruct x end);
        reflexivity. }
    rewrite Hs. apply Hinv.
  - intros c'. rewrite completed_subcore. case_decide; subst; apply Hinv.
  - intros c' j' Hin. rewrite completed_jobs by done. destruct (decide (j' = j)); [done|].
    apply (inv_todo_job _ Hinv c'). rewrite completed_subcore in Hin.
    by destruct (decide (c' = c)); subst.
  - intros j'. rewrite completed_jobs by done. intros Hs.
    assert (Hq : job_seq (completed d j ret c b) = job_seq d).
    { unfold completed, finish_job. cbn zeta.
      repeat (match goal with |- context [if ?x then _ else _] => destruct x end);
        reflexivity. }
    rewrite Hq. apply (inv_job_seq _ Hinv).
    destruct (decide (j' = j)); [subst; by rewrite Hjob | done].
  - intros c' j'. rewrite completed_subcore.
    assert (Hq : job_seq (completed d j ret c b) = job_seq d).
    { unfold completed, finish_job. cbn zeta.
      repeat (match goal with |- context [if ?x then _ else _] => destruct x end);
        reflexivity. }
    rewrite Hq. case_decide; [done | apply Hinv].
  - intros e j'.
    assert (Hq : job_seq (completed d j ret c b) = job_seq d).
    { unfold completed, finish_job. cbn zeta.
      repeat (match goal with |- context [if ?x then _ else _] => destruct x end);
        reflexivity. }
    rewrite Hq, completed_trace, elem_of_app. intros [He|He] Hj'.
    + by apply (inv_ev_seq _ Hinv e).
    + assert (j' = j) as ->.
      { unfold completed_events in He.
        repeat (match type of He with context [if ?x then _ else _] => destruct x end);
          set_unfold; naive_solver. }
      apply (inv_job_seq _ Hinv). by rewrite Hjob.
  - intros c' j'. rewrite completed_subcore. case_decide; [done | apply Hinv].
  - intros j' b'. rewrite completed_jobs by done.
    assert (Hrc : over_cores (queued (completed d j ret c b) j')
                  = over_cores (queued d j')).
    { apply over_cores_ext. intros. apply completed_queued. }
    rewrite Hrc. case_decide.
    + subst j'. intros [= <-]. rewrite <- (inv_run_count _ Hinv j b Hjob).
      unfold completed_job. by destruct (_ =? 0).
    + apply (inv_run_count _ Hinv).
  - intros j' b'. rewrite completed_jobs by done. case_decide.
    + subst j'. intros [= <-].
      assert (interrupt_count (completed_job ret b) = interrupt_count b - 1) as ->.
      { unfold completed_job. rewrite Hdec. by destruct (_ =? 0). }
      rewrite (inv_int_count _ Hinv j b Hjob). symmetry.
      apply (over_cores_clear _ _ c); try done.
      * apply orb_true_iff. right. by apply running_true.
      * rewrite completed_queued, completed_running, decide_True by done.
        rewrite orb_false_r. apply bool_decide_eq_false. by apply (inv_excl _ Hinv).
      * intros c' Hne. by rewrite completed_queued, completed_running, decide_False.
    + intros Hb'. rewrite (inv_int_count _ Hinv j' b' Hb').
      apply over_cores_ext. intros c' _.
      rewrite completed_queued, completed_running. case_decide; [subst c'|done].
      f_equal. unfold running. apply bool_decide_eq_false.
      rewrite Hrun. congruence.
  - intros j' b' c'. rewrite completed_jobs, completed_queued, completed_started by done.
    case_decide.
    + subst j'. intros [= <-].
      assert (job_args (completed_job ret b) = job_args b) as ->
        by (unfold completed_job; by destruct (_ =? 0)).
      by apply (inv_part _ Hinv).
    + by apply (inv_part _ Hinv).
  - intros j' c'. rewrite completed_queued, completed_started. apply Hinv.
  - intros j' b'. rewrite completed_jobs by done. case_decide.
    + subst j'. intros [= <-]. unfold completed_job.
      destruct (_ =? 0) eqn:E.
      * apply Z.eqb_eq in E. unfold job_done_flag. cbn.
        rewrite land_lor_done. cbn. symmetry. by apply bool_decide_eq_true.
      * apply Z.eqb_neq in E. unfold job_done_flag in *. cbn.
        rewrite Hnd. symmetry. by apply bool_decide_eq_false.
    + apply (inv_done _ Hinv).
  - intros j' b'. rewrite completed_jobs, completed_wakes, length_app by done. case_decide.
    + subst j'. intros [= <-]. rewrite (inv_wake _ Hinv j b Hjob), Hnd.
      unfold completed_job. destruct (_ =? 0) eqn:E.
      * unfold job_done_flag. cbn. by rewrite land_lor_done.
      * unfold job_done_flag in *. cbn. by rewrite Hnd.
    + intros Hb'. cbn. rewrite Nat.add_0_r. by apply (inv_wake _ Hinv).
Qed.
End complete.

Lemma rknpu_job_done_inv d j ret c :
  sched_inv d -> job (subcore d c) = Some j ->
  sched_inv (rknpu_job_done d j ret c).
Proof.
  intros Hinv Hrun. rewrite rknpu_job_done_unfold.
  destruct (jobs d !! j) as [b|] eqn:Hjob; [|done]. cbn zeta.
  set (f := set_submit_count _).
  assert (Hframe : skel_frame d (update_job j f d)).
  { apply update_job_skel. intros b0. by split. }
  pose proof (skel_frame_inv _ _ Hframe Hinv) as Hinv'.
  destruct (_ <? _).
  - eapply skel_frame_inv; [|exact Hinv'].
    apply commit_frame_skel, rknpu_job_subcore_commit_frame.
  - apply rknpu_job_next_inv. apply completed_inv; try done.
    cbn. by rewrite lookup_alter_eq, Hjob.
Qed.

Lemma rknpu_irq_handler_inv d c status :
  sched_inv d -> sched_inv (rknpu_irq_handler d c status).
Proof.
  intros Hinv. unfold rknpu_irq_handler.
  destruct (job (subcore d c)) as [j|] eqn:Hrun.
  - set (d1 := update_job j _ d).
    assert (Hframe : skel_frame d d1).
    { apply update_job_skel. intros b0. by split. }
    pose proof (skel_frame_inv _ _ Hframe Hinv) as Hinv1.
    destruct (jobs d1 !! j) as [b|]; [|done].
    pose proof (skel_frame_inv _ _ (REG_WRITE_skel d1 c RKNPU_INT_CLEAR
                  RKNPU_OFFSET_INT_CLEAR) Hinv1) as Hinv2.
    destruct (_ =? _); [|done].
    by apply rknpu_job_done_inv.
  - apply rknpu_job_next_inv.
    eapply skel_frame_inv; [apply REG_WRITE_skel | done].
Qed.

(** ** Automatic core selection *)

Section selection.
Variable d : rknpu_device.


Let scan (k : nat) : nat * Z := core_index_scan d k.

Lemma scan_S k : scan (S k) = core_index_step d (scan k) (S k).
Proof. unfold scan, core_index_scan. by rewrite seq_S, foldl_app. Qed.

Lemma scan_bound k : (fst (scan k) <= k)%nat.
Proof.
  induction k as [|k IH]; [done|].
  rewrite scan_S. unfold core_index_step.
  destruct (_ <? _); cbn; lia.
Qed.



Lemma rknpu_schedule_core_index_scan :
  rknpu_schedule_core_index d = fst (scan (num_irqs (config d) - 1)).
Proof. reflexivity. Qed.

Lemma rknpu_schedule_core_index_bound :
  (0 < num_irqs (config d))%nat ->
  (rknpu_schedule_core_index d < num_irqs (config d))%nat.
Proof.
  intros H. rewrite rknpu_schedule_core_index_scan.
  pose proof (scan_bound (num_irqs (config d) - 1)). lia.
Qed.
End selection.

(** ** Queueing a new job *)

Lemma enqueue_fold d j b :
  length (subcore_datas d) = RKNPU_MAX_CORES ->
  let d' := foldl (schedule_enqueue j b) d (seq 0 RKNPU_MAX_CORES) in
  config d' = config d /\ jobs d' = jobs d /\ trace d' = trace d /\
  job_seq d' = job_seq d /\ soft_reseting d' = soft_reseting d /\
  length (subcore_datas d') = RKNPU_MAX_CORES /\
  forall c,
    subcore d' c =
      if on_core (core_mask (job_args b)) c && bool_decide (c < RKNPU_MAX_CORES)%nat
      then mk_subcore (todo_list (subcore d c) ++ [j]) (job (subcore d c))
             (s64 (task_num (subcore d c)
                   + rknpu_get_task_number (config d) b c))
      else subcore d c.
Proof.
  intros Hlen. destruct d as [cfg sds sr js sq bufs tr]. cbn in Hlen.
  destruct sds as [|s0 [|s1 [|s2 [|]]]]; try discriminate.
  cbn [seq foldl RKNPU_MAX_CORES]. unfold schedule_enqueue.
  destruct (on_core _ 0) eqn:E0, (on_core _ 1) eqn:E1, (on_core _ 2) eqn:E2;
    unfold subcore, update_subcore; cbn -[rknpu_get_task_number s64].
  all: repeat (split; [done|]).
  all: intros [|[|[|c]]]; cbn -[rknpu_get_task_number s64];
    rewrite ?E0, ?E1, ?E2; try done.
  all: rewrite (bool_decide_eq_false_2 (S (S (S c)) < RKNPU_MAX_CORES)%nat)
    by (unfold RKNPU_MAX_CORES; lia).
  all: by rewrite andb_false_r.
Qed.

Section enqueue.
Variables (d da : rknpu_device) (br : rknpu_job).
Hypothesis Hinv : sched_inv d.
Hypothesis Hcfg : config da = config d.
Hypothesis Hsub : subcore_datas da = subcore_datas d.
Hypothesis Htr : trace da = trace d.
Hypothesis Hseq : job_seq da = S (job_seq d).
Hypothesis Hjobs : jobs da = <[job_seq d := br]> (jobs d).
Hypothesis Hrun : run_count br = over_cores (on_core (core_mask (job_args br))).
Hypothesis Hint :
  interrupt_count br = over_cores (on_core (core_mask (job_args br))).
Hypothesis Hpos : 0 < over_cores (on_core (core_mask (job_args br))).
Hypothesis Hflag : job_done_flag br = false.

Let j := job_seq d.
Let de := foldl (schedule_enqueue j br) da (seq 0 RKNPU_MAX_CORES).

Lemma enqueue_facts :
  config de = config d /\ jobs de = <[j := br]> (jobs d) /\ trace de = trace d /\
  job_seq de = S j /\ length (subcore_datas de) = RKNPU_MAX_CORES /\
  forall c,
    todo_list (subcore de c) =
      (if on_core (core_mask (job_args br)) c && bool_decide (c < RKNPU_MAX_CORES)%nat
       then todo_list (subcore d c) ++ [j] else todo_list (subcore d c)) /\
    job (subcore de c) = job (subcore d c).
Proof.
  destruct (enqueue_fold da j br) as (H1 & H2 & H3 & H4 & H5 & H6 & H7).
  { rewrite Hsub. apply Hinv. }
  fold de in H1, H2, H3, H4, H5, H6, H7.
  split; [congruence|]. split; [by rewrite H2, Hjobs|].
  split; [congruence|]. split; [by rewrite H4, Hseq|]. split; [done|].
  intros c. rewrite H7. unfold subcore. rewrite Hsub.
  by destruct (_ && _).
Qed.

Lemma new_job_unqueued c : j ∉ todo_list (subcore d c).
Proof.
  intros Hin%(inv_todo_job _ Hinv)%(inv_job_seq _ Hinv). unfold j in *. lia.
Qed.

Lemma new_job_idle c : job (subcore d c) <> Some j.
Proof. intros Hin%(inv_run_seq _ Hinv). unfold j in *. lia. Qed.

Lemma new_job_silent e : e ∈ trace d -> sched_event_job e <> Some j.
Proof. intros Hin Hj. pose proof (inv_ev_seq _ Hinv e j Hin Hj). unfold j in *. lia. Qed.

Lemma enqueue_queued_new c :
  (c < RKNPU_MAX_CORES)%nat ->
  queued de j c = on_core (core_mask (job_args br)) c.
Proof.
  intros Hc. destruct enqueue_facts as (_ & _ & _ & _ & _ & Hsc).
  destruct (Hsc c) as [Ht _]. unfold queued. rewrite Ht.
  rewrite (bool_decide_eq_true_2 _ Hc), andb_true_r.
  destruct (on_core _ c).
  - apply bool_decide_eq_true. rewrite elem_of_app, list_elem_of_singleton. by right.
  - apply bool_decide_eq_false. apply new_job_unqueued.
Qed.

Lemma enqueue_queued_old j' c : j' <> j -> queued de j' c = queued d j' c.
Proof.
  intros Hne. destruct enqueue_facts as (_ & _ & _ & _ & _ & Hsc).
  destruct (Hsc c) as [Ht _]. unfold queued. rewrite Ht.
  destruct (_ && _); [|done]. apply bool_decide_ext.
  rewrite elem_of_app, list_elem_of_singleton. naive_solver.
Qed.

Lemma enqueue_running j' c : running de j' c = running d j' c.
Proof.
  destruct enqueue_facts as (_ & _ & _ & _ & _ & Hsc).
  destruct (Hsc c) as [_ Hjb]. unfold running. by rewrite Hjb.
Qed.

Lemma enqueue_started j' c : started de j' c = started d j' c.
Proof.
  destruct enqueue_facts as (_ & _ & Ht & _). unfold started. by rewrite Ht.
Qed.

Lemma new_job_not_running c : running d j c = false.
Proof. apply bool_decide_eq_false, new_job_idle. Qed.

Lemma new_job_not_started c : started d j c = false.
Proof.
  apply bool_decide_eq_false. intros Hin. by apply (new_job_silent _ Hin).
Qed.

Lemma new_job_no_wakes : wakes_of j (trace d) = [].
Proof.
  destruct (wakes_of j (trace d)) as [|wq l] eqn:E; [done|]. exfalso.
  assert (Hin : wq ∈ wakes_of j (trace d)) by (rewrite E; left).
  unfold wakes_of in Hin. apply list_elem_of_omap in Hin as (e & He & Hj).
  destruct e; try done. case_bool_decide; [subst|done].
  by apply (new_job_silent _ He).
Qed.

Lemma enqueue_inv : sched_inv de.
Proof.
  destruct enqueue_facts as (Hc & Hj & Ht & Hs & Hl & Hsc).
  assert (Hlook : forall j', jobs de !! j' =
            if decide (j' = j) then Some br else jobs d !! j').
  { intros j'. rewrite Hj, lookup_insert. repeat case_decide; naive_solver. }
  split.
  - done.
  - rewrite Hc. apply Hinv.
  - intros c. destruct (Hsc c) as [-> _]. destruct (_ && _); [|apply Hinv].
    apply NoDup_app. split; [apply Hinv|]. split; [|apply NoDup_singleton].
    intros x Hx Hx'%list_elem_of_singleton. subst x. by apply (new_job_unqueued c).
  - intros c j'. destruct (Hsc c) as [-> _]. rewrite Hlook.
    destruct (decide (j' = j)); [done|]. intros Hin.
    apply (inv_todo_job _ Hinv c). destruct (_ && _); [|done].
    apply elem_of_app in Hin as [|Hin%list_elem_of_singleton]; done.
  - intros j'. rewrite Hlook, Hs. destruct (decide (j' = j)); [subst; lia|].
    intros Hin%(inv_job_seq _ Hinv). lia.
  - intros c j'. destruct (Hsc c) as [_ ->]. rewrite Hs.
    intros Hin%(inv_run_seq _ Hinv). lia.
  - intros e j'. rewrite Ht, Hs. intros He Hj'.
    pose proof (inv_ev_seq _ Hinv e j' He Hj'). lia.
  - intros c j'. destruct (Hsc c) as [-> ->]. intros Hr.
    pose proof (inv_excl _ Hinv c j' Hr) as Hex.
    destruct (_ && _); [|done].
    rewrite elem_of_app, list_elem_of_singleton. intros [|Heq]; [done|].
    subst j'. by apply (new_job_idle c).
  - intros j' b'. rewrite Hlook. case_decide.
    + subst j'. intros [= <-]. rewrite Hrun. apply over_cores_ext.
      intros c Hcc. by rewrite enqueue_queued_new.
    + intros Hb'. rewrite (inv_run_count _ Hinv j' b' Hb').
      apply over_cores_ext. intros. by rewrite enqueue_queued_old.
  - intros j' b'. rewrite Hlook. case_decide.
    + subst j'. intros [= <-]. rewrite Hint. apply over_cores_ext.
      intros c Hcc.
      by rewrite enqueue_queued_new, enqueue_running, new_job_not_running, orb_false_r.
    + intros Hb'. rewrite (inv_int_count _ Hinv j' b' Hb').
      apply over_cores_ext. intros.
      by rewrite enqueue_queued_old, enqueue_running.
  - intros j' b' c. rewrite Hlook. case_decide.
    + subst j'. intros [= <-] Hcc.
      by rewrite enqueue_queued_new, enqueue_started, new_job_not_started, orb_false_r.
    + intros Hb' Hcc. rewrite enqueue_queued_old, enqueue_started by done.
      by apply (inv_part _ Hinv).
  - intros j' c. rewrite enqueue_started. destruct (decide (j' = j)) as [->|].
    + by rewrite new_job_not_started, andb_false_r.
    + rewrite enqueue_queued_old by done. apply Hinv.
  - intros j' b'. rewrite Hlook. case_decide.
    + subst j'. intros [= <-]. rewrite Hflag. symmetry.
      apply bool_decide_eq_false. lia.
    + apply (inv_done _ Hinv).
  - intros j' b'. rewrite Hlook, Ht. case_decide.
    + subst j'. intros [= <-]. by rewrite Hflag, new_job_no_wakes.
    + apply (inv_wake _ Hinv).
Qed.
End enqueue.

(** ** Scheduling a new job *)

Lemma small_mask_cases m :
  0 <= m <= 7 ->
  m = 0 \/ m = 1 \/ m = 2 \/ m = 3 \/ m = 4 \/ m = 5 \/ m = 6 \/ m = 7.
Proof. lia. Qed.

(** The counters [rknpu_job_alloc] sets are the number of selected cores. *)
Lemma alloc_count m :
  0 <= m <= 7 ->
  s32 (Z.land m RKNPU_CORE0_MASK
       + Z.shiftr (Z.land m RKNPU_CORE1_MASK) 1
       + Z.shiftr (Z.land m RKNPU_CORE2_MASK) 2)
  = over_cores (on_core m).
Proof.
  intros H. destruct (small_mask_cases m H) as [->|[->|[->|[->|[->|[->|[->| ->]]]]]]];
    reflexivity.
Qed.

Lemma manual_mask_cores m : 1 <= m <= 7 -> 0 < over_cores (on_core m).
Proof.
  intros H.
  destruct (small_mask_cases m ltac:(lia)) as [->|[->|[->|[->|[->|[->|[->| ->]]]]]]];
    (lia || reflexivity).
Qed.

Lemma auto_mask_cores k :
  (k < RKNPU_MAX_CORES)%nat -> over_cores (on_core (rknpu_core_mask k)) = 1.
Proof. unfold RKNPU_MAX_CORES. intros H. by destruct k as [|[|[|k]]]; [..|lia]. Qed.

Lemma schedule_kick_inv mask l d :
  sched_inv d -> sched_inv (foldl (schedule_kick mask) d l).
Proof.
  revert d. induction l as [|i l IH]; intros d Hinv; [done|].
  cbn [foldl]. apply IH. unfold schedule_kick.
  destruct (on_core mask i); [by apply rknpu_job_next_inv | done].
Qed.

Lemma rknpu_job_schedule_inv d d1 b1 :
  sched_inv d ->
  config d1 = config d -> subcore_datas d1 = subcore_datas d ->
  trace d1 = trace d -> job_seq d1 = S (job_seq d) ->
  jobs d1 = <[job_seq d := b1]> (jobs d) ->
  0 <= core_mask (job_args b1) <= 7 ->
  run_count b1 = over_cores (on_core (core_mask (job_args b1))) ->
  interrupt_count b1 = over_cores (on_core (core_mask (job_args b1))) ->
  job_done_flag b1 = false ->
  sched_inv (rknpu_job_schedule d1 (job_seq d)).
Proof.
  intros Hinv Hcfg Hsub Htr Hseq Hjobs Hmask Hrun Hint Hflag.
  unfold rknpu_job_schedule, schedule_resolve.
  rewrite Hjobs, lookup_insert_eq.
  assert (Hirq : num_irqs (config d1) = RKNPU_MAX_CORES)
    by (rewrite Hcfg; apply Hinv).
  destruct (core_mask (job_args b1) =? RKNPU_CORE_AUTO_MASK) eqn:Eauto.
  - set (k := rknpu_schedule_core_index d1).
    assert (Hk : (k < RKNPU_MAX_CORES)%nat).
    { rewrite <- Hirq. apply rknpu_schedule_core_index_bound.
      rewrite Hirq. unfold RKNPU_MAX_CORES. lia. }
    set (f := fun b => set_counts 1 (set_job_args (set_core_mask (rknpu_core_mask k) (job_args b)) b)).
    assert (Hj2 : jobs (update_job (job_seq d) f d1) = <[job_seq d := f b1]> (jobs d)).
    { cbn. rewrite Hjobs. apply map_eq. intros i.
      rewrite lookup_alter, !lookup_insert. repeat case_decide; naive_solver. }
    rewrite Hj2, lookup_insert_eq.
    cbn [config update_job set_jobs]. rewrite Hirq.
    apply schedule_kick_inv.
    apply (enqueue_inv d (update_job (job_seq d) f d1) (f b1)); try done.
    all: cbn; rewrite ?auto_mask_cores by done; (done || lia).
  - apply Z.eqb_neq in Eauto. unfold RKNPU_CORE_AUTO_MASK in Eauto.
    rewrite Hjobs, lookup_insert_eq. rewrite Hirq.
    apply schedule_kick_inv.
    apply (enqueue_inv d d1 b1); try done.
    apply manual_mask_cores. lia.
Qed.

Lemma dev_init_inv cfg bufs :
  num_irqs cfg = RKNPU_MAX_CORES -> sched_inv (dev_init cfg bufs).
Proof.
  intros Hirq.
  assert (Hsub : forall c, subcore (dev_init cfg bufs) c = mk_subcore [] None 0).
  { intros [|[|[|c]]]; reflexivity. }
  assert (Hjobs : forall j, jobs (dev_init cfg bufs) !! j = None)
    by (intros j; apply lookup_empty).
  split; try done; intros;
    rewrite ?Hjobs in *; unfold queued; rewrite ?Hsub in *; cbn [todo_list job] in *;
    try done; try (by constructor); try (by destruct_and?; set_solver).
Qed.

Lemma submit_valid_mask cfg args :
  cfg_core_mask cfg = 7 -> args_wf args -> submit_valid cfg args = true ->
  0 <= core_mask args <= 7 /\ task_number args <> 0.
Proof.
  intros Hcap (Hm & _ & _). unfold submit_valid. rewrite Hcap.
  intros [H1 H2]%andb_true_iff.
  apply negb_true_iff, Z.eqb_neq in H1. apply negb_true_iff, Z.ltb_ge in H2. lia.
Qed.

Lemma land_lor_async f :
  Z.land f RKNPU_JOB_DONE = 0 ->
  Z.land (Z.lor f RKNPU_JOB_ASYNC) RKNPU_JOB_DONE = 0.
Proof.
  intros H. unfold RKNPU_JOB_DONE, RKNPU_JOB_ASYNC in *.
  rewrite Z.land_lor_distr_l, H. reflexivity.
Qed.

Lemma sched_apply_inv d s :
  cfg_core_mask (config d) = 7 -> step_wf s ->
  sched_inv d -> sched_inv (sched_apply d s).
Proof.
  intros Hcap Hwf Hinv. destruct s as [args|c status]; cbn [sched_apply].
  - destruct (submit_valid _ _) eqn:Hvalid; [|done].
    destruct (submit_valid_mask _ _ Hcap Hwf Hvalid) as [Hm Ht].
    unfold rknpu_job_alloc. cbn [negb].
    destruct (Z.land (flags args) RKNPU_JOB_NONBLOCK =? 0) eqn:Eblock; cbn zeta.
    + eapply rknpu_job_schedule_inv; try done; cbn; try done;
        by rewrite alloc_count.
    + eapply rknpu_job_schedule_inv; try done; cbn.
      * apply alter_insert_eq.
      * done.
      * by rewrite alloc_count.
      * by rewrite alloc_count.
      * done.
  - by apply rknpu_irq_handler_inv.
Qed.

(** The configuration is never written. *)
Lemma rknpu_job_next_config d c : config (rknpu_job_next d c) = config d.
Proof.
  rewrite rknpu_job_next_unfold.
  repeat (match goal with |- context [match ?x with _ => _ end] => destruct x end);
    try done.
  by rewrite (cf_config _ _ (rknpu_job_commit_frame _ _)).
Qed.

Lemma completed_config d j ret c b : config (completed d j ret c b) = config d.
Proof.
  unfold completed, finish_job. cbn zeta.
  repeat (match goal with |- context [if ?x then _ else _] => destruct x end);
    reflexivity.
Qed.

Lemma rknpu_job_done_config d j ret c :
  config (rknpu_job_done d j ret c) = config d.
Proof.
  rewrite rknpu_job_done_unfold. destruct (jobs d !! j); [|done]. cbn zeta.
  destruct (_ <? _).
  - by rewrite (cf_config _ _ (rknpu_job_subcore_commit_frame _ _ _)).
  - by rewrite rknpu_job_next_config, completed_config.
Qed.

Lemma rknpu_irq_handler_config d c status :
  config (rknpu_irq_handler d c status) = config d.
Proof.
  unfold rknpu_irq_handler. destruct (job (subcore d c)).
  - destruct (jobs _ !! _); [|done]. destruct (_ =? _); [|done].
    by rewrite rknpu_job_done_config.
  - by rewrite rknpu_job_next_config.
Qed.

Lemma schedule_enqueue_config j b l d :
  config (foldl (schedule_enqueue j b) d l) = config d.
Proof.
  revert d. induction l as [|i l IH]; intros d; [done|].
  cbn [foldl]. rewrite IH. unfold schedule_enqueue. by destruct (on_core _ _).
Qed.

Lemma schedule_kick_config mask l d :
  config (foldl (schedule_kick mask) d l) = config d.
Proof.
  revert d. induction l as [|i l IH]; intros d; [done|].
  cbn [foldl]. rewrite IH. unfold schedule_kick.
  destruct (on_core _ _); [apply rknpu_job_next_config | done].
Qed.

Lemma rknpu_job_schedule_config d j : config (rknpu_job_schedule d j) = config d.
Proof.
  unfold rknpu_job_schedule.
  assert (Hr : config (schedule_resolve d j) = config d).
  { unfold schedule_resolve. destruct (jobs d !! j); [|done]. by destruct (_ =? _). }
  destruct (jobs (schedule_resolve d j) !! j); [|done].
  by rewrite schedule_kick_config, schedule_enqueue_config.
Qed.

Lemma sched_apply_config d s : config (sched_apply d s) = config d.
Proof.
  destruct s as [args|c status]; cbn [sched_apply].
  - destruct (submit_valid _ _); [|done].
    unfold rknpu_job_alloc. cbn [negb].
    destruct (_ =? 0); cbn zeta; by rewrite rknpu_job_schedule_config.
  - apply rknpu_irq_handler_config.
Qed.

Lemma sched_run_config steps d : config (sched_run d steps) = config d.
Proof.
  revert d. induction steps as [|s steps IH]; intros d; [done|].
  cbn. unfold sched_run in IH. by rewrite IH, sched_apply_config.
Qed.

(** Every state the scheduler reaches keeps its books. *)
Lemma sched_run_inv steps d :
  cfg_core_mask (config d) = 7 -> Forall step_wf steps ->
  sched_inv d -> sched_inv (sched_run d steps).
Proof.
  revert d. induction steps as [|s steps IH]; intros d Hcap Hwf Hinv; [done|].
  apply Forall_cons in Hwf as [Hs Hwf]. cbn. apply IH; [|done|].
  - by rewrite sched_apply_config.
  - by apply sched_apply_inv.
Qed.

(** ** A commit touches one job only *)

Lemma rknpu_job_subcore_commit_pc_other d j c j' :
  j' <> j -> jobs (rknpu_job_subcore_commit_pc d j c) !! j' = jobs d !! j'.
Proof.
  intros Hne. unfold rknpu_job_subcore_commit_pc.
  destruct (jobs d !! j) as [b|]; [|done].
  destruct (task_obj_addr (job_args b) =? 0).
  { cbn. by rewrite lookup_alter_ne. }
  destruct (commit_range _ _ _ _) as [ts tn].
  destruct (_ && _); cbn; by rewrite lookup_alter_ne.
Qed.

Lemma rknpu_job_subcore_commit_other d j c j' :
  j' <> j -> jobs (rknpu_job_subcore_commit d j c) !! j' = jobs d !! j'.
Proof.
  intros Hne. unfold rknpu_job_subcore_commit.
  destruct (jobs d !! j) as [b|]; [|done].
  destruct (_ =? 0).
  - cbn. by rewrite lookup_alter_ne.
  - by rewrite rknpu_job_subcore_commit_pc_other.
Qed.

Lemma rknpu_job_commit_other d j j' :
  j' <> j -> jobs (rknpu_job_commit d j) !! j' = jobs d !! j'.
Proof.
  intros Hne. unfold rknpu_job_commit.
  destruct (jobs d !! j) as [b|]; [|done].
  repeat (match goal with |- context [if ?x then _ else _] => destruct x end);
    by rewrite ?rknpu_job_subcore_commit_other.
Qed.

(** ** What starting a job leaves alone *)

Lemma commit_rel_done b b' : commit_rel b b' -> done_rel b b'.
Proof. intros []. by split. Qed.

Lemma wakes_of_frame d d' j :
  (exists evs, trace d' = trace d ++ evs /\ Forall hw_event evs) ->
  wakes_of j (trace d') = wakes_of j (trace d).
Proof.
  intros (evs & -> & Hevs). rewrite wakes_of_app, (wakes_of_hw _ _ Hevs).
  apply app_nil_r.
Qed.

Lemma rknpu_job_next_keeps d c j b :
  jobs d !! j = Some b ->
  (exists b', jobs (rknpu_job_next d c) !! j = Some b' /\ done_rel b b' /\
     (j ∉ todo_list (subcore d c) -> b' = b)) /\
  wakes_of j (trace (rknpu_job_next d c)) = wakes_of j (trace d).
Proof.
  intros Hjob. rewrite rknpu_job_next_unfold.
  assert (Hid : (exists b', jobs d !! j = Some b' /\ done_rel b b' /\
                   (j ∉ todo_list (subcore d c) -> b' = b)) /\
                wakes_of j (trace d) = wakes_of j (trace d)).
  { split; [|done]. exists b. split; [done|]. split; [by split | done]. }
  destruct (soft_reseting d); [done|].
  destruct (job (subcore d c)); [done|].
  destruct (todo_list (subcore d c)) as [|h rest] eqn:Htodo; [done|]. clear Hid.
  assert (Hw : forall b0, wakes_of j (trace (popped d c h rest b0)) = wakes_of j (trace d)).
  { intros b0. unfold popped.
    cbn [trace update_job set_jobs emit update_subcore set_subcore_datas].
    rewrite wakes_of_app. cbn. by rewrite app_nil_r. }
  assert (Hp : forall b0, jobs d !! h = Some b0 ->
             exists b', jobs (popped d c h rest b0) !! j = Some b' /\ done_rel b b' /\
               (j <> h -> b' = b)).
  { intros b0 Hb0. unfold popped. cbn. rewrite lookup_alter. case_decide.
    - subst h. rewrite Hjob. cbn. eexists. split; [done|]. split; [by split | done].
    - rewrite Hjob. exists b. split; [done|]. split; [by split | done]. }
  destruct (jobs d !! h) as [b0|] eqn:Hh.
  - destruct (Hp b0 eq_refl) as (b1 & Hb1 & Hrel & Hsame).
    destruct (_ =? 0).
    + pose proof (rknpu_job_commit_frame (popped d c h rest b0) h) as F.
      split.
      * pose proof (cf_jobs _ _ F j) as Hj. rewrite Hb1 in Hj.
        destruct (jobs (rknpu_job_commit (popped d c h rest b0) h) !! j)
          as [b2|] eqn:Hb2; [|by inversion Hj].
        assert (Hcr : commit_rel b1 b2) by (by inversion Hj).
        exists b2. split; [done|]. split.
        -- apply commit_rel_done in Hcr. destruct Hrel, Hcr. split; congruence.
        -- intros Hnin. assert (Hne : j <> h) by (intros ->; apply Hnin; left).
           rewrite rknpu_job_commit_other in Hb2 by done.
           rewrite Hb1 in Hb2. injection Hb2 as <-. by apply Hsame.
      * rewrite (wakes_of_frame _ _ j (cf_trace _ _ F)). apply Hw.
    + split; [|apply Hw]. exists b1. split; [done|]. split; [done|].
      intros Hnin. apply Hsame. intros ->. apply Hnin. left.
  - split.
    + exists b. cbn. split; [done|]. split; [by split | done].
    + cbn [trace emit update_subcore set_subcore_datas].
      rewrite wakes_of_app. cbn. by rewrite app_nil_r.
Qed.

(** What one call of [rknpu_job_done] does to the job it is called for. *)
Lemma rknpu_job_done_effect d j ret c b :
  jobs d !! j = Some b ->
  exists b', jobs (rknpu_job_done d j ret c) !! j = Some b' /\
    let wakes := wakes_of j (trace d) in
    let wakes' := wakes_of j (trace (rknpu_job_done d j ret c)) in
    if atomic_inc (submit_count b !!! c) <? commit_rounds (config d) b c
    then
      interrupt_count b' = interrupt_count b /\ job_flags b' = job_flags b /\
      wakes' = wakes
    else
      interrupt_count b' = atomic_dec (interrupt_count b) /\
      if atomic_dec (interrupt_count b) =? 0 then
        job_flags b' = Z.lor (job_flags b) RKNPU_JOB_DONE /\
        wakes' = wakes ++ [if 1 <? use_core_num b then 0%nat else c] /\
        (j ∉ todo_list (subcore d c) -> job_ret b' = ret)
      else job_flags b' = job_flags b /\ wakes' = wakes.
Proof.
  intros Hjob. rewrite rknpu_job_done_unfold, Hjob. cbn zeta.
  set (sc := atomic_inc _). set (bs := set_submit_count _ b).
  set (ds := update_job j _ d).
  assert (Hbs : jobs ds !! j = Some bs).
  { unfold ds. cbn. by rewrite lookup_alter_eq, Hjob. }
  assert (Hws : wakes_of j (trace ds) = wakes_of j (trace d)) by done.
  destruct (_ <? _).
  - pose proof (rknpu_job_subcore_commit_frame ds j c) as F.
    pose proof (cf_jobs _ _ F j) as Hj. rewrite Hbs in Hj.
    destruct (jobs (rknpu_job_subcore_commit ds j c) !! j) as [b2|];
      [|by inversion Hj].
    assert (Hcr : commit_rel bs b2) by (by inversion Hj).
    exists b2. split; [done|]. destruct Hcr.
    rewrite (wakes_of_frame _ _ j (cf_trace _ _ F)). by repeat split.
  - pose proof (completed_jobs ds c j ret bs j Hbs) as Hcj.
    rewrite decide_True in Hcj by done.
    destruct (rknpu_job_next_keeps _ c j _ Hcj) as [(b' & Hb' & Hrel & Hsame) Hw].
    exists b'. split; [done|]. rewrite Hw, completed_wakes, decide_True by done.
    destruct Hrel as [Ha Hc Hi Hs Hf].
    rewrite completed_todo in Hsame.
    unfold completed_job in *. cbn [interrupt_count use_core_num job_flags] in *.
    fold bs in Ha, Hc, Hi, Hs, Hf, Hsame.
    change (interrupt_count bs) with (interrupt_count b) in *.
    change (use_core_num bs) with (use_core_num b) in *.
    change (job_flags bs) with (job_flags b) in *.
    destruct (atomic_dec (interrupt_count b) =? 0) eqn:E.
    + cbn in Hi, Hf. split; [done|]. split; [done|]. split; [done|].
      intros Hnin. by rewrite (Hsame Hnin).
    + cbn in Hi, Hf. rewrite app_nil_r. by repeat split.
Qed.

(** ** What a commit writes *)

Lemma commits_of_app j c l1 l2 :
  commits_of j c (l1 ++ l2) = commits_of j c l1 ++ commits_of j c l2.
Proof. apply omap_app. Qed.





Lemma commit_event_hw j c e : commit_event j c e -> hw_event e.
Proof. by destruct e. Qed.



(** The commit of one batch in PC mode. *)
Lemma rknpu_job_subcore_commit_spec d j c b ts tn :
  jobs d !! j = Some b ->
  Z.land (flags (job_args b)) RKNPU_JOB_PC <> 0 ->
  task_obj_addr (job_args b) <> 0 ->
  commit_range (config d) b c (submit_count b !!! c) = (ts, tn) ->
  let te := s32 (ts + tn - 1) in
  let d' := rknpu_job_subcore_commit d j c in
  jobs d' !! j
  = Some (set_committed ts te c
            (int_mask (task_at d (task_obj_addr (job_args b)) te)) b) /\
  commits_of j c (trace d') = commits_of j c (trace d) ++ [(ts, tn)].
Proof.
  intros Hjob Hpc Hobj Hrange. cbn zeta. unfold rknpu_job_subcore_commit.
  rewrite Hjob. apply Z.eqb_neq in Hpc, Hobj. rewrite Hpc.
  unfold rknpu_job_subcore_commit_pc.
  change (jobs (REG_WRITE c 1 RKNPU_OFFSET_PC_DATA_ADDR d) !! j) with (jobs d !! j).
  rewrite Hjob, Hobj.
  change (config (REG_WRITE c 1 RKNPU_OFFSET_PC_DATA_ADDR d)) with (config d).
  rewrite Hrange.
  destruct (_ && _);
    cbn [jobs trace update_job set_jobs emit REG_WRITE update_subcore
         set_subcore_datas];
    (split; [by rewrite lookup_alter_eq, Hjob|]);
    rewrite !commits_of_app; cbn; rewrite bool_decide_eq_true_2 by done;
    by rewrite ?app_nil_r.
Qed.

(** ** The static part of the device *)

#[local] Instance static_frame_refl : Reflexive static_frame.
Proof. by split. Qed.

#[local] Instance static_frame_trans : Transitive static_frame.
Proof. intros d1 d2 d3 [C1 R1 S1] [C2 R2 S2]. split; congruence. Qed.

Lemma commit_frame_static d d' : commit_frame d d' -> static_frame d d'.
Proof. intros F. split; apply F. Qed.

Lemma rknpu_job_next_static d c : static_frame d (rknpu_job_next d c).
Proof.
  rewrite rknpu_job_next_unfold.
  repeat (match goal with |- context [match ?x with _ => _ end] => destruct x end);
    try done.
  etrans; [|apply commit_frame_static, rknpu_job_commit_frame]. done.
Qed.

Lemma completed_static d j ret c b : static_frame d (completed d j ret c b).
Proof.
  unfold completed, finish_job. cbn zeta.
  repeat (match goal with |- context [if ?x then _ else _] => destruct x end);
    done.
Qed.

Lemma rknpu_job_done_static d j ret c : static_frame d (rknpu_job_done d j ret c).
Proof.
  rewrite rknpu_job_done_unfold. destruct (jobs d !! j); [|done]. cbn zeta.
  destruct (_ <? _).
  - etrans; [|apply commit_frame_static, rknpu_job_subcore_commit_frame]. done.
  - etrans; [|apply rknpu_job_next_static]. etrans; [|apply completed_static]. done.
Qed.

Lemma rknpu_irq_handler_static d c status :
  static_frame d (rknpu_irq_handler d c status).
Proof.
  unfold rknpu_irq_handler. destruct (job (subcore d c)).
  - destruct (jobs _ !! _); [|done]. destruct (_ =? _); [|done].
    etrans; [|apply rknpu_job_done_static]. done.
  - etrans; [|apply rknpu_job_next_static]. done.
Qed.


Lemma foldl_static {A} (f : rknpu_device -> A -> rknpu_device) l d :
  (forall d a, static_frame d (f d a)) -> static_frame d (foldl f d l).
Proof.
  intros Hf. revert d. induction l as [|a l IH]; intros d; [done|].
  cbn. etrans; [apply Hf | apply IH].
Qed.

Lemma rknpu_job_schedule_static d j : static_frame d (rknpu_job_schedule d j).
Proof.
  unfold rknpu_job_schedule.
  assert (Hr : static_frame d (schedule_resolve d j)).
  { unfold schedule_resolve. destruct (jobs d !! j); [|done]. by destruct (_ =? _). }
  destruct (jobs (schedule_resolve d j) !! j); [|done].
  etrans; [apply Hr|]. etrans; [|apply foldl_static].
  - apply foldl_static. intros d0 i. unfold schedule_enqueue.
    by destruct (on_core _ _).
  - intros d0 i. unfold schedule_kick.
    destruct (on_core _ _); [apply rknpu_job_next_static | done].
Qed.




Lemma sched_apply_reset d s : soft_reseting (sched_apply d s) = soft_reseting d.
Proof.
  destruct s as [args|c status]; cbn [sched_apply].
  - destruct (submit_valid _ _); [|done].
    unfold rknpu_job_alloc. cbn [negb].
    destruct (_ =? 0); cbn zeta; by rewrite (st_reset _ _ (rknpu_job_schedule_static _ _)).
  - apply rknpu_irq_handler_static.
Qed.

Lemma sched_run_reset steps d : soft_reseting (sched_run d steps) = soft_reseting d.
Proof.
  revert d. induction steps as [|s steps IH]; intros d; [done|].
  cbn. unfold sched_run in IH. by rewrite IH, sched_apply_reset.
Qed.

Lemma sched_run_reachable cfg bufs steps :
  num_irqs cfg = RKNPU_MAX_CORES -> cfg_core_mask cfg = 7 ->
  Forall step_wf steps ->
  sched_inv (sched_run (dev_init cfg bufs) steps) /\
  soft_reseting (sched_run (dev_init cfg bufs) steps) = false /\
  config (sched_run (dev_init cfg bufs) steps) = cfg.
Proof.
  intros Hn Hcap Hwf. split; [|split].
  - apply sched_run_inv; [done|done|by apply dev_init_inv].
  - by rewrite sched_run_reset.
  - by rewrite sched_run_config.
Qed.

(** ** Allocation *)

Lemma rknpu_job_alloc_job d args jm am j d' :
  rknpu_job_alloc d args jm am = (Some j, d') ->
  j = job_seq d /\ job_seq d' = S (job_seq d) /\
  exists b, jobs d' !! j = Some b /\ job_args b = args /\
    let n := s32 (Z.land (core_mask args) RKNPU_CORE0_MASK
                  + Z.shiftr (Z.land (core_mask args) RKNPU_CORE1_MASK) 1
                  + Z.shiftr (Z.land (core_mask args) RKNPU_CORE2_MASK) 2) in
    use_core_num b = n /\ run_count b = n /\ interrupt_count b = n /\
    job_flags b = 0 /\ last_task b = None /\
    submit_count b = replicate RKNPU_MAX_CORES 0 /\
    job_int_mask b = replicate RKNPU_MAX_CORES 0.
Proof.
  unfold rknpu_job_alloc. destruct jm; cbn [negb]; [|by intros [= ]].
  destruct (_ =? 0); [|destruct am; cbn [negb]; [|by intros [= ]]].
  all: intros [= <- <-]; cbn; rewrite lookup_insert_eq;
    repeat split; eexists; by repeat split.
Qed.

(** ** The commit dispatch *)




(** ** Batch arithmetic *)







(** ** Completion of a round that is not the last *)

Section recommit.
Variables (d : rknpu_device) (j : job_id) (c : nat) (b : rknpu_job).
Variables (first number k ret : Z).
Let m := batch_limit (config d).
Hypothesis Hc : (c < RKNPU_MAX_CORES)%nat.
Hypothesis Hjob : jobs d !! j = Some b.
Hypothesis Hrange : core_task_range (config d) b c = (first, number).
Hypothesis Hpc : Z.land (flags (job_args b)) RKNPU_JOB_PC <> 0.
Hypothesis Hobj : task_obj_addr (job_args b) <> 0.
Hypothesis Hlen : length (submit_count b) = RKNPU_MAX_CORES.
Hypothesis Hround : submit_count b !!! c = k.
Hypothesis Hm : 0 < m.
Hypothesis Hnum : 0 < number.
Hypothesis Hmax : number + m <= INT_MAX.
Hypothesis Hfirst : 0 <= first.
Hypothesis Hlast : first + number - 1 <= INT_MAX.
Hypothesis Hk : 0 <= k.
Hypothesis Hmore : k + 1 < (number + m - 1) / m.



End recommit.

(** ** Commits are about one job *)







(** ** Rounds driven by interrupts *)




(** ** The running slot *)









(** ** Where scheduling puts a job *)





Lemma schedule_kick_args mask l d j b :
  jobs d !! j = Some b ->
  exists b', jobs (foldl (schedule_kick mask) d l) !! j = Some b' /\
    job_args b' = job_args b /\ use_core_num b' = use_core_num b.
Proof.
  revert d b. induction l as [|i l IH]; intros d b Hjob; [by exists b|].
  cbn [foldl]. unfold schedule_kick at 2. destruct (on_core mask i).
  - destruct (rknpu_job_next_keeps d i j b Hjob) as [(b1 & Hb1 & Hrel & _) _].
    destruct (IH _ _ Hb1) as (b' & Hb' & Ha & Hu). exists b'.
    destruct Hrel. split; [done|]. split; congruence.
  - by apply IH.
Qed.


(** An idle core with a waiting job starts the head of its queue. *)
Lemma rknpu_job_next_starts d c h rest :
  soft_reseting d = false -> job (subcore d c) = None ->
  todo_list (subcore d c) = h :: rest ->
  subcore (rknpu_job_next d c) c
  = mk_subcore rest (Some h) (task_num (subcore d c)) /\
  exists evs, trace (rknpu_job_next d c) = trace d ++ EvStart c h :: evs.
Proof.
  intros Hrst Hidle Htodo. rewrite rknpu_job_next_unfold, Hrst, Hidle, Htodo.
  assert (Hin : (c < length (subcore_datas d))%nat).
  { destruct (decide (c < length (subcore_datas d))%nat); [done|].
    rewrite subcore_out_of_range in Htodo by lia. done. }
  assert (Hp : forall b0, subcore (popped d c h rest b0) c
                          = mk_subcore rest (Some h) (task_num (subcore d c))).
  { intros b0. unfold popped.
    change (subcore (update_job h _ (emit _ ?x)) c) with (subcore x c).
    by rewrite subcore_update_subcore, decide_True. }
  destruct (jobs d !! h) as [b0|].
  - destruct (_ =? 0).
    + pose proof (rknpu_job_commit_frame (popped d c h rest b0) h) as F.
      split; [unfold subcore; rewrite (cf_subcores _ _ F); apply Hp|].
      destruct (cf_trace _ _ F) as (evs & -> & _). exists evs.
      unfold popped. cbn [trace update_job set_jobs emit update_subcore set_subcore_datas].
      by rewrite <- app_assoc.
    + split; [apply Hp|]. by exists [].
  - split; [|by exists []].
    change (subcore (emit _ ?x) c) with (subcore x c).
    by rewrite subcore_update_subcore, decide_True.
Qed.

(** ** Validation of a submission *)


Lemma rknpu_job_alloc_cases d args jm am :
  (rknpu_job_alloc d args jm am = (None, d) /\
   (jm = false \/ (Z.land (flags args) RKNPU_JOB_NONBLOCK <> 0 /\ am = false))) \/
  (exists d', rknpu_job_alloc d args jm am = (Some (job_seq d), d') /\
     (jm = true /\ (Z.land (flags args) RKNPU_JOB_NONBLOCK <> 0 -> am = true))).
Proof.
  unfold rknpu_job_alloc. destruct jm; cbn [negb]; [|left; by split; [|left]].
  destruct (Z.eqb_spec (Z.land (flags args) RKNPU_JOB_NONBLOCK) 0) as [E|E].
  - right. eexists. split; [done|]. split; [done|]. by intros.
  - destruct am; cbn [negb].
    + right. eexists. by split.
    + left. split; [done|]. by right.
Qed.


(** ** Jobs the commit dispatch has no case for *)








Lemma schedule_enqueue_jobs j b l : forall d,
  jobs (foldl (schedule_enqueue j b) d l) = jobs d.
Proof.
  induction l as [|i l IH]; intros d; [done|].
  cbn [foldl]. rewrite IH. unfold schedule_enqueue. by destruct (on_core _ _).
Qed.




(** ** The argument block of a job *)

Lemma rknpu_job_done_args d h ret c j b :
  jobs d !! j = Some b ->
  exists b', jobs (rknpu_job_done d h ret c) !! j = Some b' /\
    job_args b' = job_args b.
Proof.
  intros Hjob. rewrite rknpu_job_done_unfold.
  destruct (jobs d !! h) as [bh|] eqn:Hh; [|by exists b]. cbn zeta.
  set (ds := update_job h _ d).
  assert (Hds : exists b1, jobs ds !! j = Some b1 /\ job_args b1 = job_args b).
  { unfold ds. cbn. rewrite lookup_alter. case_decide; [subst h|].
    - rewrite Hjob. cbn. by eexists.
    - by exists b. }
  destruct Hds as (b1 & Hb1 & Ha1).
  assert (Hdh : jobs ds !! h = Some (set_submit_count
            (<[c := atomic_inc (submit_count bh !!! c)]> (submit_count bh)) bh)).
  { unfold ds. cbn. by rewrite lookup_alter_eq, Hh. }
  destruct (_ <? _).
  - pose proof (cf_jobs _ _ (rknpu_job_subcore_commit_frame ds h c) j) as H.
    rewrite Hb1 in H.
    destruct (jobs (rknpu_job_subcore_commit ds h c) !! j) as [b2|]; [|by inversion H].
    assert (Hcr : commit_rel b1 b2) by (by inversion H).
    exists b2. split; [done|]. destruct Hcr. congruence.
  - pose proof (completed_jobs ds c h ret _ j Hdh) as Hc.
    assert (Hc' : exists b2, jobs (completed ds h ret c
                     (set_submit_count
                        (<[c := atomic_inc (submit_count bh !!! c)]> (submit_count bh))
                        bh)) !! j = Some b2 /\ job_args b2 = job_args b).
    { rewrite Hc. case_decide.
      - subst h. rewrite Hjob in Hh. injection Hh as <-.
        eexists. split; [done|]. unfold completed_job. by destruct (_ =? 0).
      - by exists b1. }
    destruct Hc' as (b2 & Hb2 & Ha2).
    destruct (rknpu_job_next_keeps _ c j b2 Hb2) as [(b3 & Hb3 & Hrel & _) _].
    exists b3. split; [done|]. destruct Hrel. congruence.
Qed.

Lemma rknpu_irq_handler_args d c st j b :
  jobs d !! j = Some b ->
  exists b', jobs (rknpu_irq_handler d c st) !! j = Some b' /\
    job_args b' = job_args b.
Proof.
  intros Hjob. unfold rknpu_irq_handler.
  destruct (job (subcore d c)) as [h|].
  - set (d1 := update_job h (set_irq_seen c st) d).
    assert (Hd1 : exists b1, jobs d1 !! j = Some b1 /\ job_args b1 = job_args b).
    { unfold d1. cbn. rewrite lookup_alter. case_decide; [subst h|].
      - rewrite Hjob. cbn. by eexists.
      - by exists b. }
    destruct Hd1 as (b1 & Hb1 & Ha1).
    destruct (jobs d1 !! h) as [bh|]; [|by exists b1].
    destruct (_ =? _); [|by exists b1].
    destruct (rknpu_job_done_args
                (REG_WRITE c RKNPU_INT_CLEAR RKNPU_OFFSET_INT_CLEAR d1) h 0 c j b1 Hb1)
      as (b2 & Hb2 & Ha2).
    exists b2. split; [done | congruence].
  - destruct (rknpu_job_next_keeps
                (REG_WRITE c RKNPU_INT_CLEAR RKNPU_OFFSET_INT_CLEAR d) c j b Hjob)
      as [(b1 & Hb1 & Hrel & _) _].
    exists b1. split; [done|]. by destruct Hrel.
Qed.

Lemma serve_irqs_args irqs : forall d j b,
  jobs d !! j = Some b ->
  exists b', jobs (serve_irqs d irqs) !! j = Some b' /\ job_args b' = job_args b.
Proof.
  induction irqs as [|[c st] irqs IH]; intros d j b Hjob; [by exists b|].
  cbn. destruct (rknpu_irq_handler_args d c st j b Hjob) as (b1 & Hb1 & Ha1).
  destruct (IH _ j b1 Hb1) as (b2 & Hb2 & Ha2). exists b2.
  split; [done | congruence].
Qed.

Lemma rknpu_job_schedule_args d j b :
  jobs d !! j = Some b ->
  exists b', jobs (rknpu_job_schedule d j) !! j = Some b' /\
    task_number (job_args b') = task_number (job_args b) /\
    flags (job_args b') = flags (job_args b).
Proof.
  intros Hjob. unfold rknpu_job_schedule.
  assert (Hr : exists br, jobs (schedule_resolve d j) !! j = Some br /\
                 task_number (job_args br) = task_number (job_args b) /\
                 flags (job_args br) = flags (job_args b)).
  { unfold schedule_resolve. rewrite Hjob. destruct (_ =? _); [|by exists b].
    cbn. rewrite lookup_alter_eq, Hjob. cbn. by eexists. }
  destruct Hr as (br & Hbr & Hn & Hf). rewrite Hbr.
  destruct (schedule_kick_args (core_mask (job_args br))
              (seq 0 (num_irqs (config (schedule_resolve d j))))
              (foldl (schedule_enqueue j br) (schedule_resolve d j)
                 (seq 0 (num_irqs (config (schedule_resolve d j))))) j br)
    as (b' & Hb' & Ha & _); [by rewrite schedule_enqueue_jobs|].
  exists b'. split; [done|]. by rewrite Ha.
Qed.

(** ** The count the wait reports *)

Lemma job_wait_result_success d j ret ts :
  fst (job_wait_result d j ret ts) = 0 ->
  exists b,
    jobs d !! j = Some b /\ job_done_flag b = true /\ 0 < ret /\
    is_Some (last_task b) /\
    jobs (snd (job_wait_result d j ret ts)) !! j
    = Some (set_job_args (set_task_counter (task_number (job_args b)) (job_args b)) b).
Proof.
  unfold job_wait_result. destruct (jobs d !! j) as [b|] eqn:Hjob; [|done].
  destruct (last_task b) as [lt|] eqn:Hlt.
  - set (ds := store_int_status _ _ _ d).
    assert (Hds : jobs ds !! j = Some b).
    { unfold ds, store_int_status. by destruct (_ <? 0). }
    destruct (Z.leb_spec ret 0) as [Hle|Hgt].
    { cbn [fst]. destruct (Z.ltb_spec ret 0); [lia | done]. }
    destruct (Z.land (job_flags b) RKNPU_JOB_DONE =? 0) eqn:Hdone; [done|].
    intros _. exists b. split; [done|]. unfold job_done_flag. rewrite Hdone.
    split; [done|]. split; [done|]. split; [done|]. cbn [snd].
    cbn. by rewrite lookup_alter_eq, Hds.
  - cbn [fst]. destruct (Z.ltb_spec ret 0); [lia | done].
Qed.

(** ** The tasks of all batches of a core *)




Lemma job_wait_result_keeps d j b ret ts :
  jobs d !! j = Some b ->
  is_Some (jobs (snd (job_wait_result d j ret ts)) !! j).
Proof.
  intros Hjob. unfold job_wait_result. rewrite Hjob.
  destruct (last_task b) as [lt|].
  - set (ds := store_int_status _ _ _ d).
    assert (Hds : jobs ds !! j = Some b).
    { unfold ds, store_int_status. by destruct (_ <? 0). }
    destruct (_ <=? 0); [|destruct (_ =? 0)]; cbn [snd]; cbn;
      rewrite ?lookup_alter_eq, Hds; by eexists.
  - cbn [snd]. generalize (seq 0 (Z.to_nat (use_core_num b))). intros l.
    revert d Hjob. induction l as [|i l IH]; intros d Hjob; [by eexists|].
    cbn [foldl]. by apply IH.
Qed.

(** ** Nothing is committed before every core has started the job *)























(** ** The phases of a submission *)

Lemma rknpu_schedule_core_index_ext d d' :
  config d' = config d -> subcore_datas d' = subcore_datas d ->
  rknpu_schedule_core_index d' = rknpu_schedule_core_index d.
Proof.
  intros Hc Hs. unfold rknpu_schedule_core_index, core_index_step, subcore.
  by rewrite Hc, Hs.
Qed.

(** A valid submission is the queueing loop and the kick loop of
    [rknpu_job_schedule] on a fresh job. *)
Lemma sched_apply_split d args :
  cfg_core_mask (config d) = 7 -> args_wf args -> sched_inv d ->
  submit_valid (config d) args = true ->
  exists da br,
    fresh_job d da args br /\
    sched_apply d (StepSchedule args)
    = foldl (schedule_kick (core_mask (job_args br)))
        (foldl (schedule_enqueue (job_seq d) br) da (seq 0 RKNPU_MAX_CORES))
        (seq 0 RKNPU_MAX_CORES).
Proof.
  intros Hcap Hwf Hinv Hvalid. cbn [sched_apply]. rewrite Hvalid.
  destruct (submit_valid_mask _ _ Hcap Hwf Hvalid) as [Hm Ht].
  pose proof (inv_irqs _ Hinv) as Hirq.
  assert (Hgen : forall d1 b1,
    config d1 = config d -> subcore_datas d1 = subcore_datas d ->
    trace d1 = trace d -> soft_reseting d1 = soft_reseting d ->
    job_seq d1 = S (job_seq d) -> jobs d1 = <[job_seq d := b1]> (jobs d) ->
    job_args b1 = args ->
    use_core_num b1 = over_cores (on_core (core_mask args)) ->
    run_count b1 = over_cores (on_core (core_mask args)) ->
    interrupt_count b1 = over_cores (on_core (core_mask args)) ->
    job_done_flag b1 = false ->
    submit_count b1 = replicate RKNPU_MAX_CORES 0 ->
    last_task b1 = None ->
    job_int_mask b1 = replicate RKNPU_MAX_CORES 0 ->
    exists da br,
      fresh_job d da args br /\
      rknpu_job_schedule d1 (job_seq d)
      = foldl (schedule_kick (core_mask (job_args br)))
          (foldl (schedule_enqueue (job_seq d) br) da (seq 0 RKNPU_MAX_CORES))
          (seq 0 RKNPU_MAX_CORES)).
  { intros d1 b1 Hcfg Hsub Htr Hrs Hseq Hjobs Hargs Hcores Hrun Hint Hflag
      Hsc Hlt Him.
    unfold rknpu_job_schedule, schedule_resolve.
    rewrite Hjobs, lookup_insert_eq, Hargs.
    destruct (core_mask args =? RKNPU_CORE_AUTO_MASK) eqn:Eauto.
    - apply Z.eqb_eq in Eauto.
      set (k := rknpu_schedule_core_index d1).
      assert (Hk : (k < RKNPU_MAX_CORES)%nat).
      { rewrite <- Hirq, <- Hcfg. apply rknpu_schedule_core_index_bound.
        rewrite Hcfg, Hirq. unfold RKNPU_MAX_CORES. lia. }
      set (f := fun b => set_counts 1
                  (set_job_args (set_core_mask (rknpu_core_mask k) (job_args b)) b)).
      assert (Hj2 : jobs (update_job (job_seq d) f d1) = <[job_seq d := f b1]> (jobs d)).
      { cbn. rewrite Hjobs. apply map_eq. intros i.
        rewrite lookup_alter, !lookup_insert. repeat case_decide; naive_solver. }
      rewrite Hj2, lookup_insert_eq.
      cbn [config update_job set_jobs]. rewrite Hcfg, Hirq.
      exists (update_job (job_seq d) f d1), (f b1). split; [|done].
      assert (Hmk : 1 <= rknpu_core_mask k <= 7).
      { revert Hk. generalize k. unfold RKNPU_MAX_CORES.
        intros [|[|[|k']]] Hk'; cbn;
          unfold RKNPU_CORE0_MASK, RKNPU_CORE1_MASK, RKNPU_CORE2_MASK; lia. }
      split; cbn; rewrite ?Hargs, ?auto_mask_cores by done; try done.
      intros _. unfold k. f_equal. by apply rknpu_schedule_core_index_ext.
    - apply Z.eqb_neq in Eauto. unfold RKNPU_CORE_AUTO_MASK in Eauto.
      rewrite Hjobs, lookup_insert_eq, Hcfg, Hirq.
      exists d1, b1. split; [|done].
      split; rewrite ?Hargs; try done; try lia.
      by destruct args. }
  unfold rknpu_job_alloc. cbn [negb].
  destruct (Z.land (flags args) RKNPU_JOB_NONBLOCK =? 0) eqn:Eblock; cbn zeta.
  - eapply Hgen; cbn; try done; by rewrite alloc_count.
  - eapply Hgen; cbn; try done.
    + apply alter_insert_eq.
    + done.
    + by rewrite alloc_count.
    + by rewrite alloc_count.
    + by rewrite alloc_count.
    + done.
    + done.
    + done.
    + done.
Qed.

Lemma fresh_job_enqueue_inv d da args br :
  sched_inv d -> fresh_job d da args br ->
  sched_inv (foldl (schedule_enqueue (job_seq d) br) da (seq 0 RKNPU_MAX_CORES)).
Proof.
  intros Hinv F. pose proof (fj_mask _ _ _ _ F).
  apply (enqueue_inv d da br); try done; try apply F.
  apply manual_mask_cores. lia.
Qed.

(** ** Invariants of scheduler runs *)

(** A property that the four moves of the scheduler keep holds in every
    state a run reaches: hardware traffic and changes of the job fields the
    bookkeeping does not read, starting the head of a FIFO, completing the
    running job of a core, and queueing a fresh job. *)
Section run_invariant.
Variable P : rknpu_device -> Prop.
Hypothesis P_skel : forall d d', skel_frame d d' -> sched_inv d -> P d -> P d'.
Hypothesis P_popped : forall d c j rest b,
  sched_inv d -> soft_reseting d = false -> job (subcore d c) = None ->
  todo_list (subcore d c) = j :: rest -> jobs d !! j = Some b ->
  P d -> P (popped d c j rest b).
Hypothesis P_completed : forall d c j ret b,
  sched_inv d -> job (subcore d c) = Some j -> jobs d !! j = Some b ->
  P d -> P (completed d j ret c b).
Hypothesis P_enqueue : forall d da args br,
  sched_inv d -> fresh_job d da args br -> P d ->
  P (foldl (schedule_enqueue (job_seq d) br) da (seq 0 RKNPU_MAX_CORES)).

Lemma rknpu_job_next_invariant d c :
  sched_inv d -> P d -> P (rknpu_job_next d c).
Proof.
  intros Hinv HP. rewrite rknpu_job_next_unfold.
  destruct (soft_reseting d) eqn:Hrs; [done|].
  destruct (job (subcore d c)) eqn:Hidle; [done|].
  destruct (todo_list (subcore d c)) as [|j rest] eqn:Htodo; [done|].
  destruct (inv_todo_job _ Hinv c j) as [b Hjob]; [rewrite Htodo; left|].
  rewrite Hjob.
  pose proof (P_popped d c j rest b Hinv Hrs Hidle Htodo Hjob HP) as HP'.
  destruct (_ =? 0); [|done].
  eapply P_skel; [apply commit_frame_skel, rknpu_job_commit_frame| |done].
  by apply popped_inv.
Qed.

Lemma schedule_kick_invariant mask l : forall d,
  sched_inv d -> P d -> sched_inv (foldl (schedule_kick mask) d l) /\
                        P (foldl (schedule_kick mask) d l).
Proof.
  induction l as [|i l IH]; intros d Hinv HP; [done|].
  cbn [foldl]. unfold schedule_kick at 2 4.
  destruct (on_core mask i); [|by apply IH].
  apply IH; [by apply rknpu_job_next_inv | by apply rknpu_job_next_invariant].
Qed.

Lemma rknpu_job_done_invariant d j ret c :
  sched_inv d -> job (subcore d c) = Some j -> P d ->
  P (rknpu_job_done d j ret c).
Proof.
  intros Hinv Hrun HP. rewrite rknpu_job_done_unfold.
  destruct (jobs d !! j) as [b|] eqn:Hjob; [|done]. cbn zeta.
  set (f := set_submit_count _).
  assert (Hframe : skel_frame d (update_job j f d)).
  { apply update_job_skel. intros b0. by split. }
  pose proof (skel_frame_inv _ _ Hframe Hinv) as Hinv'.
  pose proof (P_skel _ _ Hframe Hinv HP) as HP'.
  assert (Hj' : jobs (update_job j f d) !! j = Some (f b))
    by (cbn; by rewrite lookup_alter_eq, Hjob).
  destruct (_ <? _).
  - eapply P_skel; [|exact Hinv'|exact HP'].
    apply commit_frame_skel, rknpu_job_subcore_commit_frame.
  - apply rknpu_job_next_invariant.
    + by apply completed_inv.
    + by apply P_completed.
Qed.

Lemma rknpu_irq_handler_invariant d c status :
  sched_inv d -> P d -> P (rknpu_irq_handler d c status).
Proof.
  intros Hinv HP. unfold rknpu_irq_handler.
  destruct (job (subcore d c)) as [j|] eqn:Hrun.
  - set (d1 := update_job j _ d).
    assert (Hframe : skel_frame d d1).
    { apply update_job_skel. intros b0. by split. }
    pose proof (skel_frame_inv _ _ Hframe Hinv) as Hinv1.
    pose proof (P_skel _ _ Hframe Hinv HP) as HP1.
    destruct (jobs d1 !! j) as [b|]; [|done].
    pose proof (REG_WRITE_skel d1 c RKNPU_INT_CLEAR RKNPU_OFFSET_INT_CLEAR) as F2.
    pose proof (skel_frame_inv _ _ F2 Hinv1) as Hinv2.
    pose proof (P_skel _ _ F2 Hinv1 HP1) as HP2.
    destruct (_ =? _); [|done].
    by apply rknpu_job_done_invariant.
  - pose proof (REG_WRITE_skel d c RKNPU_INT_CLEAR RKNPU_OFFSET_INT_CLEAR) as F.
    apply rknpu_job_next_invariant.
    + by eapply skel_frame_inv.
    + by eapply P_skel.
Qed.

Lemma sched_apply_invariant d s :
  cfg_core_mask (config d) = 7 -> step_wf s -> sched_inv d -> P d ->
  P (sched_apply d s).
Proof.
  intros Hcap Hwf Hinv HP. destruct s as [args|c status].
  - destruct (submit_valid (config d) args) eqn:Hvalid.
    + destruct (sched_apply_split d args Hcap Hwf Hinv Hvalid)
        as (da & br & F & ->).
      apply schedule_kick_invariant.
      * by eapply fresh_job_enqueue_inv.
      * by eapply P_enqueue.
    + cbn [sched_apply]. by rewrite Hvalid.
  - by apply rknpu_irq_handler_invariant.
Qed.

Lemma sched_run_invariant steps : forall d,
  cfg_core_mask (config d) = 7 -> Forall step_wf steps ->
  sched_inv d -> P d -> P (sched_run d steps).
Proof.
  induction steps as [|s steps IH]; intros d Hcap Hwf Hinv HP; [done|].
  apply Forall_cons in Hwf as [Hs Hwf]. cbn. apply IH; [|done|..].
  - by rewrite sched_apply_config.
  - by apply sched_apply_inv.
  - by apply sched_apply_invariant.
Qed.

End run_invariant.

(** ** Order of service *)











(** ** Load of a core *)











(** ** Invariants of runs from the initial state *)



(** ** Wake-ups *)

(** The wait queue [rknpu_job_done] wakes is the one [rknpu_job_wait] picks
    from the mask. *)
Lemma wake_queue_of_mask m c :
  1 <= m <= 7 -> (c < RKNPU_MAX_CORES)%nat -> on_core m c = true ->
  (if 1 <? over_cores (on_core m) then 0%nat else c) = rknpu_wait_core_index m.
Proof.
  intros Hm Hc. unfold RKNPU_MAX_CORES in Hc.
  destruct (small_mask_cases m ltac:(lia)) as [->|[->|[->|[->|[->|[->|[->| ->]]]]]]];
    [lia|..]; destruct c as [|[|[|c]]]; try lia; by vm_compute.
Qed.

Lemma skel_frame_job d d' j b' :
  skel_frame d d' -> jobs d' !! j = Some b' ->
  exists b, jobs d !! j = Some b /\ view_rel b b'.
Proof.
  intros F Hb'. pose proof (sf_jobs _ _ F j) as R. rewrite Hb' in R.
  inversion R as [b b2 Rv Hb|]. subst. by exists b.
Qed.

Lemma wake_inv_skel d d' : skel_frame d d' -> wake_inv d -> wake_inv d'.
Proof.
  intros F W. split.
  - intros j b' Hb'. destruct (skel_frame_job _ _ _ _ F Hb') as (b & Hb & R).
    rewrite (vr_args _ _ R), (vr_cores _ _ R).
    by eapply (wi_mask _ W).
  - intros j b' wq Hb' Hwq. destruct (skel_frame_job _ _ _ _ F Hb') as (b & Hb & R).
    rewrite (vr_args _ _ R).
    rewrite (wakes_of_frame d d' j (sf_trace _ _ F)) in Hwq.
    by eapply (wi_queue _ W).
  - intros c j Hrun. unfold subcore in Hrun. rewrite (sf_subcores _ _ F) in Hrun.
    destruct (sf_trace _ _ F) as (evs & -> & _).
    apply elem_of_app. left. by apply W.
Qed.

Lemma wake_inv_popped d c j rest b :
  sched_inv d -> job (subcore d c) = None ->
  todo_list (subcore d c) = j :: rest -> jobs d !! j = Some b ->
  wake_inv d -> wake_inv (popped d c j rest b).
Proof.
  intros Hinv Hidle Htodo Hjob W.
  assert (Hj : forall j' b', jobs (popped d c j rest b) !! j' = Some b' ->
             exists b0, jobs d !! j' = Some b0 /\ job_args b' = job_args b0 /\
                        use_core_num b' = use_core_num b0).
  { intros j' b'. rewrite (popped_jobs d c j rest b Htodo Hjob).
    destruct (decide (j' = j)) as [->|]; intros H; simplify_eq; eauto. }
  assert (Htr : trace (popped d c j rest b) = trace d ++ [EvStart c j]) by done.
  split.
  - intros j' b' (b0 & Hb0 & -> & ->)%Hj. by eapply (wi_mask _ W).
  - intros j' b' wq (b0 & Hb0 & -> & _)%Hj.
    rewrite Htr, wakes_of_app. cbn. rewrite app_nil_r. by eapply (wi_queue _ W).
  - intros c' j'. rewrite (popped_subcore d c j rest b Hinv Htodo), Htr.
    rewrite elem_of_app, list_elem_of_singleton.
    destruct (decide (c' = c)) as [->|]; cbn.
    + intros [= <-]. by right.
    + intros H. left. by apply W.
Qed.

Lemma wake_inv_completed d c j ret b :
  sched_inv d -> job (subcore d c) = Some j -> jobs d !! j = Some b ->
  wake_inv d -> wake_inv (completed d j ret c b).
Proof.
  intros Hinv Hrun Hjob W.
  assert (Hj : forall j' b', jobs (completed d j ret c b) !! j' = Some b' ->
             exists b0, jobs d !! j' = Some b0 /\ job_args b' = job_args b0 /\
                        use_core_num b' = use_core_num b0).
  { intros j' b'. rewrite (completed_jobs d c j ret b j' Hjob).
    destruct (decide (j' = j)) as [->|]; intros H; simplify_eq; eauto.
    exists b. unfold completed_job. by destruct (_ =? 0). }
  split.
  - intros j' b' (b0 & Hb0 & -> & ->)%Hj. by eapply (wi_mask _ W).
  - intros j' b' wq Hb'. destruct (Hj _ _ Hb') as (b0 & Hb0 & -> & _).
    rewrite completed_wakes, elem_of_app. intros [H|H].
    + by eapply (wi_queue _ W).
    + destruct (decide (j' = j)) as [->|]; [|by inversion H].
      assert (b0 = b) as -> by congruence.
      destruct (_ =? 0); [|by inversion H].
      apply list_elem_of_singleton in H as ->.
      destruct (wi_mask _ W _ _ Hjob) as [Hm ->].
      pose proof (complete_core d c j Hinv Hrun) as Hc.
      apply wake_queue_of_mask; [done..|].
      rewrite (inv_part _ Hinv j b c Hjob Hc).
      apply orb_true_iff. right. apply started_true. by apply W.
  - intros c' j'. rewrite (completed_subcore d c j ret b Hinv Hrun).
    rewrite completed_trace, elem_of_app.
    destruct (decide (c' = c)) as [->|]; cbn; [done|].
    intros H. left. by apply W.
Qed.

Lemma wake_inv_enqueue d da args br :
  sched_inv d -> fresh_job d da args br -> wake_inv d ->
  wake_inv (foldl (schedule_enqueue (job_seq d) br) da (seq 0 RKNPU_MAX_CORES)).
Proof.
  intros Hinv F W. pose proof (fj_mask _ _ _ _ F) as Hm.
  pose proof (fj_cores _ _ _ _ F) as Hcores.
  destruct (enqueue_facts d da br) as (_ & Hjobs & Htr & _ & _ & Hsc);
    try done; try apply F.
  split.
  - intros j b. rewrite Hjobs, lookup_insert.
    case_decide; intros Hb; simplify_eq; [done|]. by eapply (wi_mask _ W).
  - intros j b wq. rewrite Hjobs, Htr, lookup_insert.
    case_decide; intros Hb; simplify_eq.
    + rewrite (new_job_no_wakes d da Hinv (fj_seq _ _ _ _ F)). by inversion 1.
    + by eapply (wi_queue _ W).
  - intros c j. rewrite (proj2 (Hsc c)), Htr. apply W.
Qed.

Lemma sched_run_wake_inv cfg bufs steps :
  num_irqs cfg = RKNPU_MAX_CORES -> cfg_core_mask cfg = 7 ->
  Forall step_wf steps -> wake_inv (sched_run (dev_init cfg bufs) steps).
Proof.
  intros Hirq Hcap Hwf. apply sched_run_invariant; try done.
  - intros d d' F _. by apply wake_inv_skel.
  - intros d c j rest b Hinv _. by apply wake_inv_popped.
  - intros d c j ret b. by apply wake_inv_completed.
  - intros d da args br. by apply wake_inv_enqueue.
  - by apply dev_init_inv.
  - split.
    + intros j b H. cbn in H. by rewrite lookup_empty in H.
    + intros j b wq H. cbn in H. by rewrite lookup_empty in H.
    + intros c j. by destruct c as [|[|[|c]]].
Qed.

(** ** Blocking submissions *)

Lemma serve_irqs_sched_run irqs : forall d,
  serve_irqs d irqs = sched_run d (map (fun i => StepIrq (fst i) (snd i)) irqs).
Proof.
  induction irqs as [|[c st] irqs IH]; intros d; [done|].
  cbn. apply IH.
Qed.

Lemma serve_irqs_inv irqs d : sched_inv d -> sched_inv (serve_irqs d irqs).
Proof.
  revert d. induction irqs as [|[c st] irqs IH]; intros d Hinv; [done|].
  cbn. apply IH. by apply rknpu_irq_handler_inv.
Qed.

Lemma serve_irqs_keeps irqs : forall d j,
  is_Some (jobs d !! j) -> is_Some (jobs (serve_irqs d irqs) !! j).
Proof.
  intros d j [b Hb]. destruct (serve_irqs_args irqs d j b Hb) as (b' & -> & _).
  by eexists.
Qed.

(** A job that is not on a core's FIFO and not its running job, on any
    core. *)
Lemma done_job_off_cores d j b :
  sched_inv d -> jobs d !! j = Some b -> job_done_flag b = true ->
  forall c, (j ∉ todo_list (subcore d c)) /\ job (subcore d c) <> Some j.
Proof.
  intros Hinv Hjob Hdone c.
  rewrite (inv_done _ Hinv j b Hjob) in Hdone. apply bool_decide_eq_true in Hdone.
  rewrite (inv_int_count _ Hinv j b Hjob) in Hdone.
  destruct (decide (c < RKNPU_MAX_CORES)%nat) as [Hc|Hc].
  - assert (Hz : queued d j c || running d j c = false).
    { unfold over_cores in Hdone. unfold RKNPU_MAX_CORES in Hc.
      destruct c as [|[|[|c]]]; [..|lia];
        destruct (queued d j 0 || running d j 0),
                 (queued d j 1 || running d j 1),
                 (queued d j 2 || running d j 2); cbn in Hdone; (done || lia). }
    apply orb_false_iff in Hz as [Hq Hr]. split.
    + intros H%queued_true. congruence.
    + intros H%running_true. congruence.
  - rewrite subcore_out_of_range by (rewrite (inv_cores _ Hinv); lia).
    cbn. split; [apply not_elem_of_nil | done].
Qed.

Lemma job_wait_result_committed d j b ret ts :
  jobs d !! j = Some b -> is_Some (last_task b) ->
  subcore_datas (snd (job_wait_result d j ret ts)) = subcore_datas d /\
  trace (snd (job_wait_result d j ret ts)) = trace d.
Proof.
  intros Hjob [lt Hlt]. unfold job_wait_result. rewrite Hjob, Hlt.
  unfold store_int_status.
  destruct (_ <=? 0); [by destruct (lt <? 0)|].
  destruct (_ =? 0); by destruct (lt <? 0).
Qed.

Lemma rknpu_job_alloc_blocking d args am :
  Z.land (flags args) RKNPU_JOB_NONBLOCK = 0 ->
  rknpu_job_alloc d args true am = rknpu_job_alloc d args true true.
Proof. intros H. unfold rknpu_job_alloc. by rewrite H. Qed.

(** A blocking PC-mode submission that returns 0: the job was queued as by a
    scheduling step, the interrupts of the environment were served, and the
    job was done when the wait ended. *)
Lemma rknpu_submit_success d args env :
  sched_inv d -> cfg_core_mask (config d) = 7 -> args_wf args ->
  Z.land (flags args) RKNPU_JOB_NONBLOCK = 0 ->
  Z.land (flags args) RKNPU_JOB_PC <> 0 ->
  fst (fst (rknpu_submit d args env)) = 0 ->
  let dw := serve_irqs (sched_apply d (StepSchedule args)) (se_irqs env) in
  let d' := snd (rknpu_submit d args env) in
  submit_valid (config d) args = true /\
  (exists b, jobs dw !! job_seq d = Some b /\ job_done_flag b = true) /\
  subcore_datas d' = subcore_datas dw /\ trace d' = trace dw /\
  jobs d' !! job_seq d = None.
Proof.
  intros Hinv Hcap Hwf Hblock Hpc Hret dw d'. subst d'.
  unfold rknpu_submit in *. unfold submit_valid.
  destruct (task_number args =? 0) eqn:Et; [done|].
  rewrite Hcap in *.
  destruct (7 <? core_mask args) eqn:Em; [done|].
  split; [done|].
  destruct (rknpu_job_alloc_cases d args (se_job_mem env) (se_args_mem env))
    as [[Hnone _] | (da & Halloc & Hmem & _)].
  { rewrite Hnone in Hret. done. }
  assert (Hds : sched_apply d (StepSchedule args) = rknpu_job_schedule da (job_seq d)).
  { cbn [sched_apply]. unfold submit_valid. rewrite Et, Hcap, Em. cbn [negb andb].
    rewrite <- (rknpu_job_alloc_blocking d args (se_args_mem env) Hblock).
    rewrite Hmem in Halloc. rewrite Halloc, Hblock. done. }
  rewrite Halloc, Hblock in *. cbn [Z.eqb] in *.
  rewrite (proj2 (Z.eqb_neq _ _) Hpc) in *.
  rewrite <- Hds in *.
  set (ds := sched_apply d (StepSchedule args)) in *.
  assert (Hinvs : sched_inv ds) by (by apply sched_apply_inv).
  destruct (rknpu_job_alloc_job _ _ _ _ _ _ Halloc) as (_ & _ & b0 & Hb0 & _).
  assert (Hjs : is_Some (jobs ds !! job_seq d)).
  { rewrite Hds.
    destruct (rknpu_job_schedule_args da _ b0 Hb0) as (b1 & -> & _). by eexists. }
  pose proof (serve_irqs_keeps (se_irqs env) ds _ Hjs) as [bw Hbw].
  fold dw in Hbw.
  unfold rknpu_job_wait in *. fold dw in Hret |- *.
  set (ret := if _ || _ then _ else _) in *.
  pose proof (job_wait_result_keeps dw _ bw ret (se_task_status env) Hbw) as [b2 Hb2].
  destruct (job_wait_result dw (job_seq d) ret (se_task_status env))
    as [r d2] eqn:Ewait.
  cbn [fst snd] in *.
  assert (Hr : job_ret_of (update_job (job_seq d) (set_job_ret r) d2) (job_seq d) = r).
  { unfold job_ret_of. cbn. by rewrite lookup_alter_eq, Hb2. }
  rewrite Hr in *.
  destruct (r =? 0) eqn:Er; cbn [fst snd] in Hret; [|by rewrite Hret in Er].
  subst r. cbn [fst snd].
  pose proof (job_wait_result_success dw (job_seq d) ret (se_task_status env)) as Hs.
  rewrite Ewait in Hs. destruct (Hs eq_refl) as (b & Hb & Hdone & _ & Hlast & _).
  split; [by exists b|].
  pose proof (job_wait_result_committed dw _ b ret (se_task_status env) Hb Hlast)
    as [Hsub Htr].
  rewrite Ewait in Hsub, Htr. cbn [snd] in Hsub, Htr.
  split; [done|]. split; [done|].
  cbn. apply lookup_delete_eq.
Qed.

(** ** A wait that finds nothing committed *)

Lemma todo_remove_absent j l : j ∉ l -> todo_remove j l = l.
Proof.
  induction l as [|x l IH]; [done|]. intros H.
  apply not_elem_of_cons in H as [Hne Hl]. cbn.
  rewrite (proj2 (Nat.eqb_neq x j)) by done. by rewrite IH.
Qed.

Lemma todo_remove_elem_of j l x :
  NoDup l -> x ∈ todo_remove j l <-> x ∈ l /\ x <> j.
Proof.
  induction l as [|y l IH]; intros Hnd.
  - cbn. split; [by intros H%elem_of_nil | by intros [H%elem_of_nil _]].
  - apply NoDup_cons in Hnd as [Hy Hnd]. cbn.
    destruct (y =? j)%nat eqn:E.
    + apply Nat.eqb_eq in E as ->. rewrite elem_of_cons. split.
      * intros H. split; [by right|]. by intros ->.
      * intros [[->|H] Hne]; done.
    + apply Nat.eqb_neq in E. rewrite !elem_of_cons, (IH Hnd). naive_solver.
Qed.

(** The unlink loop of [rknpu_job_wait] over the cores below [n]. *)
Lemma unlink_loop d j (n : nat) :
  length (subcore_datas d) = RKNPU_MAX_CORES -> (n <= RKNPU_MAX_CORES)%nat ->
  let d' :=
    foldl (fun d i =>
             update_subcore i
               (fun s => mk_subcore (todo_remove j (todo_list s)) (job s) (task_num s))
               d)
      d (seq 0 n) in
  jobs d' = jobs d /\ trace d' = trace d /\ config d' = config d /\
  forall c,
    subcore d' c
    = if bool_decide (c < n)%nat
      then mk_subcore (todo_remove j (todo_list (subcore d c)))
             (job (subcore d c)) (task_num (subcore d c))
      else subcore d c.
Proof.
  intros Hlen Hn. destruct d as [cfg sds sr js sq bufs tr]. cbn in Hlen.
  destruct sds as [|s0 [|s1 [|s2 [|]]]]; try discriminate.
  unfold RKNPU_MAX_CORES in Hn.
  destruct n as [|[|[|[|n]]]]; [..|lia]; cbn; repeat (split; [done|]);
    intros [|[|[|c]]]; cbn; try done.
  all: by destruct s0, s1, s2.
Qed.

(** ** The task control word *)

Lemma testbit_above n bits i :
  0 <= n < 2 ^ bits -> 0 <= bits <= i -> Z.testbit n i = false.
Proof.
  intros Hn Hi. rewrite <- (Z.mod_small n (2 ^ bits)) by done.
  by apply Z.mod_pow2_bits_high.
Qed.

Lemma control_word_decode a n bits :
  0 <= bits -> 0 <= n < 2 ^ bits ->
  Z.land (Z.lor (Z.shiftl a bits) n) (Z.ones bits) = n /\
  Z.shiftr (Z.lor (Z.shiftl a bits) n) bits = a.
Proof.
  intros Hb Hn. split.
  - apply Z.bits_inj'. intros i Hi.
    rewrite Z.land_spec, Z.lor_spec, Z.shiftl_spec by done.
    destruct (Z.lt_ge_cases i bits) as [Hlt|Hge].
    + rewrite Z.ones_spec_low by lia.
      rewrite (Z.testbit_neg_r a) by lia. by rewrite andb_true_r.
    + rewrite Z.ones_spec_high by lia.
      rewrite (testbit_above n bits i) by lia. by rewrite andb_false_r.
  - rewrite Z.shiftr_lor, Z.shiftr_shiftl_l, Z.sub_diag, Z.shiftl_0_r by lia.
    rewrite (Z.shiftr_div_pow2 n) by lia. rewrite Z.div_small by lia.
    apply Z.lor_0_r.
Qed.

Lemma control_word_fits a n bits :
  0 <= a < 8 -> 0 <= bits <= 28 -> 0 <= n < 2 ^ bits ->
  u32 (Z.lor (Z.shiftl a bits) n) = Z.lor (Z.shiftl a bits) n.
Proof.
  intros Ha Hb Hn. unfold u32, wrap_unsigned.
  apply Z.bits_inj'. intros i Hi.
  destruct (Z.lt_ge_cases i 32) as [Hlt|Hge].
  - by rewrite Z.mod_pow2_bits_low by lia.
  - rewrite Z.mod_pow2_bits_high by lia.
    rewrite Z.lor_spec, Z.shiftl_spec by done.
    rewrite (testbit_above a 3 (i - bits)) by lia.
    by rewrite (testbit_above n bits i) by lia.
Qed.

Lemma control_writes_app c tr1 tr2 :
  control_writes c (tr1 ++ tr2) = control_writes c tr1 ++ control_writes c tr2.
Proof. apply omap_app. Qed.

Lemma control_writes_write c tr c' off v :
  control_writes c (tr ++ [EvRegWrite c' off v])
  = control_writes c tr
    ++ (if (c' =? c)%nat && (off =? RKNPU_OFFSET_PC_TASK_CONTROL)
        then [v] else []).
Proof. rewrite control_writes_app. cbn. by destruct (_ && _). Qed.

Lemma control_writes_commit c tr j c' ts tn :
  control_writes c (tr ++ [EvCommit j c' ts tn]) = control_writes c tr.
Proof. rewrite control_writes_app. cbn. apply app_nil_r. Qed.

(** One commit writes the task control register once. *)
Lemma rknpu_job_subcore_commit_control d j c b ts tn :
  jobs d !! j = Some b ->
  Z.land (flags (job_args b)) RKNPU_JOB_PC <> 0 ->
  task_obj_addr (job_args b) <> 0 ->
  commit_range (config d) b c (submit_count b !!! c) = (ts, tn) ->
  control_writes c (trace (rknpu_job_subcore_commit d j c))
  = control_writes c (trace d)
    ++ [u32 (Z.lor
               (Z.shiftl
                  (Z.lor 0x6
                     (if Z.land (flags (job_args b)) RKNPU_JOB_PINGPONG =? 0
                      then 0 else 1))
                  (s32 (pc_task_number_bits (config d))))
               tn)].
Proof.
  intros Hjob Hpc Hobj Hrange. unfold rknpu_job_subcore_commit.
  rewrite Hjob. apply Z.eqb_neq in Hpc, Hobj. rewrite Hpc.
  unfold rknpu_job_subcore_commit_pc.
  change (jobs (REG_WRITE c 1 RKNPU_OFFSET_PC_DATA_ADDR d) !! j) with (jobs d !! j).
  rewrite Hjob, Hobj.
  change (config (REG_WRITE c 1 RKNPU_OFFSET_PC_DATA_ADDR d)) with (config d).
  rewrite Hrange.
  destruct (_ && _);
    cbn [jobs trace update_job set_jobs emit REG_WRITE update_subcore
         set_subcore_datas];
    repeat (rewrite control_writes_write || rewrite control_writes_commit);
    rewrite !Nat.eqb_refl; cbn [andb];
    repeat match goal with
           | |- context [?a =? RKNPU_OFFSET_PC_TASK_CONTROL] =>
             let r := eval vm_compute in (a =? RKNPU_OFFSET_PC_TASK_CONTROL) in
             change (a =? RKNPU_OFFSET_PC_TASK_CONTROL) with r
           end;
    cbv iota; by rewrite ?app_nil_r.
Qed.

Lemma commit_range_le cfg b c k :
  snd (commit_range cfg b c k) <= batch_limit cfg.
Proof.
  unfold commit_range. destruct (core_task_range cfg b c) as [s n]. cbn.
  destruct (_ <? _) eqn:E; [lia|]. apply Z.ltb_ge in E. lia.
Qed.

(** ** Normalised interrupt status *)

Lemma rknpu_fuzz_status_low status :
  rknpu_fuzz_status status = rknpu_fuzz_status (Z.land status 0xfff).
Proof.
  unfold rknpu_fuzz_status.
  assert (H : forall m, Z.land 0xfff m = m ->
            Z.land (Z.land status 0xfff) m = Z.land status m).
  { intros m Hm. by rewrite <- Z.land_assoc, Hm. }
  by rewrite !H by reflexivity.
Qed.

Lemma fuzz_status_ok_all t : 0 <= t < 4096 -> fuzz_status_ok t = true.
Proof.
  intros Ht.
  assert (Hall : forallb fuzz_status_ok (map Z.of_nat (seq 0 4096)) = true)
    by (vm_compute; reflexivity).
  rewrite forallb_forall in Hall. apply Hall.
  apply in_map_iff. exists (Z.to_nat t). split; [lia|].
  apply in_seq. lia.
Qed.

Lemma land_low_range status : 0 <= Z.land status 0xfff < 4096.
Proof.
  change 0xfff with (Z.ones 12). rewrite Z.land_ones by lia.
  apply Z.mod_pos_bound. lia.
Qed.

(** ** Closed forms of the power functions *)






(** ** Power state along the log *)







(** ** The power references of the ioctl entry point *)








(** ** Unlinking and finding buffers *)

Section buffers.
Implicit Types (l : list rknpu_mem_object) (ops : list mem_op).

Lemma session_find_None ptr l :
  session_find ptr l = None <-> ptr ∉ obj_addrs l.
Proof.
  induction l as [|e l IH]; cbn.
  - split; [intros _; apply not_elem_of_nil | done].
  - destruct (Z.eqb_spec (obj_addr e) ptr) as [->|Hne].
    + split; [done|]. intros H. exfalso. apply H. left.
    + rewrite IH, not_elem_of_cons. naive_solver.
Qed.

Lemma session_find_Some ptr l e :
  session_find ptr l = Some e -> e ∈ l /\ obj_addr e = ptr.
Proof.
  induction l as [|x l IH]; cbn; [done|].
  destruct (Z.eqb_spec (obj_addr x) ptr) as [Heq|Hne].
  - intros [= ->]. split; [left | done].
  - intros H. destruct (IH H) as [Hin Ha]. split; [by right | done].
Qed.

Lemma session_remove_absent ptr l :
  ptr ∉ obj_addrs l -> session_remove ptr l = l.
Proof.
  induction l as [|e l IH]; cbn; [done|].
  intros [Hne Hl]%not_elem_of_cons.
  rewrite (proj2 (Z.eqb_neq _ _)) by done. by rewrite IH.
Qed.

(** The list splits into the unlinked entry and the rest. *)
Lemma session_remove_find ptr l :
  option_list (session_find ptr l) ++ session_remove ptr l ≡ₚ l.
Proof.
  induction l as [|e l IH]; cbn; [done|].
  destruct (obj_addr e =? ptr); [done|].
  rewrite <- IH at 3. by rewrite Permutation_middle.
Qed.

Lemma filter_keeps_all (P : rknpu_mem_object -> Prop)
    `{forall e, Decision (P e)} l :
  (forall e, e ∈ l -> P e) -> filter P l = l.
Proof.
  induction l as [|e l IH]; intros Hall; [done|].
  rewrite filter_cons, decide_True by (apply Hall; left).
  rewrite IH; [done|]. intros e' He'. apply Hall. by right.
Qed.

Lemma session_remove_filter ptr l :
  NoDup (obj_addrs l) ->
  session_remove ptr l = filter (fun e => obj_addr e <> ptr) l.
Proof.
  induction l as [|e l IH]; [done|]. cbn [session_remove obj_addrs map].
  intros [Hnin Hnd]%NoDup_cons. rewrite filter_cons.
  destruct (Z.eqb_spec (obj_addr e) ptr) as [Heq|Hne].
  - rewrite decide_False by (intros H; by apply H).
    subst ptr. symmetry. apply filter_keeps_all.
    intros e' He' Heq. apply Hnin. rewrite <- Heq.
    unfold obj_addrs. by apply list_elem_of_fmap_2.
  - rewrite decide_True by done. by rewrite IH.
Qed.



(** ** Page alignment *)

Lemma PAGE_ALIGN_spec x :
  PAGE_ALIGN x = (x + (PAGE_SIZE - 1)) / PAGE_SIZE * PAGE_SIZE.
Proof.
  unfold PAGE_ALIGN, PAGE_SIZE.
  change (Z.lnot (4096 - 1)) with (Z.lnot (Z.ones 12)).
  rewrite <- Z.ldiff_land, Z.ldiff_ones_r by lia.
  rewrite Z.shiftr_div_pow2, Z.shiftl_mul_pow2 by lia. reflexivity.
Qed.

Lemma PAGE_ALIGN_range x :
  PAGE_ALIGN x mod PAGE_SIZE = 0 /\ x <= PAGE_ALIGN x < x + PAGE_SIZE.
Proof.
  rewrite PAGE_ALIGN_spec. unfold PAGE_SIZE. split.
  - apply Z.mod_mul. lia.
  - pose proof (Z.div_mod (x + (4096 - 1)) 4096 ltac:(lia)) as Hd.
    pose proof (Z.mod_pos_bound (x + (4096 - 1)) 4096 ltac:(lia)) as Hm.
    lia.
Qed.

(** ** The life of a session's buffers *)

Lemma mem_freed_created ops : forall l,
  mem_freed ops l ++ foldl mem_step l ops ≡ₚ l ++ mem_created ops.
Proof.
  induction ops as [|op ops IH]; intros l.
  - cbn. by rewrite app_nil_r.
  - cbn [mem_freed foldl mem_created]. destruct op as [args env|ptr].
    + rewrite app_nil_l, IH, mem_step_create.
      destruct (mem_create_object args env) as [err|obj]; [done|].
      destruct (ce_copy_out env); [|done].
      by rewrite <- app_assoc.
    + rewrite <- app_assoc, IH, mem_step_destroy.
      unfold rknpu_mem_destroy_frees.
      destruct (ptr =? 0); [done|].
      by rewrite app_assoc, session_remove_find.
Qed.

Lemma rknpu_release_frees l : fst (rknpu_release l) = l.
Proof.
  unfold rknpu_release. cbn [fst].
  assert (H : forall acc, foldl (fun freed entry => freed ++ [entry]) acc l
                          = acc ++ l).
  { induction l as [|e l IH]; intros acc; cbn; [by rewrite app_nil_r|].
    by rewrite IH, <- app_assoc. }
  apply H.
Qed.

(** ** Looking a buffer up for a mapping *)

Lemma mmap_find_Some target size l e :
  mmap_find target size l = Some e ->
  exists pre post,
    l = pre ++ e :: post /\ dma_addr e = target /\ size <= obj_size e /\
    forall e', e' ∈ pre -> dma_addr e' <> target \/ obj_size e' < size.
Proof.
  induction l as [|x l IH]; cbn; [done|].
  destruct (_ && _) eqn:E.
  - intros [= ->]. apply andb_true_iff in E as [E1 E2].
    exists [], l. split; [done|]. split; [lia|]. split; [lia|].
    intros e' H. by apply elem_of_nil in H.
  - intros H. destruct (IH H) as (pre & post & -> & Hd & Hs & Hpre).
    exists (x :: pre), post. split; [done|]. split; [done|]. split; [done|].
    intros e' [->|Hin]%elem_of_cons; [|by apply Hpre].
    apply andb_false_iff in E as [E|E]; [left | right]; lia.
Qed.

Lemma mmap_find_None target size l :
  mmap_find target size l = None <->
  forall e, e ∈ l -> dma_addr e <> target \/ obj_size e < size.
Proof.
  induction l as [|x l IH]; cbn.
  - split; [|done]. intros _ e H. by apply elem_of_nil in H.
  - destruct (_ && _) eqn:E.
    + split; [done|]. intros H. exfalso.
      apply andb_true_iff in E as [E1 E2].
      destruct (H x ltac:(left)); lia.
    + rewrite IH. split.
      * intros H e [->|Hin]%elem_of_cons; [|by apply H].
        apply andb_false_iff in E as [E|E]; [left | right]; lia.
      * intros H e Hin. apply H. by right.
Qed.

Lemma page_offset_round_trip dma :
  0 <= dma < 2 ^ 64 -> dma mod PAGE_SIZE = 0 ->
  u64 (Z.shiftl (Z.shiftr dma PAGE_SHIFT) PAGE_SHIFT) = dma.
Proof.
  intros Hr Hal. unfold PAGE_SHIFT, PAGE_SIZE in *.
  rewrite Z.shiftr_div_pow2, Z.shiftl_mul_pow2 by lia.
  change (2 ^ 12) with 4096.
  pose proof (Z.div_mod dma 4096 ltac:(lia)) as Hd.
  replace (dma / 4096 * 4096) with dma by lia.
  by apply u64_small.
Qed.

End buffers.

(** ** Sorting the buffer ranges *)

Lemma shift_insert_perm r l : shift_insert r l ≡ₚ r :: l.
Proof.
  induction l as [|x l IH]; cbn; [done|].
  destruct (_ <? _); [|done]. rewrite IH. apply Permutation_swap.
Qed.

Lemma shift_insert_descending r l :
  descending l -> descending (shift_insert r l).
Proof.
  induction l as [|x l IH]; cbn [shift_insert descending].
  - intros _. split; [constructor | done].
  - intros [Hx Hl]. destruct (Z.ltb_spec (range_start r) (range_start x)).
    + cbn [descending]. split; [|by apply IH].
      rewrite shift_insert_perm. constructor; [lia | done].
    + cbn [descending]. split; [|done].
      constructor; [lia|]. eapply Forall_impl; [exact Hx|].
      cbn. intros y Hy. lia.
Qed.

Lemma ascending_snoc l x :
  ascending l -> Forall (fun y => range_start y <= range_start x) l ->
  ascending (l ++ [x]).
Proof.
  induction l as [|y l IH]; cbn [app ascending].
  - intros _ _. split; [constructor | done].
  - intros [Hy Hl] Hall. apply Forall_cons in Hall as [Hyx Hall].
    split; [|by apply IH]. apply Forall_app. split; [done|].
    by constructor.
Qed.

Lemma descending_rev l : descending l -> ascending (rev l).
Proof.
  induction l as [|x l IH]; cbn [rev descending]; [done|].
  intros [Hx Hl]. apply ascending_snoc; [by apply IH|].
  rewrite Forall_forall in Hx |- *. intros y Hy. apply Hx.
  apply list_elem_of_In, in_rev. by apply list_elem_of_In.
Qed.

Lemma sort_ranges_sorted l : sort_ranges l ≡ₚ l /\ ascending (sort_ranges l).
Proof.
  unfold sort_ranges.
  assert (H : forall acc,
            descending acc ->
            foldl (fun rev_prefix r => shift_insert r rev_prefix) acc l
            ≡ₚ acc ++ l /\
            descending
              (foldl (fun rev_prefix r => shift_insert r rev_prefix) acc l)).
  { induction l as [|r l IH]; intros acc Hacc; cbn [foldl].
    - by rewrite app_nil_r.
    - destruct (IH (shift_insert r acc) (shift_insert_descending r acc Hacc))
        as [Hp Hd].
      split; [|done]. rewrite Hp, shift_insert_perm.
      cbn. apply Permutation_middle. }
  destruct (H [] I) as [Hp Hd]. split.
  - by rewrite <- Permutation_rev, Hp.
  - by apply descending_rev.
Qed.

(** Sorted ranges that are pairwise apart follow one another. *)
Lemma ascending_chained l :
  ascending l -> NoDup l ->
  (forall a, a ∈ l -> range_start a < range_end a) ->
  (forall a b, a ∈ l -> b ∈ l -> a <> b -> apart a b) ->
  chained l.
Proof.
  induction l as [|x l IH]; cbn [ascending chained]; [done|].
  intros [Hx Hl] [Hnin Hnd]%NoDup_cons Hpos Hapart. split.
  - rewrite Forall_forall in Hx |- *. intros y Hy.
    assert (Hne : x <> y) by (intros ->; done).
    pose proof (Hx y Hy) as Hle.
    pose proof (Hpos y ltac:(by right)) as Hposy.
    destruct (Hapart x y ltac:(left) ltac:(by right) Hne) as [H|H]; lia.
  - apply IH; [done|done| |].
    + intros a Ha. apply Hpos. by right.
    + intros a b Ha Hb. apply Hapart; by right.
Qed.

(** ** Filling a gap with guard pages *)

Lemma guard_fill_spec map_ok fuel : forall iova limit g,
  0 <= iova -> limit + PAGE_SIZE <= 2 ^ 64 ->
  (limit - iova) mod PAGE_SIZE = 0 ->
  exists added,
    guard_iovas (guard_fill map_ok fuel iova limit g) = guard_iovas g ++ added /\
    Forall (fun a => iova <= a /\ a + PAGE_SIZE <= limit) added /\
    (Z.of_nat (length (guard_iovas g)) <= RKNPU_MAX_GUARD_PAGES ->
     Z.of_nat (length (guard_iovas (guard_fill map_ok fuel iova limit g)))
     <= RKNPU_MAX_GUARD_PAGES).
Proof.
  induction fuel as [|fuel IH]; intros iova limit g Hiova Hlimit Hmod;
    cbn [guard_fill].
  - exists []. by rewrite app_nil_r.
  - destruct (_ && _) eqn:E; [|exists []; by rewrite app_nil_r].
    apply andb_true_iff in E as [E1 E2].
    apply Z.ltb_lt in E1, E2.
    assert (Hstep : iova + PAGE_SIZE <= limit).
    { unfold PAGE_SIZE in *.
      pose proof (Z.div_mod (limit - iova) 4096 ltac:(lia)) as Hd.
      rewrite Hmod in Hd.
      assert (0 < (limit - iova) / 4096) by lia. lia. }
    assert (Hu : u64 (iova + PAGE_SIZE) = iova + PAGE_SIZE).
    { apply u64_small. unfold PAGE_SIZE in *. lia. }
    rewrite Hu.
    destruct (IH (iova + PAGE_SIZE) limit (guard_try map_ok iova g))
      as (added & Hg & Hall & Hlen).
    { unfold PAGE_SIZE. lia. }
    { done. }
    { replace (limit - (iova + PAGE_SIZE)) with (limit - iova + (-1) * PAGE_SIZE)
        by lia.
      by rewrite Z.mod_add by (unfold PAGE_SIZE; lia). }
    unfold guard_try in Hg, Hlen |- *. cbn [guard_iovas] in Hg, Hlen.
    assert (Hall' : Forall (fun a => iova <= a /\ a + PAGE_SIZE <= limit) added).
    { eapply Forall_impl; [exact Hall|]. cbn. unfold PAGE_SIZE. intros a Ha. lia. }
    destruct (map_ok (gs_attempts g) iova).
    + exists (iova :: added). split; [by rewrite Hg, <- app_assoc|].
      split; [constructor; [lia | done]|].
      intros _. apply Hlen. rewrite length_app. cbn.
      unfold RKNPU_MAX_GUARD_PAGES in *. lia.
    + exists added. split; [done|]. split; [done|]. done.
Qed.

(** The loop leaves through its condition: more fuel changes nothing. *)
Lemma guard_fill_fuel map_ok : forall fuel iova limit g k,
  0 <= iova -> limit + PAGE_SIZE <= 2 ^ 64 ->
  (limit - iova) / PAGE_SIZE < Z.of_nat fuel ->
  guard_fill map_ok (fuel + k) iova limit g = guard_fill map_ok fuel iova limit g.
Proof.
  induction fuel as [|fuel IH]; intros iova limit g k Hiova Hlimit Hfuel.
  - cbn [guard_fill Nat.add]. destruct k as [|k]; [done|]. cbn [guard_fill].
    rewrite (proj2 (Z.ltb_ge iova limit)); [done|].
    unfold PAGE_SIZE in Hfuel. cbn in Hfuel.
    destruct (Z.le_gt_cases limit iova) as [|Hlt]; [done|].
    pose proof (Z.div_pos (limit - iova) 4096 ltac:(lia) ltac:(lia)). lia.
  - cbn [Nat.add guard_fill]. destruct (_ && _) eqn:E; [|done].
    apply andb_true_iff in E as [E1 _]. apply Z.ltb_lt in E1.
    assert (Hu : u64 (iova + PAGE_SIZE) = iova + PAGE_SIZE).
    { apply u64_small. unfold PAGE_SIZE in *. lia. }
    rewrite Hu. apply IH; [unfold PAGE_SIZE; lia | done |].
    replace (limit - (iova + PAGE_SIZE)) with (limit - iova + (-1) * PAGE_SIZE)
      by lia.
    rewrite Z.div_add by (unfold PAGE_SIZE; lia). lia.
Qed.

Lemma guard_fuel_enough from limit :
  (limit - from) / PAGE_SIZE < Z.of_nat (guard_fuel from limit).
Proof.
  unfold guard_fuel. destruct (Z.le_gt_cases 0 ((limit - from) / PAGE_SIZE)); lia.
Qed.

(** ** Page arithmetic on device addresses *)

Lemma PAGE_MASK_spec x : Z.land x PAGE_MASK = x / PAGE_SIZE * PAGE_SIZE.
Proof.
  unfold PAGE_MASK, PAGE_SIZE.
  change (Z.lnot (4096 - 1)) with (Z.lnot (Z.ones 12)).
  rewrite <- Z.ldiff_land, Z.ldiff_ones_r by lia.
  rewrite Z.shiftr_div_pow2, Z.shiftl_mul_pow2 by lia. reflexivity.
Qed.

Lemma PAGE_MASK_range x :
  Z.land x PAGE_MASK mod PAGE_SIZE = 0 /\
  x - PAGE_SIZE < Z.land x PAGE_MASK <= x.
Proof.
  rewrite PAGE_MASK_spec. unfold PAGE_SIZE. split.
  - apply Z.mod_mul. lia.
  - pose proof (Z.div_mod x 4096 ltac:(lia)) as Hd.
    pose proof (Z.mod_pos_bound x 4096 ltac:(lia)) as Hm. lia.
Qed.

Lemma aligned_diff a b :
  a mod PAGE_SIZE = 0 -> b mod PAGE_SIZE = 0 -> (b - a) mod PAGE_SIZE = 0.
Proof.
  unfold PAGE_SIZE. intros Ha Hb.
  rewrite Zminus_mod, Ha, Hb. reflexivity.
Qed.

Lemma u64_range z : 0 <= u64 z < 2 ^ 64.
Proof. unfold u64, wrap_unsigned. apply Z.mod_pos_bound. lia. Qed.

(** ** The guard pages never outgrow their array *)

Lemma guard_fill_length map_ok fuel : forall iova limit g,
  Z.of_nat (length (guard_iovas g)) <= RKNPU_MAX_GUARD_PAGES ->
  Z.of_nat (length (guard_iovas (guard_fill map_ok fuel iova limit g)))
  <= RKNPU_MAX_GUARD_PAGES.
Proof.
  induction fuel as [|fuel IH]; intros iova limit g Hg; cbn [guard_fill];
    [done|].
  destruct (_ && _) eqn:E; [|done].
  apply andb_true_iff in E as [_ E]. apply Z.ltb_lt in E.
  apply IH. unfold guard_try. cbn [guard_iovas].
  destruct (map_ok _ _); [|done].
  rewrite length_app. cbn [length]. lia.
Qed.

Lemma guard_below_length map_ok ranges g :
  Z.of_nat (length (guard_iovas g)) <= RKNPU_MAX_GUARD_PAGES ->
  Z.of_nat (length (guard_iovas (guard_below map_ok ranges g)))
  <= RKNPU_MAX_GUARD_PAGES.
Proof.
  intros Hg. unfold guard_below. destruct ranges as [|r0 rest]; [done|].
  destruct (_ <=? _); [|done]. by apply guard_fill_length.
Qed.

Lemma guard_gaps_length map_ok : forall ranges g,
  Z.of_nat (length (guard_iovas g)) <= RKNPU_MAX_GUARD_PAGES ->
  Z.of_nat (length (guard_iovas (guard_gaps map_ok ranges g)))
  <= RKNPU_MAX_GUARD_PAGES.
Proof.
  induction ranges as [|r ranges IH]; intros g Hg; [done|].
  destruct ranges as [|r' rest]; [done|].
  cbn [guard_gaps]. apply IH.
  destruct (_ <=? _); [done|]. by apply guard_fill_length.
Qed.

(** ** The guard pages lie between the buffers *)

Lemma chained_app l1 l2 :
  chained (l1 ++ l2) ->
  chained l2 /\
  Forall (fun x => Forall (fun y => range_end x <= range_start y) l2) l1.
Proof.
  induction l1 as [|x l1 IH]; cbn [app chained].
  - intros H. split; [done | constructor].
  - intros [Hx Hl]. apply IH in Hl as [H2 H12]. split; [done|].
    constructor; [|done]. by apply Forall_app in Hx as [_ Hx].
Qed.

Lemma guard_below_free map_ok r0 rest g :
  chained (r0 :: rest) -> range_ok r0 ->
  Forall (free_page (r0 :: rest)) (guard_iovas g) ->
  Forall (free_page (r0 :: rest))
    (guard_iovas (guard_below map_ok (r0 :: rest) g)).
Proof.
  intros [Hch _] [Hr0 Htop] Hg. unfold guard_below.
  destruct (Z.leb_spec (RKNPU_GUARD_BELOW * PAGE_SIZE) (range_start r0))
    as [Hlow|]; [|done].
  unfold RKNPU_GUARD_BELOW, PAGE_SIZE in Hlow, Htop.
  assert (Hu : u64 (range_start r0 - RKNPU_GUARD_BELOW * PAGE_SIZE)
               = range_start r0 - 65536).
  { unfold RKNPU_GUARD_BELOW, PAGE_SIZE. apply u64_small. lia. }
  rewrite Hu.
  destruct (guard_fill_spec map_ok
              (guard_fuel (range_start r0 - 65536) (range_start r0))
              (range_start r0 - 65536) (range_start r0) g)
    as (added & -> & Hadded & _).
  { lia. }
  { unfold PAGE_SIZE. lia. }
  { replace (range_start r0 - (range_start r0 - 65536)) with 65536 by lia.
    reflexivity. }
  apply Forall_app. split; [done|].
  eapply Forall_impl; [exact Hadded|]. cbn. intros a [_ Ha].
  unfold free_page. constructor; [by left|].
  eapply Forall_impl; [exact Hch|]. cbn. intros y Hy. left. lia.
Qed.

Lemma guard_gaps_free map_ok all : forall ranges pre g,
  all = pre ++ ranges -> chained all -> Forall range_ok all ->
  Forall (free_page all) (guard_iovas g) ->
  Forall (free_page all) (guard_iovas (guard_gaps map_ok ranges g)).
Proof.
  induction ranges as [|r ranges IH]; intros pre g Hall Hch Hok Hg; [done|].
  destruct ranges as [|r' rest]; [done|].
  cbn [guard_gaps].
  apply (IH (pre ++ [r])); [by rewrite <- app_assoc | done | done |].
  destruct (Z.leb_spec (Z.land (range_start r') PAGE_MASK)
              (u64 (PAGE_ALIGN (range_end r)))) as [|Hgap]; [done|].
  pose proof Hch as Hch'. rewrite Hall in Hch'.
  apply chained_app in Hch' as [[Hr [Hr' _]] Hpre].
  pose proof Hok as Hok'. rewrite Hall in Hok'.
  apply Forall_app in Hok' as [_ Hok'].
  apply Forall_cons in Hok' as [[Hr1 Hr2] Hok'].
  apply Forall_cons in Hok' as [[Hr'1 Hr'2] _].
  apply Forall_cons in Hr as [Hrr' Hr].
  pose proof (PAGE_ALIGN_range (range_end r)) as [Hs1 Hs2].
  pose proof (PAGE_MASK_range (range_start r')) as [He1 He2].
  assert (Hu : u64 (PAGE_ALIGN (range_end r)) = PAGE_ALIGN (range_end r)).
  { apply u64_small. unfold PAGE_SIZE in *. lia. }
  rewrite Hu in Hgap |- *.
  destruct (guard_fill_spec map_ok
              (guard_fuel (PAGE_ALIGN (range_end r))
                 (Z.land (range_start r') PAGE_MASK))
              (PAGE_ALIGN (range_end r)) (Z.land (range_start r') PAGE_MASK) g)
    as (added & -> & Hadded & _).
  { lia. }
  { unfold PAGE_SIZE in *. lia. }
  { by apply aligned_diff. }
  apply Forall_app. split; [done|].
  eapply Forall_impl; [exact Hadded|]. cbn. intros a [Ha1 Ha2].
  unfold free_page. rewrite Hall. apply Forall_app. split.
  - eapply Forall_impl; [exact Hpre|]. cbn. intros x Hx. right.
    apply Forall_cons in Hx as [Hx _]. lia.
  - constructor; [right; lia|]. constructor; [left; lia|].
    eapply Forall_impl; [exact Hr'|]. cbn. intros y Hy. left. lia.
Qed.

(** ** The guard pages rise *)

Lemma spaced_app l1 l2 :
  spaced l1 -> spaced l2 ->
  Forall (fun a => Forall (fun b => a + PAGE_SIZE <= b) l2) l1 ->
  spaced (l1 ++ l2).
Proof.
  induction l1 as [|x l1 IH]; cbn [app spaced]; [done|].
  intros [Hx H1] H2 [Hx2 H12]%Forall_cons. split; [|by apply IH].
  apply Forall_app. by split.
Qed.

Lemma spaced_lookup l : forall i j a b,
  spaced l -> (i < j)%nat -> l !! i = Some a -> l !! j = Some b ->
  a + PAGE_SIZE <= b.
Proof.
  induction l as [|x l IH]; intros i j a b Hsp Hij Hi Hj; [done|].
  destruct Hsp as [Hx Hsp]. destruct j as [|j]; [lia|].
  cbn in Hj. destruct i as [|i].
  - cbn in Hi. injection Hi as <-.
    rewrite Forall_forall in Hx. apply Hx. by eapply list_elem_of_lookup_2.
  - cbn in Hi. eapply (IH i j); [done|lia|done|done].
Qed.

Lemma guard_fill_spaced map_ok fuel : forall iova limit g,
  0 <= iova -> limit + PAGE_SIZE <= 2 ^ 64 ->
  spaced (guard_iovas g) ->
  Forall (fun a => a + PAGE_SIZE <= iova) (guard_iovas g) ->
  spaced (guard_iovas (guard_fill map_ok fuel iova limit g)).
Proof.
  induction fuel as [|fuel IH]; intros iova limit g Hiova Hlimit Hsp Hbelow;
    cbn [guard_fill]; [done|].
  destruct (_ && _) eqn:E; [|done].
  apply andb_true_iff in E as [E _]. apply Z.ltb_lt in E.
  assert (Hu : u64 (iova + PAGE_SIZE) = iova + PAGE_SIZE).
  { apply u64_small. unfold PAGE_SIZE in *. lia. }
  rewrite Hu. unfold PAGE_SIZE in *.
  apply IH; [lia | done | |]; unfold guard_try; cbn [guard_iovas];
    destruct (map_ok _ _).
  - apply spaced_app; [done | by split |].
    eapply Forall_impl; [exact Hbelow|]. cbn. intros a Ha.
    constructor; [unfold PAGE_SIZE; lia | constructor].
  - done.
  - apply Forall_app. split.
    + eapply Forall_impl; [exact Hbelow|]. cbn. intros a Ha. lia.
    + constructor; [lia | constructor].
  - eapply Forall_impl; [exact Hbelow|]. cbn. intros a Ha. lia.
Qed.

Lemma guard_below_spaced map_ok r0 rest g :
  range_ok r0 -> guard_iovas g = [] ->
  let g' := guard_below map_ok (r0 :: rest) g in
  spaced (guard_iovas g') /\
  Forall (fun a => a + PAGE_SIZE <= range_start r0) (guard_iovas g').
Proof.
  intros [Hr0 Htop] Hg. cbn zeta. unfold guard_below.
  destruct (Z.leb_spec (RKNPU_GUARD_BELOW * PAGE_SIZE) (range_start r0))
    as [Hlow|]; [|by rewrite Hg].
  unfold RKNPU_GUARD_BELOW, PAGE_SIZE in Hlow, Htop.
  assert (Hu : u64 (range_start r0 - RKNPU_GUARD_BELOW * PAGE_SIZE)
               = range_start r0 - 65536).
  { unfold RKNPU_GUARD_BELOW, PAGE_SIZE. apply u64_small. lia. }
  rewrite Hu. split.
  - apply guard_fill_spaced; rewrite ?Hg; try done; unfold PAGE_SIZE; lia.
  - destruct (guard_fill_spec map_ok
                (guard_fuel (range_start r0 - 65536) (range_start r0))
                (range_start r0 - 65536) (range_start r0) g)
      as (added & -> & Hadded & _).
    { lia. }
    { unfold PAGE_SIZE. lia. }
    { replace (range_start r0 - (range_start r0 - 65536)) with 65536 by lia.
      reflexivity. }
    rewrite Hg. cbn [app].
    eapply Forall_impl; [exact Hadded|]. cbn. intros a Ha. lia.
Qed.

Lemma guard_gaps_spaced map_ok : forall ranges g,
  chained ranges -> Forall range_ok ranges ->
  spaced (guard_iovas g) ->
  Forall (fun a => Forall (fun r => a + PAGE_SIZE <= range_start r)
                     (take 1 ranges)) (guard_iovas g) ->
  spaced (guard_iovas (guard_gaps map_ok ranges g)).
Proof.
  induction ranges as [|r ranges IH]; intros g Hch Hok Hsp Hbelow; [done|].
  destruct ranges as [|r' rest]; [done|].
  cbn [guard_gaps].
  destruct Hch as [[Hrr' Hr]%Forall_cons Hch].
  apply Forall_cons in Hok as [[Hr1 Hr2] Hok]. pose proof Hok as Hok'.
  apply Forall_cons in Hok' as [[Hr'1 Hr'2] _].
  assert (Hbelow' : Forall (fun a => a + PAGE_SIZE <= range_start r)
                      (guard_iovas g)).
  { eapply Forall_impl; [exact Hbelow|]. cbn. intros a Ha.
    by apply Forall_cons in Ha as [? _]. }
  pose proof (PAGE_ALIGN_range (range_end r)) as [Hs1 Hs2].
  pose proof (PAGE_MASK_range (range_start r')) as [He1 He2].
  assert (Hu : u64 (PAGE_ALIGN (range_end r)) = PAGE_ALIGN (range_end r)).
  { apply u64_small. unfold PAGE_SIZE in *. lia. }
  rewrite Hu.
  destruct (Z.leb_spec (Z.land (range_start r') PAGE_MASK)
              (PAGE_ALIGN (range_end r))) as [|Hgap].
  - apply IH; [done|done|done|].
    eapply Forall_impl; [exact Hbelow'|]. cbn. intros a Ha.
    constructor; [lia | constructor].
  - apply IH; [done|done| |].
    + apply guard_fill_spaced; [lia | unfold PAGE_SIZE in *; lia | done |].
      eapply Forall_impl; [exact Hbelow'|]. cbn. intros a Ha. lia.
    + destruct (guard_fill_spec map_ok
                  (guard_fuel (PAGE_ALIGN (range_end r))
                     (Z.land (range_start r') PAGE_MASK))
                  (PAGE_ALIGN (range_end r))
                  (Z.land (range_start r') PAGE_MASK) g)
        as (added & -> & Hadded & _).
      { lia. }
      { unfold PAGE_SIZE in *. lia. }
      { by apply aligned_diff. }
      apply Forall_app. split.
      * eapply Forall_impl; [exact Hbelow'|]. cbn. intros a Ha.
        constructor; [lia | constructor].
      * eapply Forall_impl; [exact Hadded|]. cbn. intros a Ha.
        constructor; [lia | constructor].
Qed.

(** The sorted ranges of a session whose buffers do not overlap. *)
Lemma sorted_ranges_chained l :
  NoDup (collect_ranges l) ->
  (forall r, r ∈ collect_ranges l ->
     range_start r < range_end r /\ range_end r + PAGE_SIZE <= 2 ^ 64) ->
  (forall a b, a ∈ collect_ranges l -> b ∈ collect_ranges l -> a <> b ->
     apart a b) ->
  Forall range_ok (sort_ranges (collect_ranges l)) /\
  chained (sort_ranges (collect_ranges l)).
Proof.
  intros Hnd Hok Hapart.
  destruct (sort_ranges_sorted (collect_ranges l)) as [Hp Hasc].
  set (ranges := sort_ranges (collect_ranges l)) in *.
  assert (Hin : forall r, r ∈ ranges -> r ∈ collect_ranges l).
  { intros r Hr. by rewrite <- Hp. }
  split.
  - apply Forall_forall. intros r Hr. apply Hin in Hr.
    destruct (Hok r Hr) as [Hpos Htop]. split; [|done]. split; [|done].
    unfold collect_ranges in Hr.
    apply list_elem_of_In, in_map_iff in Hr as (bo & <- & _).
    apply u64_range.
  - apply ascending_chained; [done | by rewrite Hp | |].
    + intros a Ha. by apply Hok, Hin.
    + intros a b Ha Hb. apply Hapart; by apply Hin.
Qed.

(** * The claims *)

(** C1: [rknpu_job_alloc] sets the interrupt counter of a job to the number
    of cores in its mask. In every state the scheduler reaches the counter is
    the number of cores on which the job is still waiting or running, the job
    carries the done flag exactly when the counter is zero, and its waiters
    have been woken once if it is done and not at all otherwise. A call of
    [rknpu_job_done] that ends the last round of a core decrements the
    counter; only when the result is zero does it set the flag, store the
    result and wake the waiters, on the queue of core 0 for a job of more
    than one core. Called for a job whose counter is zero already, it sets no
    flag and wakes nobody. *)
Theorem interrupt_count_reaches_zero_once :
  (* set up by the allocation *)
  (forall d args jm am j d',
     0 <= core_mask args <= 7 ->
     rknpu_job_alloc d args jm am = (Some j, d') ->
     exists b, jobs d' !! j = Some b /\
       interrupt_count b = over_cores (on_core (core_mask args))) /\
  (* in every state the scheduler reaches *)
  (forall cfg bufs steps,
     num_irqs cfg = RKNPU_MAX_CORES -> cfg_core_mask cfg = 7 ->
     Forall step_wf steps ->
     let d := sched_run (dev_init cfg bufs) steps in
     forall j b, jobs d !! j = Some b ->
       interrupt_count b = over_cores (fun c => queued d j c || running d j c) /\
       job_done_flag b = bool_decide (interrupt_count b = 0) /\
       length (wakes_of j (trace d)) = (if job_done_flag b then 1 else 0)%nat) /\
  (* one completion, in any state *)
  (forall d j ret c b,
     jobs d !! j = Some b ->
     exists b', jobs (rknpu_job_done d j ret c) !! j = Some b' /\
       let wakes := wakes_of j (trace d) in
       let wakes' := wakes_of j (trace (rknpu_job_done d j ret c)) in
       if atomic_inc (submit_count b !!! c) <? commit_rounds (config d) b c
       then
         interrupt_count b' = interrupt_count b /\ job_flags b' = job_flags b /\
         wakes' = wakes
       else
         interrupt_count b' = atomic_dec (interrupt_count b) /\
         if atomic_dec (interrupt_count b) =? 0 then
           job_flags b' = Z.lor (job_flags b) RKNPU_JOB_DONE /\
           wakes' = wakes ++ [if 1 <? use_core_num b then 0%nat else c] /\
           (j ∉ todo_list (subcore d c) -> job_ret b' = ret)
         else job_flags b' = job_flags b /\ wakes' = wakes) /\
  (* completion triggered again for a job that is done *)
  (forall d j ret c b,
     jobs d !! j = Some b -> interrupt_count b = 0 ->
     exists b', jobs (rknpu_job_done d j ret c) !! j = Some b' /\
       job_flags b' = job_flags b /\
       wakes_of j (trace (rknpu_job_done d j ret c)) = wakes_of j (trace d)).
Proof.
  split; [|split; [|split]].
  - intros d args jm am j d' Hmask Halloc.
    destruct (rknpu_job_alloc_job _ _ _ _ _ _ Halloc)
      as (_ & _ & b & Hb & _ & _ & _ & Hint & _).
    exists b. split; [done|]. by rewrite Hint, alloc_count.
  - intros cfg bufs steps Hirq Hcap Hwf d j b Hjob.
    assert (Hinv : sched_inv d).
    { apply sched_run_inv; [done | done | by apply dev_init_inv]. }
    split; [by apply (inv_int_count _ Hinv j b)|].
    split; [by apply (inv_done _ Hinv j b) | by apply (inv_wake _ Hinv j b)].
  - intros d j ret c b Hjob. by apply rknpu_job_done_effect.
  - intros d j ret c b Hjob Hzero.
    destruct (rknpu_job_done_effect d j ret c b Hjob) as (b' & Hb' & Heff).
    exists b'. split; [done|]. cbn zeta in Heff.
    destruct (_ <? _); [tauto|].
    rewrite Hzero in Heff. change (atomic_dec 0 =? 0) with false in Heff. tauto.
Qed.

Lemma interrupt_count_reaches_zero_once_witness :
  length (wakes_of 0 (trace ten_task_run)) = 1%nat.
Proof.
  destruct interrupt_count_reaches_zero_once as (_ & H & _).
  destruct (H batch4_config scenario_bufs
              [StepSchedule ten_task_args; StepIrq 0 0x100; StepIrq 0 0x200;
               StepIrq 0 0x300]
              eq_refl eq_refl) with (j := 0%nat)
    (b := default ten_task_job (jobs ten_task_run !! 0%nat)) as (_ & _ & Hw).
  - repeat constructor; vm_compute; congruence.
  - vm_compute. reflexivity.
  - exact Hw.
Defined.












(** C7: when an interrupt arrives on a core that runs a job and the
    normalised status differs from the mask the commit recorded for that
    core, [rknpu_irq_handler] only stores the status and the entry flag in
    the job, writes the interrupt clear register and returns: the running
    slots, queues and loads are as before, and so are the job's batch
    counter, interrupt counter, flags and result. When the core runs no job
    the handler writes the interrupt clear register and calls
    [rknpu_job_next], which starts the head of the queue if there is one. *)
Theorem irq_status_mismatch_drops_interrupt :
  (forall d c j b status,
     job (subcore d c) = Some j -> jobs d !! j = Some b ->
     rknpu_fuzz_status status <> job_int_mask b !!! c ->
     let d' := rknpu_irq_handler d c status in
     trace d' = trace d ++ [EvRegWrite c RKNPU_OFFSET_INT_CLEAR RKNPU_INT_CLEAR] /\
     subcore_datas d' = subcore_datas d /\
     jobs d' = <[j := set_irq_seen c status b]> (jobs d) /\
     exists b', jobs d' !! j = Some b' /\
       submit_count b' = submit_count b /\
       interrupt_count b' = interrupt_count b /\
       run_count b' = run_count b /\
       job_flags b' = job_flags b /\ job_ret b' = job_ret b /\
       last_task b' = last_task b /\ job_int_mask b' = job_int_mask b) /\
  (forall d c status,
     job (subcore d c) = None ->
     let dc := REG_WRITE c RKNPU_INT_CLEAR RKNPU_OFFSET_INT_CLEAR d in
     let d' := rknpu_irq_handler d c status in
     d' = rknpu_job_next dc c /\
     trace dc = trace d ++ [EvRegWrite c RKNPU_OFFSET_INT_CLEAR RKNPU_INT_CLEAR] /\
     (todo_list (subcore d c) = [] -> d' = dc) /\
     (forall h rest,
        soft_reseting d = false -> todo_list (subcore d c) = h :: rest ->
        subcore d' c = mk_subcore rest (Some h) (task_num (subcore d c)) /\
        exists evs, trace d' = trace dc ++ EvStart c h :: evs)).
Proof.
  split.
  - intros d c j b status Hrun Hjob Hne. cbn zeta.
    unfold rknpu_irq_handler. rewrite Hrun.
    assert (Hb1 : jobs (update_job j (set_irq_seen c status) d) !! j
                  = Some (set_irq_seen c status b)).
    { cbn. by rewrite lookup_alter_eq, Hjob. }
    rewrite Hb1. cbn [job_int_mask set_irq_seen].
    rewrite (proj2 (Z.eqb_neq _ _) Hne).
    split; [done|]. split; [done|]. split.
    + cbn. apply map_eq. intros i. destruct (decide (i = j)) as [->|Hi].
      * by rewrite lookup_alter_eq, lookup_insert_eq, Hjob.
      * by rewrite lookup_alter_ne, lookup_insert_ne.
    + exists (set_irq_seen c status b). by repeat split.
  - intros d c status Hidle dc d'. unfold d', rknpu_irq_handler. rewrite Hidle.
    fold dc. split; [done|]. split; [done|]. split.
    + intros Hempty. rewrite rknpu_job_next_unfold.
      change (subcore dc c) with (subcore d c). rewrite Hidle, Hempty.
      by destruct (soft_reseting dc).
    + intros h rest Hrst Htodo. by apply (rknpu_job_next_starts dc c h rest).
Qed.

Lemma irq_status_mismatch_drops_interrupt_witness :
  trace (rknpu_irq_handler ten_task_started 0 0x3)
  = [EvRegWrite 0 RKNPU_OFFSET_INT_CLEAR RKNPU_INT_CLEAR].
Proof.
  destruct irq_status_mismatch_drops_interrupt as [H _].
  destruct (H ten_task_started 0%nat 0%nat ten_task_job 0x3) as (Htr & _).
  - reflexivity.
  - reflexivity.
  - vm_compute. discriminate.
  - exact Htr.
Defined.






(** C10: [rknpu_mem_map_ioctl] does not look at the handle of the request.
    For a session whose list ends in [entry] it returns 0 and the device
    address of [entry] as the offset, and it fails, with [-EINVAL], exactly
    when the list is empty. Buffers are appended when they are created and
    unlinked when they are destroyed, so the list holds the surviving buffers
    in creation order and its last entry is the most recently created one
    still on it; right after a successful creation that is the new buffer. *)
Theorem mem_map_returns_last_created (ops : list mem_op)
    (l : list rknpu_mem_object) (args : rknpu_mem_map) :
  sublist (mem_run ops) (mem_created ops) /\
  (forall args0 env obj,
     mem_create_object args0 env = inr obj -> ce_copy_out env = true ->
     rknpu_mem_map_ioctl (Some (mem_run (ops ++ [MemCreate args0 env])))
       (Some args) true
     = (0, Some (mk_mem_map (handle args) (reserved args) (u64 (dma_addr obj))))) /\
  (forall entry, last l = Some entry ->
     rknpu_mem_map_ioctl (Some l) (Some args) true
     = (0, Some (mk_mem_map (handle args) (reserved args) (u64 (dma_addr entry))))) /\
  (l = [] -> rknpu_mem_map_ioctl (Some l) (Some args) true = (- EINVAL, None)) /\
  (fst (rknpu_mem_map_ioctl (Some l) (Some args) true) <> 0 <-> l = []).
Proof.
  split; [|split; [|split; [|split]]].
  - apply (mem_run_order ops [] []). constructor.
  - intros args0 env obj Hobj Hcopy. unfold mem_run.
    rewrite foldl_app. cbn [foldl]. rewrite mem_step_create, Hobj, Hcopy.
    unfold rknpu_mem_map_ioctl. by rewrite last_snoc.
  - intros entry Hlast. unfold rknpu_mem_map_ioctl. by rewrite Hlast.
  - intros ->. reflexivity.
  - unfold rknpu_mem_map_ioctl. destruct (last l) as [entry|] eqn:Hlast.
    + cbn. split; [done|]. intros ->. discriminate.
    + apply last_None in Hlast. subst l. cbn. split; [done|]. intros _. unfold EINVAL. lia.
Qed.

Lemma mem_map_returns_last_created_witness :
  rknpu_mem_map_ioctl (Some [scenario_obj 0x100 0x4000; scenario_obj 0x200 0x8000])
    (Some (mk_mem_map 7 0 0)) true
  = (0, Some (mk_mem_map 7 0 0x8000)).
Proof.
  destruct (mem_map_returns_last_created []
              [scenario_obj 0x100 0x4000; scenario_obj 0x200 0x8000]
              (mk_mem_map 7 0 0)) as (_ & _ & H & _).
  apply (H (scenario_obj 0x200 0x8000)). reflexivity.
Defined.

(** * Further properties of the driver *)





(** X3: the wake-up of a finished job reaches the waiter. [rknpu_job_wait]
    sleeps on the wait queue of the core [rknpu_wait_core_index] derives from
    the job's mask, while [rknpu_job_done] wakes the queue of core 0 for a
    job of more than one core and the queue of the completing core
    otherwise. In every state the scheduler reaches from the initial one the
    two agree: every job counts the cores of its mask in [use_core_num], and
    the wake-ups sent for a job are none while it is not done and exactly one,
    on the queue [rknpu_job_wait] uses, once it is done. *)
Theorem wake_up_reaches_wait_queue cfg bufs steps j b :
  num_irqs cfg = RKNPU_MAX_CORES -> cfg_core_mask cfg = 7 ->
  Forall step_wf steps ->
  let d := sched_run (dev_init cfg bufs) steps in
  jobs d !! j = Some b ->
  use_core_num b = over_cores (on_core (core_mask (job_args b))) /\
  wakes_of j (trace d)
  = if job_done_flag b then [rknpu_wait_core_index (core_mask (job_args b))]
    else [].
Proof.
  intros Hirq Hcap Hwf d Hjob.
  pose proof (sched_run_wake_inv cfg bufs steps Hirq Hcap Hwf) as W.
  assert (Hinv : sched_inv d).
  { apply sched_run_inv; [done|done|by apply dev_init_inv]. }
  fold d in W. split; [by apply (wi_mask _ W j)|].
  pose proof (inv_wake _ Hinv j b Hjob) as Hlen.
  pose proof (wi_queue _ W j b) as Hq.
  destruct (wakes_of j (trace d)) as [|wq [|wq' l]];
    destruct (job_done_flag b); try done.
  f_equal. apply Hq; [done|left].
Qed.

Lemma wake_up_reaches_wait_queue_witness :
  wakes_of 1 (trace queue_run) = [] /\ wakes_of 0 (trace queue_run) = [0%nat].
Proof.
  assert (Hwf : Forall step_wf queue_steps)
    by (repeat constructor; vm_compute; congruence).
  split.
  - refine (proj2 (wake_up_reaches_wait_queue batch4_config scenario_bufs
                     queue_steps 1 (default ten_task_job (jobs queue_run !! 1%nat))
                     eq_refl eq_refl Hwf _)).
    vm_compute. reflexivity.
  - refine (proj2 (wake_up_reaches_wait_queue batch4_config scenario_bufs
                     queue_steps 0 (default ten_task_job (jobs queue_run !! 0%nat))
                     eq_refl eq_refl Hwf _)).
    vm_compute. reflexivity.
Defined.



(** X5: a blocking PC-mode [rknpu_submit] that returns 0 frees a job that
    nothing refers to any more. When the submission is made in a state the
    scheduler has reached from the initial one and returns 0, the job it
    allocated has been removed from the heap by [rknpu_job_cleanup], it is in
    no FIFO and is the running job of no core, and its waiters were woken
    exactly once. *)
Theorem successful_submit_frees_unreferenced_job cfg bufs steps args env :
  num_irqs cfg = RKNPU_MAX_CORES -> cfg_core_mask cfg = 7 ->
  Forall step_wf steps -> args_wf args ->
  Z.land (flags args) RKNPU_JOB_NONBLOCK = 0 ->
  Z.land (flags args) RKNPU_JOB_PC <> 0 ->
  let d := sched_run (dev_init cfg bufs) steps in
  let r := rknpu_submit d args env in
  fst (fst r) = 0 ->
  jobs (snd r) !! job_seq d = None /\
  (forall c,
     (job_seq d ∉ todo_list (subcore (snd r) c)) /\
     job (subcore (snd r) c) <> Some (job_seq d)) /\
  length (wakes_of (job_seq d) (trace (snd r))) = 1%nat.
Proof.
  intros Hirq Hcap Hwf Hargs Hblock Hpc d r Hret.
  destruct (sched_run_reachable cfg bufs steps Hirq Hcap Hwf) as (Hinv & _ & Hcfg).
  fold d in Hinv, Hcfg.
  assert (Hcap' : cfg_core_mask (config d) = 7) by (by rewrite Hcfg).
  destruct (rknpu_submit_success d args env Hinv Hcap' Hargs Hblock Hpc Hret)
    as (_ & (b & Hb & Hdone) & Hsub & Htr & Hfree).
  fold r in Hsub, Htr, Hfree.
  set (dw := serve_irqs (sched_apply d (StepSchedule args)) (se_irqs env)) in *.
  assert (Hinvw : sched_inv dw).
  { apply serve_irqs_inv. by apply sched_apply_inv. }
  split; [done|]. split.
  - intros c. unfold subcore. rewrite Hsub.
    apply (done_job_off_cores dw _ b Hinvw Hb Hdone).
  - rewrite Htr, (inv_wake _ Hinvw _ b Hb). by rewrite Hdone.
Qed.

Lemma successful_submit_frees_unreferenced_job_witness :
  jobs (snd (rknpu_submit (dev_init rk3588_rknpu_config scenario_bufs)
               ten_task_args (scenario_env [(0%nat, 0x300)]))) !! 0%nat
  = None.
Proof.
  apply (successful_submit_frees_unreferenced_job rk3588_rknpu_config
           scenario_bufs [] ten_task_args (scenario_env [(0%nat, 0x300)])
           eq_refl eq_refl).
  - constructor.
  - repeat constructor; vm_compute; congruence.
  - reflexivity.
  - vm_compute. discriminate.
  - vm_compute. reflexivity.
Defined.

(** X6: what [rknpu_job_wait] does for a job for which nothing has been
    committed when the wait ends. It returns [-EINVAL] and unlinks the job
    from the FIFOs of the cores whose index is below [use_core_num], the
    number of cores in the job's mask; the FIFOs of the other cores, the
    running jobs, the load counters, the job heap and the trace are as
    before. So the job leaves the FIFO of a core of its mask only if fewer
    cores precede that core than the mask has cores: a job for core 1 alone
    or for core 2 alone stays in the FIFO of its core. *)
Theorem uncommitted_wait_unlinks_low_cores cfg bufs steps j irqs rem ts b :
  num_irqs cfg = RKNPU_MAX_CORES -> cfg_core_mask cfg = 7 ->
  Forall step_wf steps ->
  let d := sched_run (dev_init cfg bufs) steps in
  let dw := serve_irqs d irqs in
  let r := rknpu_job_wait d j irqs rem ts in
  jobs dw !! j = Some b -> last_task b = None ->
  fst r = - EINVAL /\
  use_core_num b = over_cores (on_core (core_mask (job_args b))) /\
  jobs (snd r) = jobs dw /\ trace (snd r) = trace dw /\
  (forall c,
     job (subcore (snd r) c) = job (subcore dw c) /\
     task_num (subcore (snd r) c) = task_num (subcore dw c) /\
     forall j',
       j' ∈ todo_list (subcore (snd r) c) <->
       j' ∈ todo_list (subcore dw c) /\
       (j' = j -> use_core_num b <= Z.of_nat c)) /\
  (forall c,
     (core_mask (job_args b) = 2 /\ c = 1%nat) \/
     (core_mask (job_args b) = 4 /\ c = 2%nat) ->
     queued dw j c = true -> queued (snd r) j c = true).
Proof.
  intros Hirq Hcap Hwf d dw r Hjob Hlast.
  assert (Hdw : dw = sched_run (dev_init cfg bufs)
                  (steps ++ map (fun i => StepIrq (fst i) (snd i)) irqs)).
  { unfold dw, d, sched_run. by rewrite serve_irqs_sched_run, foldl_app. }
  assert (Hwf' : Forall step_wf
                   (steps ++ map (fun i => StepIrq (fst i) (snd i)) irqs)).
  { apply Forall_app. split; [done|]. apply Forall_forall.
    intros s Hs. apply list_elem_of_fmap in Hs as (i & -> & _). done. }
  assert (Hinv : sched_inv dw).
  { rewrite Hdw. by apply sched_run_reachable. }
  assert (W : wake_inv dw).
  { rewrite Hdw. by apply sched_run_wake_inv. }
  destruct (wi_mask _ W j b Hjob) as [Hm Hn].
  pose proof (over_cores_range (on_core (core_mask (job_args b)))) as Hrange.
  set (n := Z.to_nat (use_core_num b)).
  assert (Hnle : (n <= RKNPU_MAX_CORES)%nat)
    by (unfold n, RKNPU_MAX_CORES; lia).
  pose proof (unlink_loop dw j n (inv_cores _ Hinv) Hnle) as Hloop.
  cbn zeta in Hloop. destruct Hloop as (Hjobs & Htr & _ & Hsub).
  assert (Hr : r = (- EINVAL,
                    foldl (fun d i =>
                             update_subcore i
                               (fun s => mk_subcore (todo_remove j (todo_list s))
                                           (job s) (task_num s)) d)
                      dw (seq 0 n))).
  { unfold r, rknpu_job_wait. fold dw. unfold job_wait_result.
    rewrite Hjob, Hlast. fold n. f_equal.
    destruct (_ || _); [|done].
    by rewrite (proj2 (Z.ltb_ge _ _)) by lia. }
  assert (Hlist : forall c j',
            j' ∈ todo_list (subcore (snd r) c) <->
            j' ∈ todo_list (subcore dw c) /\
            (j' = j -> use_core_num b <= Z.of_nat c)).
  { intros c j'. rewrite Hr. cbn [snd]. rewrite Hsub.
    case_bool_decide as Hc; cbn [todo_list].
    - rewrite (todo_remove_elem_of j _ j' (inv_nodup _ Hinv c)).
      unfold n in Hc. split.
      + intros [H1 H2]. split; [done|]. intros ->. done.
      + intros [H1 H2]. split; [done|]. intros ->. specialize (H2 eq_refl). lia.
    - unfold n in Hc. split; [|by intros [H _]].
      intros H. split; [done|]. intros _. lia. }
  split; [by rewrite Hr|]. split; [done|].
  split; [by rewrite Hr|]. split; [by rewrite Hr|]. split.
  - intros c. split; [|split; [|apply Hlist]].
    + rewrite Hr. cbn [snd]. rewrite Hsub. by case_bool_decide.
    + rewrite Hr. cbn [snd]. rewrite Hsub. by case_bool_decide.
  - intros c Hcase Hq. apply queued_true. apply queued_true in Hq.
    apply Hlist. split; [done|]. intros _. rewrite Hn.
    destruct Hcase as [[-> ->] | [-> ->]]; vm_compute; congruence.
Qed.

Lemma uncommitted_wait_unlinks_low_cores_witness :
  let d := sched_run (dev_init rk3588_rknpu_config scenario_bufs) core2_steps in
  queued d 1 2 = true /\
  fst (rknpu_job_wait d 1 [] 0 0) = - EINVAL /\
  queued (snd (rknpu_job_wait d 1 [] 0 0)) 1 2 = true.
Proof.
  intros d.
  assert (Hwf : Forall step_wf core2_steps)
    by (repeat constructor; vm_compute; congruence).
  assert (Hq : queued d 1 2 = true) by (vm_compute; reflexivity).
  pose proof (uncommitted_wait_unlinks_low_cores rk3588_rknpu_config
                scenario_bufs core2_steps 1 [] 0 0
                (default ten_task_job (jobs d !! 1%nat))
                eq_refl eq_refl Hwf eq_refl eq_refl) as (Hr & _ & _ & _ & _ & Hk).
  split; [exact Hq|]. split; [exact Hr|].
  apply Hk; [right; split; reflexivity | exact Hq].
Defined.

(** X7: the task control word carries the length of the committed batch. On
    a configuration whose task number mask is the low [pc_task_number_bits]
    bits and whose batch limit fits that mask, as on the RK3588, a PC-mode
    commit of a batch of [tn >= 0] tasks writes the task control register of
    its core exactly once; the low bits of the value, taken with
    [pc_task_number_mask] as [rknpu_job_wait] does with the task status, are
    [tn], the length of the batch recorded for that commit, and the bits
    above them are 6, or 7 for a ping-pong job. *)
Theorem task_control_word_carries_batch_length d j c b ts tn :
  let cfg := config d in
  let bits := pc_task_number_bits cfg in
  jobs d !! j = Some b ->
  Z.land (flags (job_args b)) RKNPU_JOB_PC <> 0 ->
  task_obj_addr (job_args b) <> 0 ->
  commit_range cfg b c (submit_count b !!! c) = (ts, tn) ->
  0 <= bits <= 28 -> pc_task_number_mask cfg = Z.ones bits ->
  batch_limit cfg <= pc_task_number_mask cfg -> 0 <= tn ->
  let d' := rknpu_job_subcore_commit d j c in
  exists v,
    control_writes c (trace d') = control_writes c (trace d) ++ [v] /\
    commits_of j c (trace d') = commits_of j c (trace d) ++ [(ts, tn)] /\
    Z.land v (pc_task_number_mask cfg) = tn /\
    Z.shiftr v bits
    = if Z.land (flags (job_args b)) RKNPU_JOB_PINGPONG =? 0 then 6 else 7.
Proof.
  intros cfg bits Hjob Hpc Hobj Hrange Hbits Hmask Hlimit Htn d'.
  eexists. split; [by apply (rknpu_job_subcore_commit_control d j c b ts tn)|].
  split; [by apply (rknpu_job_subcore_commit_spec d j c b ts tn)|].
  fold cfg bits.
  assert (Hs : s32 bits = bits) by (apply s32_small; unfold INT_MIN, INT_MAX; lia).
  rewrite Hs.
  assert (Hle : tn <= batch_limit cfg).
  { pose proof (commit_range_le cfg b c (submit_count b !!! c)) as H.
    by rewrite Hrange in H. }
  assert (Hlt : 0 <= tn < 2 ^ bits).
  { rewrite Hmask, Z.ones_equiv in Hlimit. lia. }
  set (a := Z.lor 6 (if _ =? 0 then 0 else 1)).
  assert (Ha : 0 <= a < 8).
  { unfold a.
    destruct (_ =? 0); [change (Z.lor 6 0) with 6 | change (Z.lor 6 1) with 7]; lia. }
  rewrite (control_word_fits a tn bits Ha Hbits Hlt), Hmask.
  destruct (control_word_decode a tn bits ltac:(lia) Hlt) as [-> ->].
  split; [done|]. unfold a. by destruct (_ =? 0).
Qed.

Lemma task_control_word_carries_batch_length_witness :
  exists v,
    control_writes 0 (trace (rknpu_job_subcore_commit ten_task_started 0 0)) = [v] /\
    Z.land v 0xfff = 4.
Proof.
  destruct (task_control_word_carries_batch_length ten_task_started 0 0
              ten_task_job 0 4) as (v & Hw & _ & Hv & _).
  - reflexivity.
  - vm_compute. discriminate.
  - vm_compute. discriminate.
  - reflexivity.
  - vm_compute. split; discriminate.
  - reflexivity.
  - vm_compute. discriminate.
  - lia.
  - exists v. split; [exact Hw | exact Hv].
Defined.

(** X8: [rknpu_fuzz_status] completes the six pairs of status bits. Its
    result depends on the low twelve bits of the status only and lies
    within them; it contains every one of these bits that is set in the
    status; it is zero exactly when none of them is set; each pair of bits
    [2k], [2k + 1] is set in the result as a whole if one of its bits is set
    in the status and is clear otherwise; and normalising twice is
    normalising once. So the result is always a union of whole pairs, and
    when the mask [rknpu_irq_handler] expects for the running job of a core
    is not such a union, every interrupt of that core is dropped: the job
    stays the running job. *)
Theorem fuzz_status_completes_bit_pairs :
  (forall status,
     let f := rknpu_fuzz_status status in
     f = rknpu_fuzz_status (Z.land status 0xfff) /\
     0 <= f <= 0xfff /\
     Z.land (Z.land status 0xfff) f = Z.land status 0xfff /\
     (f = 0 <-> Z.land status 0xfff = 0) /\
     rknpu_fuzz_status f = f /\
     forall k, 0 <= k < 6 ->
       Z.land f (status_pair k)
       = if Z.land status (status_pair k) =? 0 then 0 else status_pair k) /\
  (forall d c j b status,
     job (subcore d c) = Some j -> jobs d !! j = Some b ->
     rknpu_fuzz_status (job_int_mask b !!! c) <> job_int_mask b !!! c ->
     subcore_datas (rknpu_irq_handler d c status) = subcore_datas d).
Proof.
  split.
  - intros status f. unfold f. rewrite (rknpu_fuzz_status_low status).
    set (t := Z.land status 0xfff).
    pose proof (land_low_range status) as Ht. fold t in Ht.
    pose proof (fuzz_status_ok_all t Ht) as Hok. unfold fuzz_status_ok in Hok.
    cbn zeta in Hok.
    apply andb_true_iff in Hok as [Hok Hpairs].
    apply andb_true_iff in Hok as [Hok Hzero].
    apply andb_true_iff in Hok as [Hok Hext].
    apply andb_true_iff in Hok as [Hok Hhi].
    apply andb_true_iff in Hok as [Hidem Hlo].
    split; [done|]. split; [lia|]. split; [lia|]. split.
    { destruct (rknpu_fuzz_status t =? 0) eqn:E1, (t =? 0) eqn:E2; try done; lia. }
    split; [lia|].
    intros k Hk.
    assert (Hp : Z.land status (status_pair k) = Z.land t (status_pair k)).
    { unfold t. rewrite <- Z.land_assoc. f_equal.
      assert (k = 0 \/ k = 1 \/ k = 2 \/ k = 3 \/ k = 4 \/ k = 5) as Hc by lia.
      by destruct Hc as [->|[->|[->|[->|[->| ->]]]]]. }
    rewrite Hp.
    rewrite forallb_forall in Hpairs.
    assert (Hin : In k [0; 1; 2; 3; 4; 5]) by (cbn; lia).
    apply Hpairs, andb_true_iff in Hin as [H1 H2].
    apply orb_true_iff in H2.
    destruct (Z.land t (status_pair k) =? 0) eqn:E; cbn in H1.
    + destruct H2 as [H2|H2]; [lia|]. by rewrite H2 in H1.
    + destruct (_ =? status_pair k) eqn:E2; [lia|done].
  - intros d c j b status Hrun Hjob Hmask. unfold rknpu_irq_handler.
    rewrite Hrun. cbn [jobs update_job set_jobs]. rewrite lookup_alter_eq, Hjob.
    cbn [fmap option_fmap option_map job_int_mask set_irq_seen].
    destruct (_ =? _) eqn:E; [|done].
    apply Z.eqb_eq in E. exfalso. apply Hmask. rewrite <- E.
    set (f := rknpu_fuzz_status status).
    pose proof (land_low_range f) as Ht.
    pose proof (fuzz_status_ok_all _ (land_low_range status)) as Hok.
    unfold fuzz_status_ok in Hok. cbn zeta in Hok.
    rewrite <- (rknpu_fuzz_status_low status) in Hok. fold f in Hok.
    apply andb_true_iff in Hok as [Hok _].
    apply andb_true_iff in Hok as [Hok _].
    apply andb_true_iff in Hok as [Hok _].
    apply andb_true_iff in Hok as [Hok _].
    apply andb_true_iff in Hok as [Hidem _]. lia.
Qed.

Lemma fuzz_status_completes_bit_pairs_witness :
  let d := sched_run (dev_init rk3588_rknpu_config
                        {[ 0x8000 := replicate 10 (scenario_task 0x100) ]})
             [StepSchedule ten_task_args] in
  job (subcore d 0) = Some 0%nat /\
  subcore_datas (rknpu_irq_handler d 0 0x100) = subcore_datas d.
Proof.
  intros d. split; [reflexivity|].
  apply (proj2 fuzz_status_completes_bit_pairs d 0%nat 0%nat
           (default ten_task_job (jobs d !! 0%nat)) 0x100).
  - reflexivity.
  - vm_compute. reflexivity.
  - vm_compute. discriminate.
Defined.





(** X11: [rknpu_mem_destroy_ioctl] unlinks and frees the first entry of the
    session whose address is the one given, and nothing else. It fails with
    [-EFAULT] when the request cannot be read or the file has no session and
    with [-EINVAL] for a null address, leaving the session as it is. For any
    other address it returns 0 whether or not the address is on the list:
    an address that is not there changes and frees nothing; one that is
    there frees one entry with that address, and the list keeps the other
    entries in their order. When the addresses on the list are distinct the
    address is gone afterwards and a second request for it changes
    nothing. *)
Theorem destroy_unlinks_first_match (l : list rknpu_mem_object) (ptr : Z) :
  rknpu_mem_destroy_ioctl (Some l) None = (- EFAULT, Some l) /\
  rknpu_mem_destroy_ioctl (Some l) (Some 0) = (- EINVAL, Some l) /\
  rknpu_mem_destroy_frees (Some l) (Some 0) = [] /\
  (ptr <> 0 -> rknpu_mem_destroy_ioctl None (Some ptr) = (- EFAULT, None)) /\
  (ptr <> 0 ->
   let freed := rknpu_mem_destroy_frees (Some l) (Some ptr) in
   exists l',
     rknpu_mem_destroy_ioctl (Some l) (Some ptr) = (0, Some l') /\
     freed ++ l' ≡ₚ l /\ sublist l' l /\
     (ptr ∉ obj_addrs l -> freed = [] /\ l' = l) /\
     (ptr ∈ obj_addrs l ->
      exists e, freed = [e] /\ obj_addr e = ptr /\ S (length l') = length l) /\
     (NoDup (obj_addrs l) ->
      l' = filter (fun e => obj_addr e <> ptr) l /\
      (ptr ∉ obj_addrs l') /\
      rknpu_mem_destroy_ioctl (Some l') (Some ptr) = (0, Some l') /\
      rknpu_mem_destroy_frees (Some l') (Some ptr) = [])).
Proof.
  split; [done|]. split; [done|]. split; [done|].
  split; [intros Hp; unfold rknpu_mem_destroy_ioctl;
          by rewrite (proj2 (Z.eqb_neq _ _) Hp)|].
  intros Hp freed. exists (session_remove ptr l).
  assert (Hfreed : freed = option_list (session_find ptr l)).
  { unfold freed, rknpu_mem_destroy_frees. by rewrite (proj2 (Z.eqb_neq _ _) Hp). }
  split; [unfold rknpu_mem_destroy_ioctl; by rewrite (proj2 (Z.eqb_neq _ _) Hp)|].
  split; [rewrite Hfreed; apply session_remove_find|].
  split; [apply session_remove_sublist|].
  split; [|split].
  - intros Hnin. split; [|by apply session_remove_absent].
    rewrite Hfreed. apply session_find_None in Hnin. by rewrite Hnin.
  - intros Hin. destruct (session_find ptr l) as [e|] eqn:E.
    + exists e. split; [by rewrite Hfreed|].
      split; [by apply (session_find_Some ptr l e)|].
      pose proof (Permutation_length (session_remove_find ptr l)) as Hlen.
      rewrite E in Hlen. cbn in Hlen. done.
    + by apply session_find_None in E.
  - intros Hnd.
    assert (Hgone : ptr ∉ obj_addrs (session_remove ptr l)).
    { rewrite (session_remove_filter ptr l Hnd). unfold obj_addrs.
      intros (e & He & Hin)%list_elem_of_fmap.
      apply list_elem_of_filter in Hin as [Hne _]. by apply Hne. }
    split; [by apply session_remove_filter|]. split; [done|].
    unfold rknpu_mem_destroy_ioctl, rknpu_mem_destroy_frees.
    rewrite (proj2 (Z.eqb_neq _ _) Hp).
    rewrite (session_remove_absent _ _ Hgone).
    apply session_find_None in Hgone. by rewrite Hgone.
Qed.

Lemma destroy_unlinks_first_match_witness :
  rknpu_mem_destroy_ioctl (Some three_buffers) (Some 0x200)
  = (0, Some [scenario_obj 0x100 0x4000; scenario_obj 0x300 0xc000]) /\
  rknpu_mem_destroy_ioctl (Some three_buffers) (Some 0x500)
  = (0, Some three_buffers).
Proof.
  split.
  - destruct (destroy_unlinks_first_match three_buffers 0x200)
      as (_ & _ & _ & _ & H).
    destruct (H ltac:(discriminate)) as (l' & Hr & _ & _ & _ & _ & Hf).
    destruct Hf as (Hl' & _).
    + vm_compute. repeat constructor; set_solver.
    + rewrite Hr, Hl'. reflexivity.
  - destruct (destroy_unlinks_first_match three_buffers 0x500)
      as (_ & _ & _ & _ & H).
    destruct (H ltac:(discriminate)) as (l' & Hr & _ & _ & Ha & _).
    destruct Ha as (_ & Hl').
    + vm_compute. set_solver.
    + by rewrite Hr, Hl'.
Defined.



(** X13: over the life of a session every published buffer is freed exactly
    once. After any sequence of create and destroy requests on an open
    session, [rknpu_release] frees every entry still on the list and clears
    the file's session, and the objects freed by the destroy requests
    together with the objects freed by [rknpu_release] are, as a multiset,
    the objects the create requests have published: none is leaked and none
    is freed twice. *)
Theorem session_buffers_freed_once (ops : list mem_op) :
  let closing := rknpu_release (mem_run ops) in
  snd closing = None /\
  fst closing = mem_run ops /\
  mem_freed ops [] ++ fst closing ≡ₚ mem_created ops /\
  (NoDup (mem_created ops) -> NoDup (mem_freed ops [] ++ fst closing)).
Proof.
  intros closing.
  assert (Hfst : fst closing = mem_run ops) by apply rknpu_release_frees.
  assert (Hperm : mem_freed ops [] ++ fst closing ≡ₚ mem_created ops).
  { rewrite Hfst. unfold mem_run. by rewrite mem_freed_created. }
  split; [done|]. split; [done|]. split; [done|].
  intros Hnd. by rewrite Hperm.
Qed.

Lemma session_buffers_freed_once_witness :
  mem_freed lifecycle_ops [] ++ fst (rknpu_release (mem_run lifecycle_ops))
  ≡ₚ mem_created lifecycle_ops.
Proof. apply (session_buffers_freed_once lifecycle_ops). Defined.

(** X14: [rknpu_mmap] maps the first buffer of the session that starts at
    the requested device address and is large enough. It fails with
    [-EINVAL] when the file has no session and when no entry of the session
    has the device address [vm_pgoff << PAGE_SHIFT] and at least the
    requested size, and then leaves [vm_pgoff] alone. Otherwise it resets
    [vm_pgoff] to 0 and returns what [dma_mmap_coherent] returns for the
    first such entry. For an entry whose device address is page aligned and
    is the address of no other entry, a mapping at that address, shifted
    right by [PAGE_SHIFT], of at most the size of the entry maps this entry.
    So the offset [rknpu_mem_map_ioctl] reports leads back to the buffer it
    was taken from, the newest one of the session. *)
Theorem mmap_finds_buffer_by_device_address
    (l : list rknpu_mem_object) (vm_pgoff size map_ret : Z) :
  let target := u64 (Z.shiftl vm_pgoff PAGE_SHIFT) in
  rknpu_mmap None vm_pgoff size map_ret = (- EINVAL, None, vm_pgoff) /\
  ((forall e, e ∈ l -> dma_addr e <> target \/ obj_size e < size) ->
   rknpu_mmap (Some l) vm_pgoff size map_ret = (- EINVAL, None, vm_pgoff)) /\
  (forall ret e pgoff',
     rknpu_mmap (Some l) vm_pgoff size map_ret = (ret, Some e, pgoff') ->
     ret = map_ret /\ pgoff' = 0 /\
     exists pre post,
       l = pre ++ e :: post /\ dma_addr e = target /\ size <= obj_size e /\
       forall e', e' ∈ pre -> dma_addr e' <> target \/ obj_size e' < size) /\
  (forall e,
     e ∈ l -> 0 <= dma_addr e < 2 ^ 64 -> dma_addr e mod PAGE_SIZE = 0 ->
     (forall e', e' ∈ l -> dma_addr e' = dma_addr e -> e' = e) ->
     size <= obj_size e ->
     rknpu_mmap (Some l) (Z.shiftr (dma_addr e) PAGE_SHIFT) size map_ret
     = (map_ret, Some e, 0)) /\
  (forall args args' e,
     rknpu_mem_map_ioctl (Some l) (Some args) true = (0, Some args') ->
     last l = Some e ->
     0 <= dma_addr e < 2 ^ 64 -> dma_addr e mod PAGE_SIZE = 0 ->
     (forall e', e' ∈ l -> dma_addr e' = dma_addr e -> e' = e) ->
     size <= obj_size e ->
     rknpu_mmap (Some l) (Z.shiftr (offset args') PAGE_SHIFT) size map_ret
     = (map_ret, Some e, 0)).
Proof.
  intros target.
  assert (Hback : forall e,
     e ∈ l -> 0 <= dma_addr e < 2 ^ 64 -> dma_addr e mod PAGE_SIZE = 0 ->
     (forall e', e' ∈ l -> dma_addr e' = dma_addr e -> e' = e) ->
     size <= obj_size e ->
     rknpu_mmap (Some l) (Z.shiftr (dma_addr e) PAGE_SHIFT) size map_ret
     = (map_ret, Some e, 0)); [|split; [done|]; split; [|split; [|split]]].
  { intros e Hin Hrange Hal Huniq Hsize. unfold rknpu_mmap.
    rewrite (page_offset_round_trip _ Hrange Hal).
    destruct (mmap_find (dma_addr e) size l) as [e0|] eqn:E.
    - destruct (mmap_find_Some _ _ _ _ E) as (pre & post & -> & Hd & _).
      rewrite (Huniq e0); [done| |done].
      apply elem_of_app. right. left.
    - exfalso. destruct (proj1 (mmap_find_None _ _ _) E e Hin); lia. }
  - intros Hnone. unfold rknpu_mmap. fold target.
    by rewrite (proj2 (mmap_find_None target size l) Hnone).
  - intros ret e pgoff'. unfold rknpu_mmap. fold target.
    destruct (mmap_find target size l) as [e0|] eqn:E; [|done].
    intros [= <- <- <-]. split; [done|]. split; [done|].
    by apply mmap_find_Some.
  - exact Hback.
  - intros args args' e Hmap Hlast Hrange Hal Huniq Hsize.
    unfold rknpu_mem_map_ioctl in Hmap. rewrite Hlast in Hmap.
    injection Hmap as <-. cbn [offset]. rewrite (u64_small _ Hrange).
    apply Hback; try done.
    apply last_Some in Hlast as [l' ->]. apply elem_of_app. right. left.
Qed.

Lemma mmap_finds_buffer_by_device_address_witness :
  rknpu_mmap (Some three_buffers) 0x8 PAGE_SIZE 0
  = (0, Some (scenario_obj 0x200 0x8000), 0).
Proof.
  destruct (mmap_finds_buffer_by_device_address three_buffers 0 PAGE_SIZE 0)
    as (_ & _ & _ & H & _).
  apply (H (scenario_obj 0x200 0x8000)).
  - vm_compute. set_solver.
  - vm_compute. split; [discriminate | reflexivity].
  - reflexivity.
  - intros e' Hin Hd. unfold three_buffers in Hin.
    repeat (apply elem_of_cons in Hin as [->|Hin]); try done.
    by apply elem_of_nil in Hin.
  - vm_compute. discriminate.
Defined.

(** X15: the insertion sort of [rknpu_submit_ioctl] orders the buffer ranges
    by their start address. The array holds the ranges of the first 32
    buffers of the session, each of them as often as before the sort, and
    afterwards no range starts above one that follows it. *)
Theorem submit_sorts_ranges_by_start (l : list rknpu_mem_object) :
  let ranges := sort_ranges (collect_ranges l) in
  ranges ≡ₚ map bo_range (take RKNPU_MAX_RANGES l) /\
  (length ranges <= RKNPU_MAX_RANGES)%nat /\
  forall i j a b,
    (i < j)%nat -> ranges !! i = Some a -> ranges !! j = Some b ->
    range_start a <= range_start b.
Proof.
  intros ranges.
  destruct (sort_ranges_sorted (collect_ranges l)) as [Hp Hasc].
  fold ranges in Hp, Hasc. split; [exact Hp|]. split.
  - rewrite Hp. unfold collect_ranges.
    rewrite length_map, length_take. lia.
  - clearbody ranges. clear Hp.
    induction ranges as [|x ranges IH]; intros i j a b Hij Hi Hj; [done|].
    destruct Hasc as [Hx Hasc]. destruct j as [|j]; [lia|].
    cbn in Hj. destruct i as [|i].
    + cbn in Hi. injection Hi as <-.
      rewrite Forall_forall in Hx. apply Hx.
      by eapply list_elem_of_lookup_2.
    + cbn in Hi. eapply (IH Hasc i j); [lia|done|done].
Qed.

Lemma submit_sorts_ranges_by_start_witness :
  range_start (mk_range 0x20000 0x21000)
  <= range_start (mk_range 0x40000 0x42000).
Proof.
  refine (proj2 (proj2 (submit_sorts_ranges_by_start gapped_buffers))
            0%nat 2%nat _ _ _ _ _).
  - lia.
  - vm_compute. reflexivity.
  - vm_compute. reflexivity.
Defined.

(** X16: the guard pages [rknpu_submit_ioctl] maps meet no buffer they were
    computed from. When the ranges of the first 32 buffers of the session
    are different from one another, none is empty or wraps, each ends at
    least a page below 2^64 and no two of them overlap, then every page
    [g, g + PAGE_SIZE) recorded in [guard_iovas] lies below the start or at
    or above the end of each of these ranges, whichever calls of
    [iommu_map] succeed. *)
Theorem guard_pages_miss_session_buffers
    (enabled : bool) (map_ok : nat -> Z -> bool) (l : list rknpu_mem_object) :
  NoDup (collect_ranges l) ->
  (forall r, r ∈ collect_ranges l ->
     range_start r < range_end r /\ range_end r + PAGE_SIZE <= 2 ^ 64) ->
  (forall a b, a ∈ collect_ranges l -> b ∈ collect_ranges l -> a <> b ->
     apart a b) ->
  Forall (free_page (collect_ranges l)) (submit_guard_pages enabled map_ok l).
Proof.
  intros Hnd Hok Hapart. unfold submit_guard_pages.
  destruct (sorted_ranges_chained l Hnd Hok Hapart) as [Hok' Hch].
  destruct (sort_ranges_sorted (collect_ranges l)) as [Hp _].
  set (ranges := sort_ranges (collect_ranges l)) in *.
  destruct (enabled && _); [|constructor].
  eapply Forall_impl with (P := free_page ranges).
  2: { intros a Ha. unfold free_page in *. by rewrite <- Hp. }
  apply (guard_gaps_free map_ok ranges ranges []); [done|done|done|].
  clearbody ranges. destruct ranges as [|r0 rest]; [constructor|].
  apply guard_below_free; [done| |constructor].
  by apply Forall_cons in Hok' as [? _].
Qed.

Lemma guard_pages_miss_session_buffers_witness :
  Forall (free_page (collect_ranges gapped_buffers))
    (submit_guard_pages true (fun _ _ => true) gapped_buffers).
Proof.
  apply guard_pages_miss_session_buffers.
  - vm_compute. repeat (constructor; [set_solver|]). constructor.
  - intros r Hr. vm_compute in Hr.
    repeat (apply elem_of_cons in Hr as [->|Hr]); [| | |by apply elem_of_nil in Hr];
      vm_compute; split; (reflexivity || discriminate).
  - intros a b Ha Hb Hab. vm_compute in Ha, Hb.
    repeat (apply elem_of_cons in Ha as [->|Ha]); [| | |by apply elem_of_nil in Ha];
      (repeat (apply elem_of_cons in Hb as [->|Hb]);
         [| | |by apply elem_of_nil in Hb]);
      try done; unfold apart; cbn; lia.
Defined.

(** X17: [rknpu_submit_ioctl] never records more guard pages than the array
    [guard_iovas] has entries: whatever buffers the session holds and
    whichever calls of [iommu_map] succeed, [guard_count] stays at or below
    [RKNPU_MAX_GUARD_PAGES], below the lowest buffer and across all gaps
    together. *)
Theorem guard_pages_fit_array
    (enabled : bool) (map_ok : nat -> Z -> bool) (l : list rknpu_mem_object) :
  Z.of_nat (length (submit_guard_pages enabled map_ok l))
  <= RKNPU_MAX_GUARD_PAGES.
Proof.
  unfold submit_guard_pages. destruct (enabled && _); [|done].
  apply guard_gaps_length, guard_below_length. done.
Qed.

(** X18: the loop that fills one gap with guard pages ends by its own
    condition. From a start address that is not negative, with the end of
    the gap at least a page below 2^64 so that [iova += PAGE_SIZE] does not
    wrap, the loop makes at most [(limit - from) / PAGE_SIZE + 1] rounds,
    also when every [iommu_map] fails: further rounds leave the state as it
    is. *)
Theorem guard_loop_ends
    (map_ok : nat -> Z -> bool) (from limit : Z) (g : guard_state) (k : nat) :
  0 <= from -> limit + PAGE_SIZE <= 2 ^ 64 ->
  guard_fill map_ok (guard_fuel from limit + k) from limit g
  = guard_fill map_ok (guard_fuel from limit) from limit g.
Proof.
  intros Hfrom Hlimit. apply guard_fill_fuel; [done|done|].
  apply guard_fuel_enough.
Qed.

Lemma guard_loop_ends_witness :
  guard_fill (fun _ _ => false) (guard_fuel 0x1000 0x5000 + 7) 0x1000 0x5000
    (mk_guards 0 [])
  = guard_fill (fun _ _ => false) (guard_fuel 0x1000 0x5000) 0x1000 0x5000
      (mk_guards 0 []).
Proof.
  apply guard_loop_ends; [lia | vm_compute; discriminate].
Defined.

(** X19: [rknpu_submit_ioctl] maps no guard address twice. When the ranges
    of the first 32 buffers of the session are different from one another,
    none is empty or wraps, each ends at least a page below 2^64 and no two
    of them overlap, the addresses recorded in [guard_iovas] rise: each
    entry is a page or more above every entry before it, whichever calls of
    [iommu_map] succeed, so the pages unmapped after the job are pairwise
    disjoint. *)
Theorem guard_pages_rise
    (enabled : bool) (map_ok : nat -> Z -> bool) (l : list rknpu_mem_object) :
  NoDup (collect_ranges l) ->
  (forall r, r ∈ collect_ranges l ->
     range_start r < range_end r /\ range_end r + PAGE_SIZE <= 2 ^ 64) ->
  (forall a b, a ∈ collect_ranges l -> b ∈ collect_ranges l -> a <> b ->
     apart a b) ->
  forall i j a b,
    (i < j)%nat ->
    submit_guard_pages enabled map_ok l !! i = Some a ->
    submit_guard_pages enabled map_ok l !! j = Some b ->
    a + PAGE_SIZE <= b.
Proof.
  intros Hnd Hok Hapart i j a b Hij.
  apply spaced_lookup; [|done]. unfold submit_guard_pages.
  destruct (sorted_ranges_chained l Hnd Hok Hapart) as [Hok' Hch].
  set (ranges := sort_ranges (collect_ranges l)) in *. clearbody ranges.
  destruct (enabled && _); [|done].
  destruct ranges as [|r0 rest]; [done|].
  pose proof Hok' as [Hr0 _]%Forall_cons.
  destruct (guard_below_spaced map_ok r0 rest (mk_guards 0 []) Hr0 eq_refl)
    as [Hsp Hbelow].
  apply guard_gaps_spaced; [done|done|done|].
  eapply Forall_impl; [exact Hbelow|]. cbn. intros x Hx.
  constructor; [done | constructor].
Qed.

Lemma guard_pages_rise_witness : 0x14000 + PAGE_SIZE <= 0x26000.
Proof.
  refine (guard_pages_rise true (fun n _ => Nat.even n) gapped_buffers
            _ _ _ 2%nat 9%nat _ _ _ _ _).
  - vm_compute. repeat (constructor; [set_solver|]). constructor.
  - intros r Hr. vm_compute in Hr.
    repeat (apply elem_of_cons in Hr as [->|Hr]); [| | |by apply elem_of_nil in Hr];
      vm_compute; split; (reflexivity || discriminate).
  - intros a b Ha Hb Hab. vm_compute in Ha, Hb.
    repeat (apply elem_of_cons in Ha as [->|Ha]); [| | |by apply elem_of_nil in Ha];
      (repeat (apply elem_of_cons in Hb as [->|Hb]);
         [| | |by apply elem_of_nil in Hb]);
      try done; unfold apart; cbn; lia.
  - lia.
  - vm_compute. reflexivity.
  - vm_compute. reflexivity.
Defined.
